(** * Raw First, Summarize Later: the durable queues, their workers and the
      process tracker of claude-mem

    A shallow embedding of
    - [src/services/sqlite/RawToolEventStore.ts]     (module [RawToolEventStore])
    - [src/services/sqlite/RawSummaryRequestStore.ts] (module [RawSummaryRequestStore])
    - [src/services/worker/RawEventSummarizer.ts]     (module [RawEventSummarizer])
    - [src/services/worker/RawSummarySummarizer.ts]   (module [RawSummarySummarizer])
    - [ProcessTracker]                                (module [ProcessTracker])
    - [src/services/worker/OrphanProcessScanner.ts]   (module [OrphanProcessScanner])

    Conventions.  JavaScript numbers that hold integers (row ids, epochs in
    milliseconds, counters) are [Z].  A table is the list of its rows in rowid
    order together with the AUTOINCREMENT high-water mark.  [Date.now()] is an
    explicit argument [now] of every operation that reads the clock.  The
    answers of the collaborators that are not part of the pipeline (session
    store, LLM provider, parser, operating system) are explicit arguments. *)

From Stdlib Require Import ZArith String Ascii.
From stdpp Require Import base decidable option list sorting numbers strings pretty gmap.

Local Open Scope Z_scope.

(** ** JavaScript values that reach the stores *)

(** [s.length] *)
Definition js_length (s : string) : Z := Z.of_nat (String.length s).

Fixpoint string_take (n : nat) (s : string) : string :=
  match n, s with
  | O, _ => EmptyString
  | S _, EmptyString => EmptyString
  | S n', String c s' => String c (string_take n' s')
  end.

(** [s.slice(0, e)]: a negative [e] counts from the end of the string. *)
Definition js_slice0 (s : string) (e : Z) : string :=
  let len := js_length s in
  let stop := if decide (e < 0) then Z.max (len + e) 0 else Z.min e len in
  string_take (Z.to_nat stop) s.

(** [s.endsWith(suffix)] *)
Definition js_endsWith (s suffix : string) : Prop :=
  ∃ front, s = (front +:+ suffix)%string.

(** A value of type [any] as the stores use it: whether it is a string, its
    truthiness, and the text [JSON.stringify] gives for it. *)
Inductive JsValue :=
| JsUndefined
| JsString (s : string)
| JsOther (truthy : bool) (json : string).

Definition js_truthy (v : JsValue) : bool :=
  match v with
  | JsUndefined => false
  | JsString s => negb (String.eqb s EmptyString)
  | JsOther b _ => b
  end.

Definition dquote : ascii := ascii_of_N 34.

Definition hex_digit (n : N) : ascii :=
  ascii_of_N (if decide (n < 10)%N then 48 + n else 87 + n)%N.

Definition json_escape_char (c : ascii) : string :=
  let n := N_of_ascii c in
  if decide (n = 34)%N then String (ascii_of_N 92) (String dquote EmptyString)
  else if decide (n = 92)%N then "\\"
  else if decide (n = 8)%N then "\b"
  else if decide (n = 9)%N then "\t"
  else if decide (n = 10)%N then "\n"
  else if decide (n = 12)%N then "\f"
  else if decide (n = 13)%N then "\r"
  else if decide (n < 32)%N then
    "\u00" +:+ String (hex_digit (n / 16)) (String (hex_digit (n mod 16)) EmptyString)
  else String c EmptyString.

Fixpoint json_escape (s : string) : string :=
  match s with
  | EmptyString => EmptyString
  | String c s' => json_escape_char c +:+ json_escape s'
  end.

(** [JSON.stringify(v)] for a value that is not [undefined]. *)
Definition JSON_stringify (v : JsValue) : string :=
  match v with
  | JsUndefined => EmptyString
  | JsString s => String dquote (json_escape s) +:+ String dquote EmptyString
  | JsOther _ json => json
  end.

(** [s || null] on an optional string, [n || null] on an optional number. *)
Definition string_or_null (o : option string) : option string :=
  match o with
  | Some s => if String.eqb s EmptyString then None else Some s
  | None => None
  end.

Definition number_or_null (o : option Z) : option Z :=
  match o with
  | Some n => if decide (n = 0) then None else Some n
  | None => None
  end.

(** [a[i]] on an array of numbers: [undefined] out of range. *)
Definition js_index (a : list Z) (i : Z) : option Z :=
  if decide (0 ≤ i) then a !! Z.to_nat i else None.

(** An object whose properties hold a number or [null], as the list of its
    own properties in the order they were created. *)
Definition JsObject : Type := list (string * option Z).

(** [o[k] = v], and [k: v] in an object literal: a property the object has
    already keeps its place. *)
Definition js_set (o : JsObject) (k : string) (v : option Z) : JsObject :=
  if decide (k ∈ o.*1)
  then (λ kv, if decide (kv.1 = k) then (k, v) else kv) <$> o
  else o ++ [(k, v)].

(** [o[k]]: [undefined] for a property the object does not have. *)
Definition js_get (o : JsObject) (k : string) : option (option Z) :=
  snd <$> (snd <$> list_find (λ kv, kv.1 = k) o).

(** [...source] in an object literal *)
Definition js_spread (target source : JsObject) : JsObject :=
  foldl (λ o kv, js_set o kv.1 kv.2) target source.

(** ** JavaScript strings and numbers the process scanner handles *)

(** A number that comes out of [parseInt] and integer arithmetic: an
    integer, or [NaN]. *)
Definition JsNumber : Type := option Z.

Definition NaN : JsNumber := None.

Definition js_add (a b : JsNumber) : JsNumber :=
  match a, b with Some x, Some y => Some (x + y) | _, _ => None end.

Definition js_mul (a b : JsNumber) : JsNumber :=
  match a, b with Some x, Some y => Some (x * y) | _, _ => None end.

(** [a < b]: false when either side is [NaN]. *)
Definition js_lt (a b : JsNumber) : bool :=
  match a, b with Some x, Some y => bool_decide (x < y) | _, _ => false end.

(** [a || 0] on a number: [NaN] and 0 are falsy. *)
Definition js_or_zero (a : JsNumber) : Z := default 0 a.

(** White space and line terminators among the code units below 256: TAB,
    LF, VT, FF, CR, SP and NBSP.  [trim], [parseInt] and [\s] agree on
    them. *)
Definition js_is_whitespace (c : ascii) : bool :=
  Ascii.is_space c || bool_decide (N_of_ascii c = 160%N).

Fixpoint js_trimStart (s : string) : string :=
  match s with
  | EmptyString => EmptyString
  | String c s' => if js_is_whitespace c then js_trimStart s' else s
  end.

Fixpoint js_trimEnd (s : string) : string :=
  match s with
  | EmptyString => EmptyString
  | String c s' =>
      match js_trimEnd s' with
      | EmptyString => if js_is_whitespace c then EmptyString else String c EmptyString
      | t => String c t
      end
  end.

(** [s.trim()] *)
Definition js_trim (s : string) : string := js_trimEnd (js_trimStart s).

(** [s.includes(c)] for a one-character string [c] *)
Fixpoint js_includes (c : ascii) (s : string) : bool :=
  match s with
  | EmptyString => false
  | String c' s' => bool_decide (c' = c) || js_includes c s'
  end.

(** The head of a list of strings grows by one character in front. *)
Definition cons_head (c : ascii) (l : list string) : list string :=
  match l with
  | [] => [String c EmptyString]
  | x :: xs => String c x :: xs
  end.

(** [s.split(c)] for a one-character string [c] *)
Fixpoint js_split (c : ascii) (s : string) : list string :=
  match s with
  | EmptyString => [EmptyString]
  | String c' s' =>
      if decide (c' = c) then EmptyString :: js_split c s'
      else cons_head c' (js_split c s')
  end.

(** [s.split(/\s+/)]; [in_run] tells that the character before was white
    space. *)
Fixpoint js_split_whitespace_from (in_run : bool) (s : string) : list string :=
  match s with
  | EmptyString => [EmptyString]
  | String c s' =>
      if js_is_whitespace c then
        if in_run then js_split_whitespace_from true s'
        else EmptyString :: js_split_whitespace_from true s'
      else cons_head c (js_split_whitespace_from false s')
  end.

Definition js_split_whitespace (s : string) : list string :=
  js_split_whitespace_from false s.

(** [l.join(sep)] *)
Fixpoint js_join (sep : string) (l : list string) : string :=
  match l with
  | [] => EmptyString
  | [x] => x
  | x :: xs => x +:+ sep +:+ js_join sep xs
  end.

(** The decimal digits at the front of [s], read after [acc] ([None]: no
    digit yet). *)
Fixpoint parse_digits (acc : option Z) (s : string) : option Z :=
  match s with
  | EmptyString => acc
  | String c s' =>
      match Ascii.is_nat c with
      | Some d => parse_digits (Some (10 * default 0 acc + Z.of_nat d)) s'
      | None => acc
      end
  end.

(** [parseInt(s, 10)]: leading white space is skipped, then an optional sign
    and the longest run of decimal digits is read; [NaN] if there is no
    digit.  The integers read are exact below 2^53. *)
Definition js_parseInt (s : string) : JsNumber :=
  match js_trimStart s with
  | String "-" s' => Z.opp <$> parse_digits None s'
  | String "+" s' => parse_digits None s'
  | s' => parse_digits None s'
  end.

(** ** Rows and tables *)

Inductive Status := pending | summarizing | completed | failed.

#[global] Instance Status_eq_dec : EqDecision Status.
Proof. solve_decision. Defined.

(** The columns the two raw tables share.  [payload] holds the columns that
    are specific to a table; [materialized_id] is [observation_id] in
    [raw_tool_events] and [summary_id] in [raw_summary_requests]. *)
Record Row (P : Type) := mkRow {
  id : Z;
  session_db_id : Z;
  payload : P;
  status : Status;
  retry_count : Z;
  created_at_epoch : Z;
  summarized_at_epoch : option Z;
  materialized_id : option Z;
  error_message : option string
}.

Arguments mkRow {P}.
Arguments id {P}.
Arguments session_db_id {P}.
Arguments payload {P}.
Arguments status {P}.
Arguments retry_count {P}.
Arguments created_at_epoch {P}.
Arguments summarized_at_epoch {P}.
Arguments materialized_id {P}.
Arguments error_message {P}.

(** [rows] in rowid order; [seq] is the largest rowid ever handed out
    ([sqlite_sequence] of an AUTOINCREMENT key). *)
Record Table (P : Type) := mkTable {
  rows : list (Row P);
  seq : Z
}.

Arguments mkTable {P}.
Arguments rows {P}.
Arguments seq {P}.

(** ** The SQL statements both stores issue *)

Module Queue.
Section Statements.
Context {P : Type}.
Implicit Types (r : Row P) (t : Table P).

Definition empty : Table P := mkTable [] 0.

Definition ids (l : list (Row P)) : list Z := id <$> l.

Definition set_status (s : Status) r : Row P :=
  mkRow (id r) (session_db_id r) (payload r) s (retry_count r)
        (created_at_epoch r) (summarized_at_epoch r) (materialized_id r)
        (error_message r).

Definition set_completed (mid now : Z) r : Row P :=
  mkRow (id r) (session_db_id r) (payload r) completed (retry_count r)
        (created_at_epoch r) (Some now) (Some mid) (error_message r).

Definition set_failure (s : Status) (retries : Z) (msg : string) r : Row P :=
  mkRow (id r) (session_db_id r) (payload r) s retries
        (created_at_epoch r) (summarized_at_epoch r) (materialized_id r)
        (Some msg).

(** [UPDATE ... SET ... WHERE c] *)
Definition update_where (c : Row P → Prop) `{!∀ r, Decision (c r)}
    (f : Row P → Row P) t : Table P :=
  mkTable ((λ r, if decide (c r) then f r else r) <$> rows t) (seq t).

(** [result.changes] of such an UPDATE or DELETE *)
Definition changes (c : Row P → Prop) `{!∀ r, Decision (c r)} t : Z :=
  Z.of_nat (length (filter c (rows t))).

(** [INSERT]: the new rowid is one more than the largest ever used. *)
Definition next_id t : Z := 1 + foldr Z.max (seq t) (ids (rows t)).

Definition insert_row (mk : Z → Row P) t : Z * Table P :=
  let i := next_id t in (i, mkTable (rows t ++ [mk i]) i).

(** [ORDER BY created_at_epoch ASC]; rows of equal epoch stay in rowid
    order. *)
Fixpoint insert_by_created r (l : list (Row P)) : list (Row P) :=
  match l with
  | [] => [r]
  | x :: l' =>
      if decide (created_at_epoch r ≤ created_at_epoch x) then r :: l
      else x :: insert_by_created r l'
  end.

Definition order_by_created_at (l : list (Row P)) : list (Row P) :=
  foldr insert_by_created [] l.

(** [SELECT * ... WHERE status = 'pending' ORDER BY created_at_epoch ASC
    LIMIT ?].  [limit] is a row count: the workers pass their [batchSize]. *)
Definition select_pending (limit : nat) t : list (Row P) :=
  take limit (order_by_created_at (filter (λ r, status r = pending) (rows t))).

(** [claimBatchForSummarization]: the SELECT and the UPDATE are one
    transaction, which [db.transaction] runs synchronously, so one step of
    the table; the rows are returned as they were read, before the UPDATE. *)
Definition claimBatchForSummarization (limit : nat) t
    : list (Row P) * Table P :=
  let batch := select_pending limit t in
  match batch with
  | [] => (batch, t)
  | _ :: _ =>
      (batch, update_where (λ r, id r ∈ ids batch) (set_status summarizing) t)
  end.

Definition markCompleted (i mid now : Z) t : Table P :=
  update_where (λ r, id r = i) (set_completed mid now) t.

(** [SELECT retry_count ... WHERE id = ?] then [event?.retry_count || 0] *)
Definition current_retries (i : Z) t : Z :=
  match list_find (λ r, id r = i) (rows t) with
  | Some (_, r) => retry_count r
  | None => 0
  end.

Definition markFailed (maxRetries : Z) (i : Z) (errorMessage : string) t
    : Table P :=
  let currentRetries := current_retries i t in
  let newRetryCount := currentRetries + 1 in
  if decide (maxRetries ≤ newRetryCount) then
    update_where (λ r, id r = i) (set_failure failed newRetryCount errorMessage) t
  else
    update_where (λ r, id r = i) (set_failure pending newRetryCount errorMessage) t.

(** [SELECT COUNT( * ) ... WHERE status = ?] *)
Definition count_status (s : Status) t : Z :=
  changes (λ r, status r = s) t.

(** [DELETE ... WHERE status = 'completed' AND summarized_at_epoch < ?]; a
    NULL [summarized_at_epoch] never compares below the bound. *)
Definition deletable (olderThanEpoch : Z) r : Prop :=
  status r = completed ∧
  match summarized_at_epoch r with
  | Some e => e < olderThanEpoch
  | None => False
  end.

#[global] Instance deletable_dec o r : Decision (deletable o r).
Proof. unfold deletable. destruct (summarized_at_epoch r); apply _. Defined.

Definition deleteCompleted (olderThanEpoch : Z) t : Z * Table P :=
  (changes (deletable olderThanEpoch) t,
   mkTable (filter (λ r, ¬ deletable olderThanEpoch r) (rows t)) (seq t)).

(** A row holds the lease or waits for it. *)
Definition active r : Prop := status r = pending ∨ status r = summarizing.

#[global] Instance active_dec r : Decision (active r).
Proof. unfold active. apply _. Defined.

Definition find_row (i : Z) t : option (Row P) :=
  snd <$> list_find (λ r, id r = i) (rows t).

(** [SELECT status, COUNT( * ) ... GROUP BY status]: one row per status that
    occurs in the table, in the order of the status texts. *)
Definition group_by_status t : list (Status * Z) :=
  filter (λ sc, sc.2 ≠ 0)
    ((λ s, (s, count_status s t)) <$> [completed; failed; pending; summarizing]).

(** [SELECT * ... WHERE session_db_id = ? ORDER BY created_at_epoch ASC] *)
Definition select_session (sessionDbId : Z) t : list (Row P) :=
  order_by_created_at (filter (λ r, session_db_id r = sessionDbId) (rows t)).

End Statements.
End Queue.

(** ** RawToolEventStore *)

Module RawToolEventStore.

(** The columns of [raw_tool_events] besides the shared ones. *)
Record Columns := mkColumns {
  content_session_id : string;
  tool_name : string;
  tool_input : option string;
  tool_response : option string;
  cwd : option string;
  prompt_number : option Z;
  project : option string
}.

Abbreviation RawToolEvent := (Row Columns).

Record RawToolEventInput := mkInput {
  data_tool_name : string;
  data_tool_input : JsValue;
  data_tool_response : JsValue;
  data_cwd : option string;
  data_prompt_number : option Z;
  data_project : option string
}.

Record t := mkStore {
  db : Table Columns;
  maxRetries : Z;
  maxResponseLength : Z
}.

(** [constructor(db, maxRetries = 3, maxResponseLength = 50000)] *)
Definition new (d : Table Columns) (maxRetries maxResponseLength : option Z) : t :=
  mkStore d (default 3 maxRetries) (default 50000 maxResponseLength).

Definition with_db (d : Table Columns) (s : t) : t :=
  mkStore d (maxRetries s) (maxResponseLength s).

Definition truncation_marker : string := "... [truncated]".

(** The text of [data.tool_response]: the string itself, or
    [JSON.stringify] of any other value. *)
Definition response_text (v : JsValue) : string :=
  match v with
  | JsString s => s
  | _ => JSON_stringify v
  end.

Definition truncate_response (cap : Z) (v : JsValue) : option string :=
  if js_truthy v then
    let responseStr := response_text v in
    Some (if decide (js_length responseStr > cap)
          then js_slice0 responseStr cap +:+ truncation_marker
          else responseStr)
  else None.

(** Modelled from the spec: the DDL of [raw_tool_events] is not part of the
    sources; a column the INSERT does not name takes the default the data
    model gives it ([retry_count] 0, the nullable columns NULL), and [id] is
    handed out monotonically. *)
Definition fresh_event (sessionDbId : Z) (c : Columns) (now : Z) (i : Z)
    : RawToolEvent :=
  mkRow i sessionDbId c pending 0 now None None None.

Definition insertRaw (sessionDbId : Z) (contentSessionId : string)
    (data : RawToolEventInput) (now : Z) (s : t) : Z * t :=
  let truncatedResponse :=
    truncate_response (maxResponseLength s) (data_tool_response data) in
  let c := mkColumns contentSessionId (data_tool_name data)
             (if js_truthy (data_tool_input data)
              then Some (JSON_stringify (data_tool_input data)) else None)
             truncatedResponse
             (string_or_null (data_cwd data))
             (number_or_null (data_prompt_number data))
             (string_or_null (data_project data)) in
  let '(i, d) := Queue.insert_row (fresh_event sessionDbId c now) (db s) in
  (i, with_db d s).

Definition claimBatchForSummarization (limit : nat) (s : t)
    : list RawToolEvent * t :=
  let '(batch, d) := Queue.claimBatchForSummarization limit (db s) in
  (batch, with_db d s).

Definition markCompleted (i observationId now : Z) (s : t) : t :=
  with_db (Queue.markCompleted i observationId now (db s)) s.

Definition markFailed (i : Z) (errorMessage : string) (s : t) : t :=
  with_db (Queue.markFailed (maxRetries s) i errorMessage (db s)) s.

Definition stuck (threshold : Z) (r : RawToolEvent) : Prop :=
  status r = summarizing ∧ created_at_epoch r < threshold.

#[global] Instance stuck_dec th r : Decision (stuck th r).
Proof. unfold stuck. apply _. Defined.

(** [releaseStuckEvents(olderThanMs = 300000)] *)
Definition releaseStuckEvents (olderThanMs : option Z) (now : Z) (s : t)
    : Z * t :=
  let threshold := now - default 300000 olderThanMs in
  (Queue.changes (stuck threshold) (db s),
   with_db (Queue.update_where (stuck threshold) (Queue.set_status pending) (db s)) s).

Definition getPendingCount (s : t) : Z := Queue.count_status pending (db s).

Definition getFailedCount (s : t) : Z := Queue.count_status failed (db s).

Definition deleteCompleted (olderThanEpoch : Z) (s : t) : Z * t :=
  let '(n, d) := Queue.deleteCompleted olderThanEpoch (db s) in
  (n, with_db d s).

Definition getById (i : Z) (s : t) : option RawToolEvent :=
  Queue.find_row i (db s).

(** The object [getStats] returns. *)
Record Stats := mkStats {
  stats_pending : Z;
  stats_summarizing : Z;
  stats_completed : Z;
  stats_failed : Z
}.

(** [result[row.status] = row.count] *)
Definition set_stat (result : Stats) (s : Status) (n : Z) : Stats :=
  match s with
  | pending => mkStats n (stats_summarizing result) (stats_completed result) (stats_failed result)
  | summarizing => mkStats (stats_pending result) n (stats_completed result) (stats_failed result)
  | completed => mkStats (stats_pending result) (stats_summarizing result) n (stats_failed result)
  | failed => mkStats (stats_pending result) (stats_summarizing result) (stats_completed result) n
  end.

(** [getStats()]: every status the table can hold is a key of [result]. *)
Definition getStats (s : t) : Stats :=
  foldl (λ result row, set_stat result row.1 row.2) (mkStats 0 0 0 0)
    (Queue.group_by_status (db s)).

(** [getBySession(sessionDbId)] *)
Definition getBySession (sessionDbId : Z) (s : t) : list RawToolEvent :=
  Queue.select_session sessionDbId (db s).

End RawToolEventStore.

(** ** RawSummaryRequestStore *)

Module RawSummaryRequestStore.

(** The columns of [raw_summary_requests] besides the shared ones. *)
Record Columns := mkColumns {
  content_session_id : string;
  memory_session_id : option string;
  project : string;
  user_prompt : string;
  last_assistant_message : option string
}.

Abbreviation RawSummaryRequest := (Row Columns).

Record RawSummaryRequestInput := mkInput {
  data_memory_session_id : option string;
  data_project : string;
  data_user_prompt : string;
  data_last_assistant_message : option string
}.

Record t := mkStore {
  db : Table Columns;
  maxRetries : Z
}.

(** [constructor(db, maxRetries = 3)]; [ensureTable] keeps an existing
    table. *)
Definition new (d : Table Columns) (maxRetries : option Z) : t :=
  mkStore d (default 3 maxRetries).

Definition with_db (d : Table Columns) (s : t) : t :=
  mkStore d (maxRetries s).

(** [status TEXT DEFAULT 'pending'], [retry_count INTEGER DEFAULT 0],
    [id INTEGER PRIMARY KEY AUTOINCREMENT] *)
Definition fresh_request (sessionDbId : Z) (c : Columns) (now : Z) (i : Z)
    : RawSummaryRequest :=
  mkRow i sessionDbId c pending 0 now None None None.

Definition insertRaw (sessionDbId : Z) (contentSessionId : string)
    (data : RawSummaryRequestInput) (now : Z) (s : t) : Z * t :=
  let c := mkColumns contentSessionId
             (string_or_null (data_memory_session_id data))
             (data_project data) (data_user_prompt data)
             (string_or_null (data_last_assistant_message data)) in
  let '(i, d) := Queue.insert_row (fresh_request sessionDbId c now) (db s) in
  (i, with_db d s).

Definition claimBatchForSummarization (limit : nat) (s : t)
    : list RawSummaryRequest * t :=
  let '(batch, d) := Queue.claimBatchForSummarization limit (db s) in
  (batch, with_db d s).

Definition markCompleted (i summaryId now : Z) (s : t) : t :=
  with_db (Queue.markCompleted i summaryId now (db s)) s.

Definition markFailed (i : Z) (errorMessage : string) (s : t) : t :=
  with_db (Queue.markFailed (maxRetries s) i errorMessage (db s)) s.

(** [SELECT COUNT( * ) ... WHERE status IN ('pending', 'summarizing')] *)
Definition getPendingCount (s : t) : Z :=
  Queue.changes Queue.active (db s).

Definition hasAnyPendingWork (s : t) : bool :=
  bool_decide (getPendingCount s > 0).

Definition releaseStuckRequests (s : t) : Z * t :=
  (Queue.changes (λ r, status r = summarizing) (db s),
   with_db (Queue.update_where (λ r, status r = summarizing)
              (Queue.set_status pending) (db s)) s).

Definition getById (i : Z) (s : t) : option RawSummaryRequest :=
  Queue.find_row i (db s).

Definition hasPendingForSession (sessionDbId : Z) (s : t) : bool :=
  bool_decide
    (Queue.changes (λ r, session_db_id r = sessionDbId ∧ Queue.active r) (db s) > 0).

(** [acc[row.status] = row.count] on an object that lists its keys in the
    order they were added. *)
Definition set_count (acc : list (Status * Z)) (s : Status) (n : Z)
    : list (Status * Z) :=
  if decide (s ∈ acc.*1)
  then (λ kv, if decide (kv.1 = s) then (s, n) else kv) <$> acc
  else acc ++ [(s, n)].

(** [getStatusCounts()] *)
Definition getStatusCounts (s : t) : list (Status * Z) :=
  foldl (λ acc row, set_count acc row.1 row.2) [] (Queue.group_by_status (db s)).

(** [counts[status]]: [undefined] for a key the object does not have. *)
Definition count_of (s : Status) (counts : list (Status * Z)) : option Z :=
  snd <$> (snd <$> list_find (λ kv, kv.1 = s) counts).

End RawSummaryRequestStore.

(** ** The collaborators' answers *)

(** What [sessionStore.getSessionById] returns of a session record. *)
Record SessionRecord := mkSession {
  session_memory_session_id : option string;
  session_project : string
}.

(** An observation as [parseObservations] returns it. *)
Record Observation := mkObservation {
  obs_type : string;
  obs_title : string;
  obs_narrative : string
}.

(** A call that may throw: the [Error]'s message, or the value returned. *)
Definition Thrown (A : Type) : Type := string + A.

(** ** RawEventSummarizer *)

Module RawEventSummarizer.
Import RawToolEventStore.

Record SummarizerStats := mkStats {
  processed : Z;
  failed : Z;
  lastRunAt : option Z;
  lastCleanupAt : option Z
}.

(** The object's fields.  [interval] tells whether the timer is set.
    [suspended] is the part of the [for ... of Object.entries(bySession)] loop
    that a tick in flight has not reached yet: the tick is suspended at the
    [await] of its head. *)
Record Worker := mkWorker {
  rawStore : RawToolEventStore.t;
  interval : bool;
  isProcessing : bool;
  stats : SummarizerStats;
  batchCounter : Z;
  batchSize : nat;
  suspended : list (Z * list RawToolEvent)
}.

Definition cleanupEveryNBatches : Z := 100.
Definition completedRetentionMs : Z := 60 * 60 * 1000.

(** [constructor(dbManager, rawStore, options)]: [batchSize || 10] *)
Definition new (store : RawToolEventStore.t) (batchSize : option nat) : Worker :=
  mkWorker store false false (mkStats 0 0 None None) 0
    (match batchSize with Some (S n) => S n | _ => 10%nat end) [].

Definition with_store (s : RawToolEventStore.t) (w : Worker) : Worker :=
  mkWorker s (interval w) (isProcessing w) (stats w) (batchCounter w)
    (batchSize w) (suspended w).

Definition with_stats (st : SummarizerStats) (w : Worker) : Worker :=
  mkWorker (rawStore w) (interval w) (isProcessing w) st (batchCounter w)
    (batchSize w) (suspended w).

(** [start()] *)
Definition start (now : Z) (w : Worker) : Worker :=
  if interval w then w
  else
    let '(released, s) := releaseStuckEvents None now (rawStore w) in
    mkWorker s true (isProcessing w) (stats w) (batchCounter w) (batchSize w)
      (suspended w).

(** [stop()] *)
Definition stop (w : Worker) : Worker :=
  mkWorker (rawStore w) false (isProcessing w) (stats w) (batchCounter w)
    (batchSize w) (suspended w).

(** [cleanupCompletedEvents()] *)
Definition cleanupCompletedEvents (now : Z) (w : Worker) : Worker :=
  let threshold := now - completedRetentionMs in
  let '(deleted, s) := deleteCompleted threshold (rawStore w) in
  with_stats (mkStats (processed (stats w)) (failed (stats w))
                (lastRunAt (stats w)) (Some now))
    (with_store s w).

(** The keys of a JavaScript object come out of [Object.entries] with the
    array indices first, in ascending order, then the other keys in the order
    they were added. *)
Definition is_array_index (k : Z) : Prop := 0 ≤ k ∧ k ≤ 4294967294.

Fixpoint add_key {A} (k : Z) (v : A) (o : list (Z * A)) : list (Z * A) :=
  match o with
  | [] => [(k, v)]
  | (k', v') :: o' =>
      if decide (is_array_index k ∧ (¬ is_array_index k' ∨ k < k'))
      then (k, v) :: o
      else (k', v') :: add_key k v o'
  end.

(** [acc[key].push(event)] for a key the object has *)
Fixpoint push_to_key (key : Z) (event : RawToolEvent)
    (acc : list (Z * list RawToolEvent)) : list (Z * list RawToolEvent) :=
  match acc with
  | [] => []
  | (k, events) :: acc' =>
      if decide (k = key) then (k, events ++ [event]) :: acc'
      else (k, events) :: push_to_key key event acc'
  end.

(** [(acc[key] = acc[key] || []).push(event)] *)
Definition push_event (acc : list (Z * list RawToolEvent)) (event : RawToolEvent)
    : list (Z * list RawToolEvent) :=
  let key := session_db_id event in
  if decide (key ∈ acc.*1) then push_to_key key event acc
  else add_key key [event] acc.

(** [groupBySession(events)], as [Object.entries] lists it *)
Definition groupBySession (events : list RawToolEvent)
    : list (Z * list RawToolEvent) :=
  foldl push_event [] events.

(** What the collaborators answer while one session's events are
    summarized. *)
Record Answers := mkAnswers {
  getSessionById : option SessionRecord;
  callLLM : Thrown (string * Z);
  parseObservations : list Observation;
  storeObservations : Thrown (list Z)
}.

(** [for (let i = 0; i < events.length; i++)] of [summarizeSessionEvents],
    from index [i] on *)
Fixpoint complete_events (observationIds : list Z) (now : Z) (i : Z)
    (events : list RawToolEvent) (s : RawToolEventStore.t) : RawToolEventStore.t :=
  match events with
  | [] => s
  | event :: rest =>
      let obsId :=
        default 0 (js_index observationIds
                     (Z.min i (Z.of_nat (length observationIds) - 1))) in
      complete_events observationIds now (i + 1) rest
        (markCompleted (id event) obsId now s)
  end.

(** The [try] block of [summarizeSessionEvents]: the message of the error
    thrown, or the store after the events were marked completed. *)
Definition try_summarize (now : Z) (a : Answers) (sessionDbId : Z)
    (events : list RawToolEvent) (s : RawToolEventStore.t)
    : Thrown RawToolEventStore.t :=
  match getSessionById a with
  | None => inl ("Session " +:+ pretty sessionDbId +:+ " not found")
  | Some sessionRecord =>
      match string_or_null (session_memory_session_id sessionRecord) with
      | None =>
          inl ("Session " +:+ pretty sessionDbId +:+ " missing memory_session_id")
      | Some memorySessionId =>
          match callLLM a with
          | inl message => inl message
          | inr (response, discoveryTokens) =>
              match events with
              | [] => inl "undefined is not an object (evaluating 'events[0].content_session_id')"
              | _ :: _ =>
                  let observations := parseObservations a in
                  if decide (length observations = 0%nat) then
                    inr (foldl (λ s' event, markCompleted (id event) 0 now s') s events)
                  else
                    match storeObservations a with
                    | inl message => inl message
                    | inr observationIds =>
                        inr (complete_events observationIds now 0 events s)
                    end
              end
          end
      end
  end.

(** [summarizeSessionEvents(sessionDbId, events)] *)
Definition summarizeSessionEvents (now : Z) (a : Answers) (sessionDbId : Z)
    (events : list RawToolEvent) (w : Worker) : Worker :=
  let n := Z.of_nat (length events) in
  match try_summarize now a sessionDbId events (rawStore w) with
  | inr s =>
      with_stats (mkStats (processed (stats w) + n) (failed (stats w))
                    (lastRunAt (stats w)) (lastCleanupAt (stats w)))
        (with_store s w)
  | inl message =>
      let s := foldl (λ s' event, markFailed (id event) message s') (rawStore w) events in
      with_stats (mkStats (processed (stats w)) (failed (stats w) + n)
                    (lastRunAt (stats w)) (lastCleanupAt (stats w)))
        (with_store s w)
  end.

(** [processBatch()] up to its first [await]: the reentrancy guard, the
    counter, the periodic cleanup and the claim. *)
Definition processBatch (now : Z) (w : Worker) : Worker :=
  if isProcessing w then w
  else
    let counter := batchCounter w + 1 in
    let w1 := mkWorker (rawStore w) (interval w) true (stats w) counter
                (batchSize w) [] in
    let w2 := if decide (Z.rem counter cleanupEveryNBatches = 0)
              then cleanupCompletedEvents now w1 else w1 in
    let '(batch, s) := claimBatchForSummarization (batchSize w2) (rawStore w2) in
    match batch with
    | [] =>
        mkWorker s (interval w2) false (stats w2) counter (batchSize w2) []
    | _ :: _ =>
        mkWorker s (interval w2) true (stats w2) counter (batchSize w2)
          (groupBySession batch)
    end.

(** The tick in flight goes on: the awaited [summarizeSessionEvents] of the
    head entry settles; after the last entry [lastRunAt] is set and the
    [finally] clause clears [isProcessing]. *)
Definition resume (now : Z) (a : Answers) (w : Worker) : Worker :=
  match suspended w with
  | [] => w
  | (sessionDbId, events) :: rest =>
      let w1 := summarizeSessionEvents now a sessionDbId events w in
      match rest with
      | [] =>
          mkWorker (rawStore w1) (interval w1) false
            (mkStats (processed (stats w1)) (failed (stats w1)) (Some now)
               (lastCleanupAt (stats w1)))
            (batchCounter w1) (batchSize w1) []
      | _ :: _ =>
          mkWorker (rawStore w1) (interval w1) (isProcessing w1) (stats w1)
            (batchCounter w1) (batchSize w1) rest
      end
  end.

(** What happens to the worker and its queue, one event at a time: the
    intake route calls [insertRaw]; [start] or [stop] is called; the timer
    fires (or [forceProcess] is called) and [processBatch] runs up to its
    first [await]; the call the tick in flight awaits settles; the service
    dies and comes back with a fresh worker over the same database. *)
Inductive Event :=
| Insert (now sessionDbId : Z) (contentSessionId : string) (data : RawToolEventInput)
| Start (now : Z)
| Stop
| Tick (now : Z)
| Settle (now : Z) (a : Answers)
| Restart.

Definition step (w : Worker) (e : Event) : Worker :=
  match e with
  | Insert now sessionDbId contentSessionId data =>
      with_store (insertRaw sessionDbId contentSessionId data now (rawStore w)).2 w
  | Start now => start now w
  | Stop => stop w
  | Tick now => processBatch now w
  | Settle now a => resume now a w
  | Restart =>
      mkWorker (rawStore w) false false (mkStats 0 0 None None) 0 (batchSize w) []
  end.

Definition run (w : Worker) (es : list Event) : Worker := foldl step w es.

(** [this.stats] as an object *)
Definition stats_object (st : SummarizerStats) : JsObject :=
  [("processed", Some (processed st)); ("failed", Some (failed st));
   ("lastRunAt", lastRunAt st); ("lastCleanupAt", lastCleanupAt st)].

(** [getStats()]: [{ ...this.stats, pending: ..., failed: ... }] *)
Definition getStats (w : Worker) : JsObject :=
  js_set
    (js_set (js_spread [] (stats_object (stats w)))
       "pending" (Some (getPendingCount (rawStore w))))
    "failed" (Some (getFailedCount (rawStore w))).

End RawEventSummarizer.

(** ** RawSummarySummarizer *)

Module RawSummarySummarizer.
Import RawSummaryRequestStore.

Record SummarizerStats := mkStats {
  processed : Z;
  failed : Z;
  lastRunAt : option Z
}.

(** [suspended] is the part of the [for (const request of batch)] loop that a
    tick in flight has not reached yet. *)
Record Worker := mkWorker {
  rawStore : RawSummaryRequestStore.t;
  interval : bool;
  isProcessing : bool;
  stats : SummarizerStats;
  batchCounter : Z;
  batchSize : nat;
  suspended : list RawSummaryRequest
}.

Definition staleCheckEveryNBatches : Z := 30.

(** [constructor(dbManager, rawStore, options)]: [batchSize || 5] *)
Definition new (store : RawSummaryRequestStore.t) (batchSize : option nat) : Worker :=
  mkWorker store false false (mkStats 0 0 None) 0
    (match batchSize with Some (S n) => S n | _ => 5%nat end) [].

Definition with_store (s : RawSummaryRequestStore.t) (w : Worker) : Worker :=
  mkWorker s (interval w) (isProcessing w) (stats w) (batchCounter w)
    (batchSize w) (suspended w).

(** [start()] *)
Definition start (w : Worker) : Worker :=
  if interval w then w
  else
    let '(released, s) := releaseStuckRequests (rawStore w) in
    mkWorker s true (isProcessing w) (stats w) (batchCounter w) (batchSize w)
      (suspended w).

(** [stop()] *)
Definition stop (w : Worker) : Worker :=
  mkWorker (rawStore w) false (isProcessing w) (stats w) (batchCounter w)
    (batchSize w) (suspended w).

(** What the collaborators answer while one request is summarized.
    [parseSummary] tells whether a summary was extracted; [storeObservations]
    gives [result.summaryId]. *)
Record Answers := mkAnswers {
  callLLM : Thrown (string * Z);
  parseSummary : bool;
  getSessionById : option SessionRecord;
  storeObservations : Thrown (option Z)
}.

(** The [try] block of [summarizeRequest]: the message of the error thrown,
    or the store after the request was marked completed. *)
Definition try_summarize (now : Z) (a : Answers) (request : RawSummaryRequest)
    (s : RawSummaryRequestStore.t) : Thrown RawSummaryRequestStore.t :=
  match callLLM a with
  | inl message => inl message
  | inr (response, discoveryTokens) =>
      if parseSummary a then
        match getSessionById a ≫= (λ r, string_or_null (session_memory_session_id r)) with
        | None =>
            inl ("No memory_session_id for session " +:+ pretty (session_db_id request))
        | Some memorySessionId =>
            match storeObservations a with
            | inl message => inl message
            | inr result_summaryId =>
                let summaryId := default 0 result_summaryId in
                inr (markCompleted (id request) summaryId now s)
            end
        end
      else inl "Failed to parse summary from LLM response"
  end.

(** [summarizeRequest(request)] *)
Definition summarizeRequest (now : Z) (a : Answers) (request : RawSummaryRequest)
    (w : Worker) : Worker :=
  match try_summarize now a request (rawStore w) with
  | inr s =>
      mkWorker s (interval w) (isProcessing w)
        (mkStats (processed (stats w) + 1) (failed (stats w)) (lastRunAt (stats w)))
        (batchCounter w) (batchSize w) (suspended w)
  | inl message =>
      mkWorker (markFailed (id request) message (rawStore w)) (interval w)
        (isProcessing w)
        (mkStats (processed (stats w)) (failed (stats w) + 1) (lastRunAt (stats w)))
        (batchCounter w) (batchSize w) (suspended w)
  end.

(** The store after the periodic release of [processBatch], when it is
    due. *)
Definition stale_check (counter : Z) (s : RawSummaryRequestStore.t)
    : RawSummaryRequestStore.t :=
  if decide (Z.rem counter staleCheckEveryNBatches = 0)
  then (releaseStuckRequests s).2 else s.

(** [processBatch()] up to its first [await]: the reentrancy guard, the
    counter, the periodic release and the claim. *)
Definition processBatch (w : Worker) : Worker :=
  if isProcessing w then w
  else
    let counter := batchCounter w + 1 in
    let s1 := stale_check counter (rawStore w) in
    let '(batch, s) := claimBatchForSummarization (batchSize w) s1 in
    match batch with
    | [] => mkWorker s (interval w) false (stats w) counter (batchSize w) []
    | _ :: _ => mkWorker s (interval w) true (stats w) counter (batchSize w) batch
    end.

(** The tick in flight goes on: the awaited [summarizeRequest] of the head
    request settles; after the last one [lastRunAt] is set and the [finally]
    clause clears [isProcessing]. *)
Definition resume (now : Z) (a : Answers) (w : Worker) : Worker :=
  match suspended w with
  | [] => w
  | request :: rest =>
      let w1 := summarizeRequest now a request w in
      match rest with
      | [] =>
          mkWorker (rawStore w1) (interval w1) false
            (mkStats (processed (stats w1)) (failed (stats w1)) (Some now))
            (batchCounter w1) (batchSize w1) []
      | _ :: _ =>
          mkWorker (rawStore w1) (interval w1) (isProcessing w1) (stats w1)
            (batchCounter w1) (batchSize w1) rest
      end
  end.

(** The outcome of [POST /api/sessions/summary]. *)
Inductive IntakeResult :=
| Queued (id : Z)
| DuplicateSummaryPending.

(** Modelled from the spec: the handler of [POST /api/sessions/summary] is
    not part of the sources.  It calls [insertRaw] on the summary queue and
    rejects the request if a pending or summarizing request already exists
    for the session, which [hasPendingForSession] tells. *)
Definition postSummary (sessionDbId : Z) (contentSessionId : string)
    (data : RawSummaryRequestInput) (now : Z) (s : RawSummaryRequestStore.t)
    : IntakeResult * RawSummaryRequestStore.t :=
  if hasPendingForSession sessionDbId s then (DuplicateSummaryPending, s)
  else
    let '(i, s') := insertRaw sessionDbId contentSessionId data now s in
    (Queued i, s').

(** What happens to the worker and its queue, one event at a time, as for
    the event worker.  [Insert] is a bare [insertRaw]; [Post] goes through
    the intake route. *)
Inductive Event :=
| Insert (now sessionDbId : Z) (contentSessionId : string) (data : RawSummaryRequestInput)
| Post (now sessionDbId : Z) (contentSessionId : string) (data : RawSummaryRequestInput)
| Start
| Stop
| Tick
| Settle (now : Z) (a : Answers)
| Restart.

Definition step (w : Worker) (e : Event) : Worker :=
  match e with
  | Insert now sessionDbId contentSessionId data =>
      with_store (insertRaw sessionDbId contentSessionId data now (rawStore w)).2 w
  | Post now sessionDbId contentSessionId data =>
      with_store (postSummary sessionDbId contentSessionId data now (rawStore w)).2 w
  | Start => start w
  | Stop => stop w
  | Tick => processBatch w
  | Settle now a => resume now a w
  | Restart =>
      mkWorker (rawStore w) false false (mkStats 0 0 None) 0 (batchSize w) []
  end.

Definition run (w : Worker) (es : list Event) : Worker := foldl step w es.

Definition is_bare_insert (e : Event) : Prop :=
  match e with Insert _ _ _ _ => True | _ => False end.

#[global] Instance is_bare_insert_dec e : Decision (is_bare_insert e).
Proof. destruct e; apply _. Defined.

(** [this.stats] as an object *)
Definition stats_object (st : SummarizerStats) : JsObject :=
  [("processed", Some (processed st)); ("failed", Some (failed st));
   ("lastRunAt", lastRunAt st)].

(** [getStats()]: [{ ...this.stats, pending: ... }] *)
Definition getStats (w : Worker) : JsObject :=
  js_set (js_spread [] (stats_object (stats w)))
    "pending" (Some (getPendingCount (rawStore w))).

End RawSummarySummarizer.

(** ** ProcessTracker *)

Module ProcessTracker.

Inductive Signal := SIGTERM | SIGKILL.

(** The fields of the child-process handle the tracker reads.  [killed] is
    Node's flag: a signal was sent through [kill], nothing more. *)
Record SpawnedProcess := mkProc {
  exitCode : option Z;
  killed : bool
}.

Record TrackedProcess := mkTracked {
  process : SpawnedProcess;
  pid : Z;
  sessionDbId : Z;
  spawnedAt : Z;
  command : string
}.

(** A process of the operating system, as far as termination goes: whether it
    keeps running when it receives SIGTERM. *)
Record OsProcess := mkOs {
  survives_sigterm : bool
}.

(** [trackedProcesses] is the tracker's map; [os] holds the processes that
    exist, by pid. *)
Record World := mkWorld {
  trackedProcesses : gmap Z TrackedProcess;
  os : gmap Z OsProcess
}.

(** [proc.kill(signal)]: nothing is sent to a process that is gone, and the
    call returns false; otherwise the signal is sent, [killed] is set and the
    call returns true.  A process that receives SIGKILL, or SIGTERM without
    surviving it, exits; its exit is taken to be immediate. *)
Definition kill (signal : Signal) (p : Z) (proc : SpawnedProcess)
    (o : gmap Z OsProcess) : bool * SpawnedProcess * gmap Z OsProcess * bool :=
  match o !! p with
  | None => (false, proc, o, false)
  | Some target =>
      let exits := match signal with
                   | SIGKILL => true
                   | SIGTERM => negb (survives_sigterm target)
                   end in
      (true, mkProc (exitCode proc) true, if exits then delete p o else o, exits)
  end.

(** [waitForExit(proc, timeoutMs)]: resolved by the exit event within the
    timeout, or at once when [exitCode] is set or [killed] is. *)
Definition waitForExit (exit_event : bool) (proc : SpawnedProcess) : bool :=
  exit_event || bool_decide (exitCode proc ≠ None) || killed proc.

(** [verifyProcessDead(pid)]: [process.kill(pid, 0)] throws for a pid that
    does not exist. *)
Definition verifyProcessDead (p : Z) (o : gmap Z OsProcess) : bool :=
  bool_decide (o !! p = None).

Definition untrack (sid : Z) (w : World) (o : gmap Z OsProcess) : World :=
  mkWorld (delete sid (trackedProcesses w)) o.

(** [terminateProcess(sessionDbId, gracefulTimeoutMs)] *)
Definition terminateProcess (sid : Z) (gracefulTimeoutMs : Z) (w : World)
    : bool * World :=
  match trackedProcesses w !! sid with
  | None => (true, w)
  | Some tracked =>
      let proc := process tracked in
      if killed proc || bool_decide (exitCode proc ≠ None) then
        (true, untrack sid w (os w))
      else
        let '(sent, proc1, os1, exited1) := kill SIGTERM (pid tracked) proc (os w) in
        if waitForExit exited1 proc1 then (true, untrack sid w os1)
        else
          let '(sent2, proc2, os2, exited2) := kill SIGKILL (pid tracked) proc1 os1 in
          let waited := waitForExit exited2 proc2 in
          (verifyProcessDead (pid tracked) os2, untrack sid w os2)
  end.

(** [createTrackedSpawnFunction(sessionDbId)(options)].  [child_pid] is
    [child.pid], which is [undefined] when the command could not be started;
    a child that was started is a new process of the operating system.  The
    record is kept under the session's id. *)
Definition createTrackedSpawnFunction (sid : Z) (cmd : string)
    (child_pid : option Z) (child : OsProcess) (now : Z) (w : World) : World :=
  match child_pid with
  | None => w
  | Some p =>
      let os' := <[p := child]> (os w) in
      if decide (p = 0) then mkWorld (trackedProcesses w) os'
      else
        mkWorld
          (<[sid := mkTracked (mkProc None false) p sid now cmd]> (trackedProcesses w))
          os'
  end.

(** The child with pid [p] that was spawned for session [sid] exits: the
    process is gone, and the listener [child.on('exit', ...)] deletes the
    entry of the session. *)
Definition on_exit (sid p : Z) (w : World) : World :=
  mkWorld (delete sid (trackedProcesses w)) (delete p (os w)).

(** [getProcess(sessionDbId)] *)
Definition getProcess (sid : Z) (w : World) : option TrackedProcess :=
  trackedProcesses w !! sid.

(** [hasProcess(sessionDbId)] *)
Definition hasProcess (sid : Z) (w : World) : bool :=
  bool_decide (is_Some (trackedProcesses w !! sid)).

(** [getAllTracked()], up to the order of the records: a [Map] lists them in
    the order of insertion. *)
Definition getAllTracked (w : World) : list TrackedProcess :=
  (map_to_list (trackedProcesses w)).*2.

(** [getTrackedCount()] *)
Definition getTrackedCount (w : World) : Z :=
  Z.of_nat (size (trackedProcesses w)).

(** The loop of [terminateAll] over [sessionIds], the snapshot of the keys
    taken before it. *)
Definition terminate_each (sessionIds : list Z) (w : World) : Z * Z * World :=
  foldl (λ (acc : Z * Z * World) sessionId,
           let '(terminated, failures, w0) := acc in
           let '(success, w') := terminateProcess sessionId 2000 w0 in
           if success then (terminated + 1, failures, w')
           else (terminated, failures + 1, w'))
        (0, 0, w) sessionIds.

(** [terminateAll()], with the keys in the order the map lists them. *)
Definition terminateAll (w : World) : Z * Z * World :=
  terminate_each (map_to_list (trackedProcesses w)).*1 w.

End ProcessTracker.

(** ** OrphanProcessScanner *)

(** The scanner on a platform other than [win32]. *)
Module OrphanProcessScanner.

Record OrphanProcessInfo := mkOrphan {
  pid : Z;
  ageSeconds : JsNumber;
  command : string
}.

Record OrphanScanResult := mkResult {
  foundCount : Z;
  killedCount : Z;
  failedCount : Z;
  pids : list Z
}.

(** The object's fields.  [intervalId] tells whether the timer is set. *)
Record Scanner := mkScanner {
  intervalId : bool;
  maxAgeMs : Z;
  scanCount : Z;
  totalKilled : Z
}.

(** [constructor(options)]: [options.maxAgeMs || 30 * 60 * 1000] *)
Definition new (options_maxAgeMs : option Z) : Scanner :=
  mkScanner false (default (30 * 60 * 1000) (number_or_null options_maxAgeMs)) 0 0.

(** [parseElapsedTime(etime)] *)
Definition parseElapsedTime (etime : string) : JsNumber :=
  let '(totalSeconds, etime) :=
    if js_includes "-" etime then
      match js_split "-" etime with
      | days :: rest :: _ =>
          (js_add (Some 0) (js_mul (js_parseInt days) (Some 86400)), rest)
      | _ => (Some 0, etime)
      end
    else (Some 0, etime) in
  let parts := reverse (js_split ":" etime) in
  let totalSeconds :=
    match parts !! 0%nat with
    | Some part => js_add totalSeconds (Some (js_or_zero (js_parseInt part)))
    | None => totalSeconds
    end in
  let totalSeconds :=
    match parts !! 1%nat with
    | Some part => js_add totalSeconds (Some (js_or_zero (js_parseInt part) * 60))
    | None => totalSeconds
    end in
  let totalSeconds :=
    match parts !! 2%nat with
    | Some part => js_add totalSeconds (Some (js_or_zero (js_parseInt part) * 3600))
    | None => totalSeconds
    end in
  totalSeconds.

(** The body of the loop of [findOrphansUnix] for one line of the listing:
    the orphan it pushes, if it does not [continue]. *)
Definition scan_line (trackedPids : gset Z) (maxAge : Z) (line : string)
    : option OrphanProcessInfo :=
  let parts := js_split_whitespace (js_trim line) in
  if decide (length parts < 3)%nat then None
  else
    let etime := default EmptyString (parts !! 1%nat) in
    let cmd := js_join " " (drop 2 parts) in
    match js_parseInt (default EmptyString (parts !! 0%nat)) with
    | None => None
    | Some p =>
        if decide (p ≤ 0) then None
        else if decide (p ∈ trackedPids) then None
        else
          let age := parseElapsedTime etime in
          let ageMs := js_mul age (Some 1000) in
          if js_lt ageMs (Some maxAge) then None
          else Some (mkOrphan p age cmd)
    end.

(** The lines the loop runs over: [stdout.trim().split('\n').filter(Boolean)] *)
Definition listing_lines (stdout : string) : list string :=
  filter (λ line, line ≠ EmptyString) (js_split "010" (js_trim stdout)).

(** What [execAsync] gives: the error's [code] and message when the promise
    is rejected, or [stdout]. *)
Definition ExecResult : Type := (option Z * string) + string.

(** [findOrphansUnix(trackedPids)] *)
Definition findOrphansUnix (trackedPids : gset Z) (maxAge : Z) (exec : ExecResult)
    : Thrown (list OrphanProcessInfo) :=
  match exec with
  | inr stdout => inr (omap (scan_line trackedPids maxAge) (listing_lines stdout))
  | inl (code, message) =>
      if decide (code = Some 1) then inr [] else inl message
  end.

(** [findOrphanedClaudeProcesses()]: the pids the tracker has on record are
    skipped; an error of the enumeration is logged and nothing is found. *)
Definition findOrphanedClaudeProcesses (sc : Scanner) (tracker : ProcessTracker.World)
    (exec : ExecResult) : list OrphanProcessInfo :=
  let trackedPids : gset Z :=
    list_to_set (ProcessTracker.pid <$> ProcessTracker.getAllTracked tracker) in
  match findOrphansUnix trackedPids (maxAgeMs sc) exec with
  | inr orphans => orphans
  | inl _ => []
  end.

(** Whether each [process.kill] of [killOrphan] throws: the SIGTERM, the
    probe with signal 0 two seconds later, the SIGKILL, and the last probe. *)
Record KillAnswers := mkKill {
  sigterm_throws : bool;
  probe_throws : bool;
  sigkill_throws : bool;
  verify_throws : bool
}.

(** A call of [process.kill(pid, signal)]; signal 0 is [None]. *)
Definition KillCall : Type := Z * option ProcessTracker.Signal.

(** [killOrphan(pid)]: its answer and the calls of [process.kill] it
    makes. *)
Definition killOrphan (p : Z) (a : KillAnswers) : bool * list KillCall :=
  let term := (p, Some ProcessTracker.SIGTERM) in
  let kill9 := (p, Some ProcessTracker.SIGKILL) in
  let probe := (p, None) in
  if sigterm_throws a then (verify_throws a, [term; probe])
  else if probe_throws a then (true, [term; probe])
  else if sigkill_throws a then (true, [term; probe; kill9])
  else (verify_throws a, [term; probe; kill9; probe]).

(** The loop [for (const orphan of orphans)] of [scan], from the [i]-th
    orphan on; [answers i] tells how the [i]-th [killOrphan] goes. *)
Fixpoint kill_each (answers : nat → KillAnswers) (i : nat)
    (orphans : list OrphanProcessInfo) (result : OrphanScanResult) (sc : Scanner)
    (calls : list KillCall) : OrphanScanResult * Scanner * list KillCall :=
  match orphans with
  | [] => (result, sc, calls)
  | orphan :: rest =>
      let '(killed, made) := killOrphan (pid orphan) (answers i) in
      if killed then
        kill_each answers (S i) rest
          (mkResult (foundCount result) (killedCount result + 1) (failedCount result)
             (pids result))
          (mkScanner (intervalId sc) (maxAgeMs sc) (scanCount sc) (totalKilled sc + 1))
          (calls ++ made)
      else
        kill_each answers (S i) rest
          (mkResult (foundCount result) (killedCount result) (failedCount result + 1)
             (pids result))
          sc (calls ++ made)
  end.

(** [scan()]: the result, the scanner afterwards, and the calls of
    [process.kill] made. *)
Definition scan (tracker : ProcessTracker.World) (exec : ExecResult)
    (answers : nat → KillAnswers) (sc : Scanner)
    : OrphanScanResult * Scanner * list KillCall :=
  let sc1 := mkScanner (intervalId sc) (maxAgeMs sc) (scanCount sc + 1) (totalKilled sc) in
  let orphans := findOrphanedClaudeProcesses sc1 tracker exec in
  let result := mkResult (Z.of_nat (length orphans)) 0 0 (pid <$> orphans) in
  kill_each answers 0 orphans result sc1 [].

(** [getStats()] *)
Definition getStats (sc : Scanner) : Z * Z * bool :=
  (scanCount sc, totalKilled sc, intervalId sc).

End OrphanProcessScanner.

(** ** Specification vocabulary *)

Section Vocabulary.
Context {P : Type}.
Implicit Types (r : Row P) (t : Table P).

(** The primary key is a key. *)
Definition unique_ids t : Prop := NoDup (Queue.ids (rows t)).

(** Two rows that differ in [status] at most. *)
Definition same_but_status r r' : Prop :=
  id r' = id r ∧ session_db_id r' = session_db_id r ∧ payload r' = payload r ∧
  retry_count r' = retry_count r ∧ created_at_epoch r' = created_at_epoch r ∧
  summarized_at_epoch r' = summarized_at_epoch r ∧
  materialized_id r' = materialized_id r ∧ error_message r' = error_message r.

(** The retry budget: a failed row has used it up, any other row has not. *)
Definition retry_ok (maxRetries : Z) r : Prop :=
  if decide (status r = failed) then retry_count r = maxRetries
  else retry_count r < maxRetries.

Definition table_ok (maxRetries : Z) t : Prop :=
  unique_ids t ∧ Forall (retry_ok maxRetries) (rows t).

(** Every id of [l] names a row that is pending or summarizing. *)
Definition leased (l : list Z) t : Prop :=
  ∀ i, i ∈ l → ∃ r, r ∈ rows t ∧ id r = i ∧ Queue.active r.

(** What a tick in flight relies on: the table is in order and the ids the
    tick still has to settle are distinct and name active rows. *)
Definition lease_ok (maxRetries : Z) (l : list Z) t : Prop :=
  table_ok maxRetries t ∧ NoDup l ∧ leased l t.

(** The ids of [l] are distinct and name rows, pending or summarizing, of a
    table whose ids are distinct. *)
Definition holds_lease (l : list Z) t : Prop :=
  unique_ids t ∧ NoDup l ∧ leased l t.

(** At most one row per session is pending or summarizing. *)
Definition active_in_session (sessionDbId : Z) r : Prop :=
  session_db_id r = sessionDbId ∧ Queue.active r.

#[global] Instance active_in_session_dec sid r : Decision (active_in_session sid r).
Proof. unfold active_in_session. apply _. Defined.

Definition one_active_per_session t : Prop :=
  ∀ sessionDbId,
    (length (filter (active_in_session sessionDbId) (rows t)) ≤ 1)%nat.

(** No id occurs in both lists. *)
Definition disjoint_ids (l1 l2 : list Z) : Prop :=
  ∀ i, i ∈ l1 → i ∈ l2 → False.

Definition created_le r1 r2 : Prop := created_at_epoch r1 ≤ created_at_epoch r2.

End Vocabulary.

(** The ids a tick of the event worker has claimed and not settled yet. *)
Definition events_in_flight (w : RawEventSummarizer.Worker) : list Z :=
  Queue.ids (concat ((RawEventSummarizer.suspended w).*2)).

Definition event_worker_ok (maxRetries : Z) (w : RawEventSummarizer.Worker) : Prop :=
  RawToolEventStore.maxRetries (RawEventSummarizer.rawStore w) = maxRetries ∧
  lease_ok maxRetries (events_in_flight w)
    (RawToolEventStore.db (RawEventSummarizer.rawStore w)).

(** The ids a tick of the summary worker has claimed and not settled yet. *)
Definition requests_in_flight (w : RawSummarySummarizer.Worker) : list Z :=
  Queue.ids (RawSummarySummarizer.suspended w).

Definition summary_worker_ok (maxRetries : Z) (w : RawSummarySummarizer.Worker) : Prop :=
  RawSummaryRequestStore.maxRetries (RawSummarySummarizer.rawStore w) = maxRetries ∧
  lease_ok maxRetries (requests_in_flight w)
    (RawSummaryRequestStore.db (RawSummarySummarizer.rawStore w)).

(** What the claims say of a table before and after an operation. *)

Section Effects.
Context {P : Type}.
Implicit Types (r : Row P) (t : Table P).

(** [batch] is what an oldest-first selection of at most [limit] pending
    rows of [t] may return. *)
Definition oldest_pending (limit : nat) t (batch : list (Row P)) : Prop :=
  (∀ r, r ∈ batch → r ∈ rows t ∧ status r = pending) ∧
  length batch = Nat.min limit (length (filter (λ r, status r = pending) (rows t))) ∧
  StronglySorted created_le batch ∧
  (∀ r b, r ∈ rows t → status r = pending → r ∉ batch → b ∈ batch → created_le b r).

(** [t'] is [t] with exactly the rows of [batch] moved to [summarizing]. *)
Definition flipped_to_summarizing (batch : list (Row P)) t t' : Prop :=
  Forall2 (λ r r', ((r ∈ batch) ∧ r' = Queue.set_status summarizing r) ∨
                   ((r ∉ batch) ∧ r' = r)) (rows t) (rows t') ∧
  seq t' = seq t.

(** [t'] is [t] with exactly the rows that satisfy [c] moved to [pending],
    and nothing else changed. *)
Definition reverted_to_pending (c : Row P → Prop) t t' : Prop :=
  Forall2 (λ r r', same_but_status r r' ∧
                   ((c r ∧ status r' = pending) ∨ (¬ c r ∧ status r' = status r)))
    (rows t) (rows t') ∧
  seq t' = seq t.

(** [t'] is [t] with the failure of row [i] recorded: one more retry, the
    message, and [failed] once the budget is used up, [pending] before. *)
Definition failure_recorded (maxRetries i : Z) (msg : string) t t' : Prop :=
  Forall2 (λ r r',
      if decide (id r = i) then
        id r' = i ∧ session_db_id r' = session_db_id r ∧ payload r' = payload r ∧
        created_at_epoch r' = created_at_epoch r ∧
        summarized_at_epoch r' = summarized_at_epoch r ∧
        materialized_id r' = materialized_id r ∧
        retry_count r' = retry_count r + 1 ∧
        error_message r' = Some msg ∧
        status r' = (if decide (maxRetries ≤ retry_count r + 1) then failed else pending)
      else r' = r)
    (rows t) (rows t') ∧
  seq t' = seq t.

(** The table has a row of id [i], and it is completed and linked to
    [mid]. *)
Definition completed_with (i mid : Z) t : Prop :=
  i ∈ Queue.ids (rows t) ∧
  ∀ r, r ∈ rows t → id r = i → status r = completed ∧ materialized_id r = Some mid.

(** [t'] is [t] with the completion of row [i] recorded: status, link and
    time of completion, and nothing else changed. *)
Definition completion_recorded (i mid now : Z) t t' : Prop :=
  Forall2 (λ r r',
      if decide (id r = i) then
        id r' = i ∧ session_db_id r' = session_db_id r ∧ payload r' = payload r ∧
        retry_count r' = retry_count r ∧ created_at_epoch r' = created_at_epoch r ∧
        error_message r' = error_message r ∧
        status r' = completed ∧ materialized_id r' = Some mid ∧
        summarized_at_epoch r' = Some now
      else r' = r)
    (rows t) (rows t') ∧
  seq t' = seq t.

(** The number of rows of [t] with status [s]. *)
Definition rows_with_status (s : Status) t : Z :=
  Z.of_nat (length (filter (λ r, status r = s) (rows t))).

(** [t'] is [t] with the rows whose id is in [L] rewritten so that [Q] holds
    of them; the other rows are as they were, and no row came or went. *)
Definition settles_with (Q : Row P → Prop) (L : list Z) t t' : Prop :=
  Queue.ids (rows t') = Queue.ids (rows t) ∧
  (∀ r', r' ∈ rows t' → ((id r' ∈ L) ∧ Q r') ∨ ((id r' ∉ L) ∧ r' ∈ rows t)) ∧
  (∀ r, r ∈ rows t → id r ∉ L → r ∈ rows t').

(** [t'] is [t] with the rows whose id is in [L] settled: they are no longer
    summarizing. *)
Definition settles (L : list Z) t t' : Prop :=
  settles_with (λ r, status r ≠ summarizing) L t t'.

(** A row as [markCompleted] at [now] leaves it. *)
Definition completed_at (now : Z) r : Prop :=
  status r = completed ∧ summarized_at_epoch r = Some now.

(** A row after [markFailed] with message [msg] under the retry budget
    [maxRetries]. *)
Definition fail_row (maxRetries : Z) (msg : string) r : Row P :=
  Queue.set_failure
    (if decide (maxRetries ≤ retry_count r + 1) then failed else pending)
    (retry_count r + 1) msg r.

End Effects.

(** An hour, minute or second field of the elapsed time [ps] prints: two
    decimal digits. *)
Definition two_digits (n : Z) : string :=
  String (pretty_N_char (Z.to_N (n / 10)))
    (String (pretty_N_char (Z.to_N (n mod 10))) EmptyString).

(** ** Scenarios *)

Module Scenario.
Import RawToolEventStore.

Definition read_event : RawToolEventInput :=
  mkInput "Read" (JsOther true "{}") (JsOther true "{}") None None None.

Fixpoint string_replicate (n : nat) (c : ascii) : string :=
  match n with
  | O => EmptyString
  | S n' => String c (string_replicate n' c)
  end.

(** A tool response of 100 000 characters. *)
Definition big_response : string := string_replicate (Z.to_nat 100000) "x"%char.

Definition big_event : RawToolEventInput :=
  mkInput "Read" (JsOther true "{}") (JsString big_response) None None None.

(** A tool response that is the empty string. *)
Definition silent_event : RawToolEventInput :=
  mkInput "Bash" (JsOther true "{}") (JsString "") None None None.

(** A tool-event queue with three pending events, queued at 30, 10 and 20. *)
Definition three_pending : RawToolEventStore.t :=
  let s0 := new Queue.empty None None in
  let s1 := (insertRaw 42 "c" read_event 30 s0).2 in
  let s2 := (insertRaw 42 "c" read_event 10 s1).2 in
  (insertRaw 7 "d" read_event 20 s2).2.

(** One pending event, claimed, failed once, and claimed again. *)
Definition one_pending : RawToolEventStore.t :=
  (insertRaw 42 "c" read_event 100 (new Queue.empty None None)).2.

Definition first_claim := claimBatchForSummarization 10 one_pending.

Definition second_claim :=
  claimBatchForSummarization 10 (markFailed 1 "UpstreamError" first_claim.2).

(** A queue whose only row was claimed at 1000 and never settled. *)
Definition stuck_since_1000 : RawToolEventStore.t :=
  (claimBatchForSummarization 10
     (insertRaw 42 "c" read_event 1000 (new Queue.empty None None)).2).2.

(** Crash recovery of the event worker: an event is queued at 1000 and
    claimed by the tick at 2000; the service dies before the tick settles and
    comes back; [start] runs at 61000 and thirty ticks follow, ten seconds
    apart. *)
Definition crashed_worker : RawEventSummarizer.Worker :=
  RawEventSummarizer.run
    (RawEventSummarizer.new (new Queue.empty None None) None)
    [RawEventSummarizer.Insert 1000 42 "c" read_event;
     RawEventSummarizer.Start 1000;
     RawEventSummarizer.Tick 2000;
     RawEventSummarizer.Restart].

Definition restarted_worker : RawEventSummarizer.Worker :=
  RawEventSummarizer.start 61000 crashed_worker.

Definition thirty_ticks : list RawEventSummarizer.Event :=
  (λ k, RawEventSummarizer.Tick (61000 + 10000 * Z.of_nat k)) <$> List.seq 1%nat 30%nat.

Definition after_thirty_ticks : RawEventSummarizer.Worker :=
  RawEventSummarizer.run restarted_worker thirty_ticks.

(** The retry budget: the provider fails on three ticks in a row. *)
Definition upstream_error : RawEventSummarizer.Answers :=
  RawEventSummarizer.mkAnswers (Some (mkSession (Some "mem-42") "project"))
    (inl "OpenRouter API error: 500") [] (inr []).

Definition retry_budget_run : list RawEventSummarizer.Event :=
  [RawEventSummarizer.Insert 100 42 "c" read_event;
   RawEventSummarizer.Start 150;
   RawEventSummarizer.Tick 200; RawEventSummarizer.Settle 300 upstream_error;
   RawEventSummarizer.Tick 400; RawEventSummarizer.Settle 500 upstream_error;
   RawEventSummarizer.Tick 600; RawEventSummarizer.Settle 700 upstream_error;
   RawEventSummarizer.Tick 800].

Definition exhausted_event : RawToolEvent :=
  mkRow 1 42 (mkColumns "c" "Read" (Some "{}") (Some "{}") None None None)
    failed 3 100 None None (Some "OpenRouter API error: 500").

(** Three events of one session are claimed together; the provider's answer
    parses to two observations, stored as 501 and 502. *)
Definition three_claimed : RawEventSummarizer.Worker :=
  RawEventSummarizer.run
    (RawEventSummarizer.new (new Queue.empty None None) None)
    [RawEventSummarizer.Insert 10 42 "c" read_event;
     RawEventSummarizer.Insert 20 42 "c" read_event;
     RawEventSummarizer.Insert 30 42 "c" read_event;
     RawEventSummarizer.Tick 100].

Definition claimed_events : list RawToolEvent :=
  match RawEventSummarizer.suspended three_claimed with
  | (_, events) :: _ => events
  | [] => []
  end.

Definition third_event : RawToolEvent :=
  mkRow 3 42 (mkColumns "c" "Read" (Some "{}") (Some "{}") None None None)
    pending 0 30 None None None.

Definition two_observations : RawEventSummarizer.Answers :=
  RawEventSummarizer.mkAnswers (Some (mkSession (Some "mem-42") "project"))
    (inr ("<observation/><observation/>", 1200))
    [mkObservation "discovery" "first" ""; mkObservation "change" "second" ""]
    (inr [501; 502]).

Definition summary_request : RawSummaryRequestStore.RawSummaryRequestInput :=
  RawSummaryRequestStore.mkInput None "project" "prompt" None.

(** The same crash on the summary queue, followed by twenty-nine ticks of a
    worker that was not started again. *)
Definition summary_worker_before_30th : RawSummarySummarizer.Worker :=
  RawSummarySummarizer.run
    (RawSummarySummarizer.new (RawSummaryRequestStore.new Queue.empty None) None)
    ([RawSummarySummarizer.Post 1000 42 "c" summary_request;
      RawSummarySummarizer.Tick;
      RawSummarySummarizer.Restart]
     ++ replicate 29 RawSummarySummarizer.Tick).

(** The summary queue with one request, claimed by the first tick. *)
Definition summary_claimed : RawSummaryRequestStore.t :=
  RawSummarySummarizer.rawStore
    (RawSummarySummarizer.run
       (RawSummarySummarizer.new (RawSummaryRequestStore.new Queue.empty None) None)
       [RawSummarySummarizer.Post 100 42 "c" summary_request;
        RawSummarySummarizer.Tick]).

Definition claimed_request : RawSummaryRequestStore.RawSummaryRequest :=
  mkRow 1 42 (RawSummaryRequestStore.mkColumns "c" None "project" "prompt" None)
    summarizing 0 100 None None None.

(** The provider is down on three ticks in a row. *)
Definition provider_down : RawSummarySummarizer.Answers :=
  RawSummarySummarizer.mkAnswers (inl "Gemini API error: 503") false None (inr None).

Definition summary_outage_run : list RawSummarySummarizer.Event :=
  [RawSummarySummarizer.Post 100 42 "c" summary_request;
   RawSummarySummarizer.Start;
   RawSummarySummarizer.Tick; RawSummarySummarizer.Settle 300 provider_down;
   RawSummarySummarizer.Tick; RawSummarySummarizer.Settle 500 provider_down;
   RawSummarySummarizer.Tick; RawSummarySummarizer.Settle 700 provider_down;
   RawSummarySummarizer.Tick].

Definition exhausted_request : RawSummaryRequestStore.RawSummaryRequest :=
  mkRow 1 42 (RawSummaryRequestStore.mkColumns "c" None "project" "prompt" None)
    failed 3 100 None None (Some "Gemini API error: 503").

(** Two requests for session 42 and one for session 7 reach the intake
    route before any of them is settled. *)
Definition duplicate_posts : list RawSummarySummarizer.Event :=
  [RawSummarySummarizer.Post 1000 42 "c" summary_request;
   RawSummarySummarizer.Post 1001 42 "c" summary_request;
   RawSummarySummarizer.Start;
   RawSummarySummarizer.Tick;
   RawSummarySummarizer.Post 1002 42 "c" summary_request;
   RawSummarySummarizer.Post 1003 7 "d" summary_request].

(** Session 7 has a tracked child, pid 4242, that handles SIGTERM and keeps
    running. *)
Definition stubborn_child : ProcessTracker.World :=
  ProcessTracker.mkWorld
    {[ 7 := ProcessTracker.mkTracked (ProcessTracker.mkProc None false) 4242 7 1000 "claude" ]}
    {[ 4242 := ProcessTracker.mkOs true ]}.

(** Events of two sessions are queued; the tick at 100 claims all three.
    The provider fails for session 7 and answers for session 42. *)
Definition three_queued : RawEventSummarizer.Worker :=
  RawEventSummarizer.run
    (RawEventSummarizer.new (new Queue.empty None None) None)
    [RawEventSummarizer.Insert 10 42 "c" read_event;
     RawEventSummarizer.Insert 20 7 "d" read_event;
     RawEventSummarizer.Insert 30 42 "c" read_event].

Definition two_settles : list (Z * RawEventSummarizer.Answers) :=
  [(200, upstream_error); (300, two_observations)].

(** Two summary requests are queued; the provider is down for the first and
    answers for the second. *)
Definition two_requests : RawSummarySummarizer.Worker :=
  RawSummarySummarizer.run
    (RawSummarySummarizer.new (RawSummaryRequestStore.new Queue.empty None) None)
    [RawSummarySummarizer.Post 100 42 "c" summary_request;
     RawSummarySummarizer.Post 110 7 "d" summary_request].

Definition summary_stored : RawSummarySummarizer.Answers :=
  RawSummarySummarizer.mkAnswers (inr ("<summary/>", 900)) true
    (Some (mkSession (Some "mem-7") "project")) (inr (Some 77)).

Definition two_summary_settles : list (Z * RawSummarySummarizer.Answers) :=
  [(200, provider_down); (300, summary_stored)].

(** The session store has no record of the session. *)
Definition no_session : RawEventSummarizer.Answers :=
  RawEventSummarizer.mkAnswers None (inr ("<observation/>", 10)) [] (inr []).

(** Sessions 9 and 7 have a tracked child each; pid 1 is a process the
    tracker knows nothing of. *)
Definition two_children : ProcessTracker.World :=
  ProcessTracker.mkWorld
    {[ 9 := ProcessTracker.mkTracked (ProcessTracker.mkProc None false) 4300 9 900 "claude";
       7 := ProcessTracker.mkTracked (ProcessTracker.mkProc None false) 4242 7 1000 "claude" ]}
    {[ 4242 := ProcessTracker.mkOs true; 4300 := ProcessTracker.mkOs false;
       1 := ProcessTracker.mkOs true ]}.

(** A listing of [ps -eo pid,etime,command]: pid 4242, which the tracker has
    on record, pid 5000, an hour old, and pid 5001, five minutes old. *)
Definition ps_listing : string :=
  (" 4242    02:00:00 claude --disallowedTools Bash" +:+ String "010"
   (" 5000    01:00:00 claude --model x --disallowedTools Bash" +:+ String "010"
    (" 5001       05:00 claude --disallowedTools Bash" +:+ String "010" "")))%string.

Definition old_orphan : OrphanProcessScanner.OrphanProcessInfo :=
  OrphanProcessScanner.mkOrphan 5000 (Some 3600) "claude --model x --disallowedTools Bash".

(** Every [process.kill] goes through and the orphan is gone at the last
    probe. *)
Definition killed_by_sigkill : OrphanProcessScanner.KillAnswers :=
  OrphanProcessScanner.mkKill false false false true.

End Scenario.

(** * Properties *)

(** ** Strings *)

Lemma length_string_take n s :
  String.length (string_take n s) = Nat.min n (String.length s).
Proof.
  revert s. induction n as [|n IH]; intros [|c s]; simpl; auto.
Qed.

Lemma length_string_app (s1 s2 : string) :
  String.length (s1 +:+ s2) = (String.length s1 + String.length s2)%nat.
Proof. induction s1 as [|c s1 IH]; simpl; auto. Qed.

Lemma js_length_slice0 s e :
  0 ≤ e → e ≤ js_length s → js_length (js_slice0 s e) = e.
Proof.
  intros H0 Hle. unfold js_slice0, js_length in *.
  rewrite decide_False by lia. rewrite length_string_take. lia.
Qed.

(** ** The SQL statements *)

Section QueueFacts.
Context {P : Type}.
Implicit Types (r : Row P) (t : Table P) (l : list (Row P)).

Lemma ids_update_where (c : Row P → Prop) `{!∀ r, Decision (c r)} f t :
  (∀ r, id (f r) = id r) →
  Queue.ids (rows (Queue.update_where c f t)) = Queue.ids (rows t).
Proof.
  intros Hid. unfold Queue.ids, Queue.update_where. simpl.
  rewrite <- list_fmap_compose. apply list_fmap_ext.
  intros i r _. simpl. case_decide; auto.
Qed.

Lemma elem_of_update_where (c : Row P → Prop) `{!∀ r, Decision (c r)} f t r' :
  r' ∈ rows (Queue.update_where c f t) ↔
  ∃ r, r ∈ rows t ∧ r' = (if decide (c r) then f r else r).
Proof.
  unfold Queue.update_where. simpl. rewrite list_elem_of_fmap.
  split; intros [r [H1 H2]]; exists r; auto.
Qed.

Lemma unique_row l r r' :
  NoDup (Queue.ids l) → r ∈ l → r' ∈ l → id r = id r' → r = r'.
Proof.
  induction l as [|x l IH]; simpl; intros Hnd Hr Hr' Heq.
  - inversion Hr.
  - apply NoDup_cons in Hnd as [Hx Hnd].
    apply elem_of_cons in Hr as [->|Hr];
      apply elem_of_cons in Hr' as [->|Hr']; auto.
    + exfalso. apply Hx. rewrite Heq. by apply list_elem_of_fmap_2.
    + exfalso. apply Hx. rewrite <- Heq. by apply list_elem_of_fmap_2.
Qed.

Lemma insert_by_created_perm r l : Queue.insert_by_created r l ≡ₚ r :: l.
Proof.
  induction l as [|x l IH]; simpl; [done|].
  case_decide; [done|]. rewrite IH. apply Permutation_swap.
Qed.

Lemma order_by_created_at_perm l : Queue.order_by_created_at l ≡ₚ l.
Proof.
  induction l as [|x l IH]; simpl; [done|].
  rewrite insert_by_created_perm. by rewrite IH.
Qed.

Lemma insert_by_created_sorted r l :
  StronglySorted created_le l →
  StronglySorted created_le (Queue.insert_by_created r l).
Proof.
  intros Hs. induction Hs as [|x l Hs IH Hx]; simpl.
  - repeat constructor.
  - case_decide as Hle.
    + constructor; [by constructor|].
      constructor; [done|].
      eapply Forall_impl; [exact Hx|]. unfold created_le. intros; lia.
    + constructor; [done|].
      rewrite insert_by_created_perm. constructor; [|done].
      unfold created_le. lia.
Qed.

Lemma order_by_created_at_sorted l :
  StronglySorted created_le (Queue.order_by_created_at l).
Proof.
  induction l as [|x l IH]; simpl; [constructor|].
  by apply insert_by_created_sorted.
Qed.

End QueueFacts.

Section ClaimFacts.
Context {P : Type}.
Implicit Types (r : Row P) (t : Table P) (l : list (Row P)).

Lemma submseteq_NoDup_ids (l k : list Z) : l ⊆+ k → NoDup k → NoDup l.
Proof.
  intros Hsub Hnd. apply submseteq_Permutation in Hsub as [k' Hk].
  rewrite Hk in Hnd. by apply NoDup_app in Hnd as [? _].
Qed.

Lemma select_pending_submseteq n t : Queue.select_pending n t ⊆+ rows t.
Proof.
  unfold Queue.select_pending. etrans; [apply submseteq_take|].
  rewrite order_by_created_at_perm. apply sublist_submseteq, sublist_filter.
Qed.

Lemma select_pending_elem n t r :
  r ∈ Queue.select_pending n t → r ∈ rows t ∧ status r = pending.
Proof.
  unfold Queue.select_pending. intros Hr.
  apply subseteq_take in Hr. rewrite order_by_created_at_perm in Hr.
  apply list_elem_of_filter in Hr. tauto.
Qed.

Lemma select_pending_length n t :
  length (Queue.select_pending n t) =
  Nat.min n (length (filter (λ r, status r = pending) (rows t))).
Proof.
  unfold Queue.select_pending. rewrite length_take.
  by rewrite order_by_created_at_perm.
Qed.

Lemma select_pending_sorted n t :
  StronglySorted created_le (Queue.select_pending n t).
Proof.
  unfold Queue.select_pending.
  set (l := Queue.order_by_created_at _).
  pose proof (order_by_created_at_sorted (filter (λ r, status r = pending) (rows t))) as Hs.
  fold l in Hs. rewrite <- (take_drop n l) in Hs.
  by apply StronglySorted_app in Hs as (_ & ? & _).
Qed.

Lemma select_pending_oldest n t r b :
  r ∈ rows t → status r = pending → r ∉ Queue.select_pending n t →
  b ∈ Queue.select_pending n t → created_le b r.
Proof.
  unfold Queue.select_pending.
  set (l := Queue.order_by_created_at _). intros Hr Hp Hnot Hb.
  pose proof (order_by_created_at_sorted (filter (λ r, status r = pending) (rows t))) as Hs.
  fold l in Hs. rewrite <- (take_drop n l) in Hs.
  apply StronglySorted_app in Hs as (Hle & _ & _). apply Hle; [done|].
  assert (r ∈ l) as Hin.
  { unfold l. rewrite order_by_created_at_perm. by apply list_elem_of_filter. }
  rewrite <- (take_drop n l) in Hin. apply elem_of_app in Hin as [|]; done.
Qed.

Lemma select_pending_NoDup n t :
  unique_ids t → NoDup (Queue.ids (Queue.select_pending n t)).
Proof.
  intros Hnd. eapply submseteq_NoDup_ids; [|exact Hnd].
  unfold Queue.ids. apply fmap_submseteq, select_pending_submseteq.
Qed.

Lemma select_pending_ids n t r :
  unique_ids t → r ∈ rows t →
  id r ∈ Queue.ids (Queue.select_pending n t) ↔ r ∈ Queue.select_pending n t.
Proof.
  intros Hnd Hr. split.
  - intros Hid. apply list_elem_of_fmap in Hid as [b [Heq Hb]].
    pose proof (select_pending_elem _ _ _ Hb) as [Hbt _].
    by rewrite (unique_row (rows t) r b Hnd Hr Hbt Heq).
  - apply list_elem_of_fmap_2.
Qed.

Lemma claim_batch n t :
  (Queue.claimBatchForSummarization n t).1 = Queue.select_pending n t.
Proof. unfold Queue.claimBatchForSummarization. by destruct (Queue.select_pending n t). Qed.

Lemma claim_table n t :
  (Queue.claimBatchForSummarization n t).2 =
  Queue.update_where (λ r, id r ∈ Queue.ids (Queue.select_pending n t))
    (Queue.set_status summarizing) t.
Proof.
  unfold Queue.claimBatchForSummarization.
  destruct (Queue.select_pending n t) as [|b l] eqn:Hsel; simpl; [|done].
  unfold Queue.update_where. destruct t as [rs sq]. simpl. f_equal.
  rewrite <- (list_fmap_id rs) at 1. apply list_fmap_ext.
  by intros i r _.
Qed.

Lemma claim_rows n t :
  unique_ids t →
  Forall2 (λ r r', ((r ∈ Queue.select_pending n t) ∧ r' = Queue.set_status summarizing r) ∨
                   ((r ∉ Queue.select_pending n t) ∧ r' = r))
    (rows t) (rows (Queue.claimBatchForSummarization n t).2).
Proof.
  intros Hnd. rewrite claim_table. unfold Queue.update_where. simpl.
  apply Forall2_fmap_r, Forall_Forall2_diag, Forall_forall. intros r Hr.
  pose proof (select_pending_ids n t r Hnd Hr) as Hiff. simpl.
  destruct (decide _); [left|right]; tauto.
Qed.

Lemma claim_none_pending n t :
  (∀ r, r ∈ rows t → status r ≠ pending) →
  Queue.claimBatchForSummarization n t = ([], t).
Proof.
  intros Hnone. unfold Queue.claimBatchForSummarization.
  destruct (Queue.select_pending n t) as [|b l] eqn:Hsel; [done|].
  assert (b ∈ Queue.select_pending n t) as Hb by (rewrite Hsel; left).
  apply select_pending_elem in Hb as [Hb Hp]. by destruct (Hnone b Hb).
Qed.

(** A claim returns pending rows only, so ids that are not pending in the
    table do not come back. *)
Lemma claim_avoids n t (l : list Z) :
  (∀ r, r ∈ rows t → id r ∈ l → status r ≠ pending) →
  disjoint_ids l (Queue.ids (Queue.claimBatchForSummarization n t).1).
Proof.
  intros Hl i Hi Hin. rewrite claim_batch in Hin.
  apply list_elem_of_fmap in Hin as [b [-> Hb]].
  apply select_pending_elem in Hb as [Hb Hp]. by apply (Hl b Hb Hi).
Qed.

Lemma claim_marks_summarizing n t r :
  r ∈ rows (Queue.claimBatchForSummarization n t).2 →
  id r ∈ Queue.ids (Queue.claimBatchForSummarization n t).1 →
  status r = summarizing.
Proof.
  rewrite claim_batch, claim_table. intros Hr Hid.
  apply elem_of_update_where in Hr as [r0 [Hr0 ->]].
  case_decide as Hc; [done|]. by destruct Hc.
Qed.

End ClaimFacts.

(** ** Leases and the retry budget *)

Section LeaseFacts.
Context {P : Type}.
Implicit Types (r : Row P) (t : Table P) (l : list (Row P)) (L : list Z).

Lemma table_ok_update m (c : Row P → Prop) `{!∀ r, Decision (c r)} f t :
  (∀ r, id (f r) = id r) →
  (∀ r, r ∈ rows t → c r → retry_ok m r → retry_ok m (f r)) →
  table_ok m t → table_ok m (Queue.update_where c f t).
Proof.
  intros Hid Hf [Hnd Hall]. split.
  - unfold unique_ids. by rewrite ids_update_where.
  - apply Forall_forall. intros r' Hr'.
    apply elem_of_update_where in Hr' as [r [Hr ->]].
    rewrite Forall_forall in Hall. case_decide; auto.
Qed.

Lemma leased_update L (c : Row P → Prop) `{!∀ r, Decision (c r)} f t :
  (∀ r, id (f r) = id r) →
  (∀ r, r ∈ rows t → c r → id r ∈ L → Queue.active r → Queue.active (f r)) →
  leased L t → leased L (Queue.update_where c f t).
Proof.
  intros Hid Hf Hl i Hi. destruct (Hl i Hi) as [r [Hr [Heq Ha]]].
  exists (if decide (c r) then f r else r). split.
  - apply elem_of_update_where. eauto.
  - case_decide; [|done]. split; [by rewrite Hid|]. apply Hf; subst; auto.
Qed.

Lemma leased_row L t r :
  unique_ids t → leased L t → r ∈ rows t → id r ∈ L → Queue.active r.
Proof.
  intros Hnd Hl Hr Hi. destruct (Hl _ Hi) as [r' [Hr' [Heq Ha]]].
  by rewrite (unique_row (rows t) r r' Hnd Hr Hr').
Qed.

Lemma active_retry m r : retry_ok m r → Queue.active r → retry_count r < m.
Proof.
  unfold retry_ok, Queue.active. intros Hok Ha.
  case_decide as Hf; [|done]. rewrite Hf in Ha. by destruct Ha.
Qed.

Lemma current_retries_row t r :
  unique_ids t → r ∈ rows t → Queue.current_retries (id r) t = retry_count r.
Proof.
  intros Hnd Hr. unfold Queue.current_retries.
  destruct (list_find _ (rows t)) as [[j x]|] eqn:Hfind.
  - apply list_find_Some in Hfind as (Hj & Hid & _).
    apply list_elem_of_lookup_2 in Hj.
    by rewrite (unique_row (rows t) x r Hnd Hj Hr Hid).
  - apply list_find_None in Hfind. rewrite Forall_forall in Hfind.
    by destruct (Hfind r Hr).
Qed.

Lemma retry_ok_failed m r :
  status r = failed → retry_count r = m → retry_ok m r.
Proof. intros Hs Hr. unfold retry_ok. by rewrite decide_True. Qed.

Lemma retry_ok_other m r :
  status r ≠ failed → retry_count r < m → retry_ok m r.
Proof. intros Hs Hr. unfold retry_ok. by rewrite decide_False. Qed.

Lemma markCompleted_lease m L i mid now t :
  lease_ok m (i :: L) t → lease_ok m L (Queue.markCompleted i mid now t).
Proof.
  intros [[Hnd Hall] [HL Hl]]. apply NoDup_cons in HL as [Hi HL].
  split_and!; [|done|].
  - apply table_ok_update; [done| |done].
    intros r Hr <- Hok.
    assert (Queue.active r) as Ha by (eapply leased_row; eauto; left).
    pose proof (active_retry _ _ Hok Ha). by apply retry_ok_other.
  - apply leased_update; [done| |].
    + intros r _ <- Hr. by destruct Hi.
    + intros j Hj. apply Hl. by right.
Qed.

Lemma markFailed_lease m L i msg t :
  lease_ok m (i :: L) t → lease_ok m L (Queue.markFailed m i msg t).
Proof.
  intros [[Hnd Hall] [HL Hl]]. apply NoDup_cons in HL as [Hi HL].
  assert (∀ s, leased L (Queue.update_where (λ r, id r = i)
                           (Queue.set_failure s (Queue.current_retries i t + 1) msg) t)) as Hlease.
  { intros s. apply leased_update; [done| |].
    - intros r _ <- Hr. by destruct Hi.
    - intros j Hj. apply Hl. by right. }
  unfold Queue.markFailed. case_decide as Hmax.
  - split_and!; [|done|done].
    apply table_ok_update; [done| |done].
    intros r Hr <- Hok.
    assert (Queue.active r) as Ha by (eapply leased_row; eauto; left).
    pose proof (active_retry _ _ Hok Ha). rewrite current_retries_row in * by done.
    apply retry_ok_failed; simpl; [done|lia].
  - split_and!; [|done|done].
    apply table_ok_update; [done| |done].
    intros r Hr <- Hok. rewrite current_retries_row in * by done.
    apply retry_ok_other; simpl; [done|lia].
Qed.

Lemma claim_lease m n t :
  table_ok m t →
  lease_ok m (Queue.ids (Queue.claimBatchForSummarization n t).1)
    (Queue.claimBatchForSummarization n t).2.
Proof.
  intros [Hnd Hall]. rewrite claim_batch, claim_table. split_and!.
  - apply table_ok_update; [done| |done].
    intros r Hr Hc Hok. apply select_pending_ids in Hc; [|done..].
    apply select_pending_elem in Hc as [_ Hp].
    apply retry_ok_other; simpl; [done|].
    apply active_retry; [done|by left].
  - by apply select_pending_NoDup.
  - intros i Hi. pose proof Hi as Hi'.
    apply list_elem_of_fmap in Hi as [b [-> Hb]].
    apply select_pending_elem in Hb as [Hb _].
    exists (Queue.set_status summarizing b). split_and!; [|done|by right].
    apply elem_of_update_where. exists b. split; [done|]. by rewrite decide_True.
Qed.

Lemma claim_keeps_lease m n L t :
  lease_ok m L t → lease_ok m L (Queue.claimBatchForSummarization n t).2.
Proof.
  intros [Hok [HL Hl]]. split_and!; [|done|].
  - by apply claim_lease.
  - rewrite claim_table. apply leased_update; [done| |done].
    intros. by right.
Qed.

Lemma release_lease m L (c : Row P → Prop) `{!∀ r, Decision (c r)} t :
  (∀ r, c r → status r = summarizing) →
  lease_ok m L t →
  lease_ok m L (Queue.update_where c (Queue.set_status pending) t).
Proof.
  intros Hc [Hok [HL Hl]]. split_and!; [|done|].
  - apply table_ok_update; [done| |done].
    intros r Hr Hcr Hr_ok. apply retry_ok_other; simpl; [done|].
    apply active_retry; [done|]. right. auto.
  - apply leased_update; [done| |done]. intros. by left.
Qed.

Lemma delete_lease m L o t :
  lease_ok m L t → lease_ok m L (Queue.deleteCompleted o t).2.
Proof.
  intros [[Hnd Hall] [HL Hl]]. unfold Queue.deleteCompleted. simpl.
  split_and!; [split| |]; simpl.
  - unfold unique_ids. simpl. eapply submseteq_NoDup_ids; [|exact Hnd].
    unfold Queue.ids. apply fmap_submseteq, sublist_submseteq, sublist_filter.
  - rewrite Forall_forall in *. intros r Hr.
    apply list_elem_of_filter in Hr as [_ Hr]. auto.
  - done.
  - intros i Hi. destruct (Hl i Hi) as [r [Hr [Heq Ha]]].
    exists r. split_and!; [|done..]. apply list_elem_of_filter. split; [|done].
    intros [Hs _]. destruct Ha as [Ha|Ha]; congruence.
Qed.

Lemma next_id_fresh t r : r ∈ rows t → id r < Queue.next_id t.
Proof.
  unfold Queue.next_id. destruct t as [rs sq]. simpl.
  induction rs as [|x l IH]; simpl; intros Hr.
  - inversion Hr.
  - apply elem_of_cons in Hr as [->|Hr]; [lia|]. specialize (IH Hr). lia.
Qed.

Lemma insert_lease m L (mk : Z → Row P) t :
  0 < m →
  (∀ i, id (mk i) = i ∧ status (mk i) = pending ∧ retry_count (mk i) = 0) →
  lease_ok m L t → lease_ok m L (Queue.insert_row mk t).2.
Proof.
  intros Hm Hmk [[Hnd Hall] [HL Hl]]. unfold Queue.insert_row. simpl.
  destruct (Hmk (Queue.next_id t)) as (Hid & Hs & Hr).
  split_and!; [split| |]; simpl.
  - unfold unique_ids, Queue.ids. simpl. rewrite fmap_app. simpl.
    apply NoDup_app. split_and!; [done| |apply NoDup_singleton].
    intros i Hi Hin. apply list_elem_of_singleton in Hin.
    apply list_elem_of_fmap in Hi as [r [-> Hrin]].
    pose proof (next_id_fresh t r Hrin). lia.
  - apply Forall_app. split; [done|]. apply Forall_singleton.
    apply retry_ok_other; [congruence|lia].
  - done.
  - intros i Hi. destruct (Hl i Hi) as [r [Hrin [Heq Ha]]].
    exists r. split_and!; [|done..]. apply elem_of_app. by left.
Qed.

Lemma lease_ok_perm m L L' t : L ≡ₚ L' → lease_ok m L t → lease_ok m L' t.
Proof.
  intros HL (Hok & Hnd & Hl). split_and!; [done|by rewrite <- HL|].
  intros i Hi. apply Hl. by rewrite HL.
Qed.

Lemma lease_ok_table m L t : lease_ok m L t → table_ok m t.
Proof. by intros [? _]. Qed.

Lemma table_ok_lease m t : table_ok m t → lease_ok m [] t.
Proof.
  intros Hok. split_and!; [done|constructor|]. intros i Hi. inversion Hi.
Qed.

Lemma lease_ok_drop m L L' t : lease_ok m (L ++ L') t → lease_ok m L' t.
Proof.
  intros (Hok & Hnd & Hl). apply NoDup_app in Hnd as (_ & _ & Hnd).
  split_and!; [done..|]. intros i Hi. apply Hl, elem_of_app. by right.
Qed.

Lemma failed_rows_spent m t r :
  table_ok m t → r ∈ rows t → status r = failed → retry_count r = m.
Proof.
  intros [_ Hall] Hr Hs. rewrite Forall_forall in Hall.
  specialize (Hall r Hr). unfold retry_ok in Hall. by rewrite decide_True in Hall.
Qed.

Lemma count_update_le (Q : Row P → Prop) `{!∀ r, Decision (Q r)}
    (g : Row P → Row P) l :
  (∀ r, r ∈ l → Q (g r) → Q r) →
  (length (filter Q (g <$> l)) ≤ length (filter Q l))%nat.
Proof.
  induction l as [|x l IH]; intros Hg; [done|].
  rewrite fmap_cons, !filter_cons.
  assert (length (filter Q (g <$> l)) ≤ length (filter Q l))%nat as IH'.
  { apply IH. intros r Hr. apply Hg. by right. }
  destruct (decide (Q (g x))) as [Hq|Hq]; destruct (decide (Q x)) as [Hx|Hx];
    simpl; try lia.
  destruct Hx. apply Hg; [left|done].
Qed.

Lemma one_active_update (c : Row P → Prop) `{!∀ r, Decision (c r)} f t :
  (∀ r, r ∈ rows t → c r →
        session_db_id (f r) = session_db_id r ∧ (Queue.active (f r) → Queue.active r)) →
  one_active_per_session t →
  one_active_per_session (Queue.update_where c f t).
Proof.
  intros Hf Hone sid. specialize (Hone sid).
  unfold Queue.update_where. simpl.
  etrans; [|exact Hone]. apply count_update_le.
  intros r Hr. case_decide as Hc; [|done].
  destruct (Hf r Hr Hc) as [Hs Ha]. unfold active_in_session.
  rewrite Hs. tauto.
Qed.

Lemma one_active_insert (mk : Z → Row P) t :
  (∀ r, r ∈ rows t → ¬ active_in_session (session_db_id (mk (Queue.next_id t))) r) →
  one_active_per_session t →
  one_active_per_session (Queue.insert_row mk t).2.
Proof.
  intros Hfree Hone sid. specialize (Hone sid). unfold Queue.insert_row. simpl.
  rewrite filter_app, length_app, filter_cons, filter_nil.
  destruct (decide (active_in_session sid (mk (Queue.next_id t)))) as [[Hs _]|_];
    simpl; [|lia].
  assert (filter (active_in_session sid) (rows t) = []) as ->; [|simpl; lia].
  apply nil_length_inv. destruct (filter _ (rows t)) as [|r l] eqn:Hfil; [done|].
  assert (r ∈ filter (active_in_session sid) (rows t)) as Hr by (rewrite Hfil; left).
  apply list_elem_of_filter in Hr as [Ha Hr]. destruct (Hfree r Hr). by rewrite Hs.
Qed.

End LeaseFacts.

(** ** The event worker keeps its leases *)

Section EventWorkerFacts.
Import RawToolEventStore RawEventSummarizer.
Implicit Types (w : Worker) (s : RawToolEventStore.t).

Lemma add_key_concat {A} k (v : list A) (o : list (Z * list A)) :
  concat ((add_key k v o).*2) ≡ₚ v ++ concat (o.*2).
Proof.
  induction o as [|[k' v'] o IH]; simpl; [done|].
  case_decide; simpl; [done|]. rewrite IH.
  rewrite !(assoc (++)). by rewrite (comm (++) v').
Qed.

Lemma push_to_key_concat key event acc :
  key ∈ acc.*1 →
  concat ((push_to_key key event acc).*2) ≡ₚ concat (acc.*2) ++ [event].
Proof.
  induction acc as [|[k es] acc IH]; simpl; intros Hin.
  - inversion Hin.
  - case_decide as Hk; simpl.
    + by rewrite <- !(assoc (++)), (comm (++) [event]).
    + apply elem_of_cons in Hin as [Hin|Hin]; [congruence|].
      rewrite IH by done. by rewrite (assoc (++)).
Qed.

Lemma push_event_concat acc event :
  concat ((push_event acc event).*2) ≡ₚ concat (acc.*2) ++ [event].
Proof.
  unfold push_event. case_decide.
  - by apply push_to_key_concat.
  - rewrite add_key_concat. apply (comm (++)).
Qed.

Lemma groupBySession_concat events :
  concat ((groupBySession events).*2) ≡ₚ events.
Proof.
  unfold groupBySession.
  assert (∀ acc, concat ((foldl push_event acc events).*2) ≡ₚ concat (acc.*2) ++ events) as H.
  { induction events as [|e es IH]; intros acc; simpl.
    - by rewrite (right_id [] (++)).
    - rewrite IH, push_event_concat. by rewrite <- (assoc (++)). }
  by rewrite H.
Qed.

Lemma complete_events_lease m observationIds now i events L s :
  lease_ok m (Queue.ids events ++ L) (db s) →
  lease_ok m L (db (complete_events observationIds now i events s)) ∧
  maxRetries (complete_events observationIds now i events s) = maxRetries s.
Proof.
  revert i s. induction events as [|e es IH]; intros i s Hok; simpl in *; [done|].
  apply markCompleted_lease with (mid := default 0 (js_index observationIds
    (Z.min i (Z.of_nat (length observationIds) - 1)))) (now := now) in Hok.
  destruct (IH (i + 1) (markCompleted (id e)
    (default 0 (js_index observationIds (Z.min i (Z.of_nat (length observationIds) - 1))))
    now s) Hok) as [H1 H2].
  split; [exact H1|]. by rewrite H2.
Qed.

Lemma complete_with_zero_lease m now events L s :
  lease_ok m (Queue.ids events ++ L) (db s) →
  lease_ok m L (db (foldl (λ s' (event : RawToolEvent), markCompleted (id event) 0 now s') s events)) ∧
  maxRetries (foldl (λ s' (event : RawToolEvent), markCompleted (id event) 0 now s') s events) = maxRetries s.
Proof.
  revert s. induction events as [|e es IH]; intros s Hok; simpl in *; [done|].
  apply markCompleted_lease with (mid := 0) (now := now) in Hok.
  destruct (IH (markCompleted (id e) 0 now s) Hok) as [H1 H2].
  split; [exact H1|]. by rewrite H2.
Qed.

Lemma fail_events_lease m message events L s :
  maxRetries s = m →
  lease_ok m (Queue.ids events ++ L) (db s) →
  lease_ok m L (db (foldl (λ s' (event : RawToolEvent), markFailed (id event) message s') s events)) ∧
  maxRetries (foldl (λ s' (event : RawToolEvent), markFailed (id event) message s') s events) = m.
Proof.
  revert s. induction events as [|e es IH]; intros s Hm Hok; simpl in *; [done|].
  apply markFailed_lease with (msg := message) in Hok.
  apply (IH (markFailed (id e) message s)); [done|].
  unfold markFailed. simpl. by rewrite Hm.
Qed.

Lemma try_summarize_lease m now a sessionDbId events L s s' :
  lease_ok m (Queue.ids events ++ L) (db s) →
  try_summarize now a sessionDbId events s = inr s' →
  lease_ok m L (db s') ∧ maxRetries s' = maxRetries s.
Proof.
  intros Hok. unfold try_summarize.
  destruct (getSessionById a) as [rec|]; [|done].
  destruct (string_or_null _); [|done].
  destruct (callLLM a) as [?|[response tokens]]; [done|].
  destruct events as [|e es]; [done|].
  case_decide.
  - intros [= <-]. exact (complete_with_zero_lease m now (e :: es) L s Hok).
  - destruct (storeObservations a) as [?|observationIds]; [done|].
    intros [= <-]. exact (complete_events_lease m observationIds now 0 (e :: es) L s Hok).
Qed.

Lemma summarizeSessionEvents_lease m now a sessionDbId events L w :
  maxRetries (rawStore w) = m →
  lease_ok m (Queue.ids events ++ L) (db (rawStore w)) →
  lease_ok m L (db (rawStore (summarizeSessionEvents now a sessionDbId events w))) ∧
  maxRetries (rawStore (summarizeSessionEvents now a sessionDbId events w)) = m.
Proof.
  intros Hm Hok. unfold summarizeSessionEvents.
  destruct (try_summarize now a sessionDbId events (rawStore w)) as [message|s'] eqn:Htry; simpl.
  - by apply fail_events_lease.
  - destruct (try_summarize_lease _ _ _ _ _ _ _ _ Hok Htry) as [H1 H2].
    split; [done|congruence].
Qed.

Lemma processBatch_ok m now w :
  event_worker_ok m w → event_worker_ok m (processBatch now w).
Proof.
  intros [Hm Hok]. unfold processBatch. destruct (isProcessing w); [done|].
  set (w2 := if decide _ then _ else _).
  assert (maxRetries (rawStore w2) = m ∧ table_ok m (db (rawStore w2))) as [Hm2 Hok2].
  { unfold w2. case_decide; simpl.
    - unfold cleanupCompletedEvents, deleteCompleted. simpl. split; [done|].
      eapply lease_ok_table, delete_lease, table_ok_lease, lease_ok_table, Hok.
    - split; [done|]. eapply lease_ok_table, Hok. }
  unfold claimBatchForSummarization.
  pose proof (claim_lease m (batchSize w2) (db (rawStore w2)) Hok2) as Hclaim.
  destruct (Queue.claimBatchForSummarization (batchSize w2) (db (rawStore w2)))
    as [batch d] eqn:Hc. simpl in Hclaim.
  destruct batch as [|b batch]; (split; [done|]); unfold events_in_flight; simpl.
  - exact Hclaim.
  - eapply lease_ok_perm; [|exact Hclaim].
    unfold Queue.ids. by rewrite groupBySession_concat.
Qed.

Lemma resume_ok m now a w :
  event_worker_ok m w → event_worker_ok m (resume now a w).
Proof.
  intros [Hm Hok]. unfold resume.
  destruct (suspended w) as [|[sessionDbId events] rest] eqn:Hs; [by split|].
  unfold events_in_flight in Hok. rewrite Hs in Hok. simpl in Hok.
  unfold Queue.ids in Hok. rewrite fmap_app in Hok.
  destruct (summarizeSessionEvents_lease m now a sessionDbId events _ w Hm Hok) as [H1 H2].
  destruct rest as [|g rest]; by split.
Qed.

Lemma event_step_ok m w e :
  0 < m → event_worker_ok m w → event_worker_ok m (step w e).
Proof.
  intros Hpos Hw. destruct e as [now sid csid data|now| |now|now a|]; simpl.
  - destruct Hw as [Hm Hok]. split; [done|].
    unfold events_in_flight, insertRaw. simpl. by apply insert_lease.
  - unfold start. destruct (interval w); [done|].
    destruct Hw as [Hm Hok]. split; [done|]. simpl.
    apply release_lease; [|done]. by intros r [? _].
  - done.
  - by apply processBatch_ok.
  - by apply resume_ok.
  - destruct Hw as [Hm Hok]. split; [done|].
    unfold events_in_flight. simpl. by eapply table_ok_lease, lease_ok_table.
Qed.

Lemma event_run_ok m w es :
  0 < m → event_worker_ok m w → event_worker_ok m (run w es).
Proof.
  intros Hpos. unfold run. revert w.
  induction es as [|e es IH]; intros w Hw; simpl; [done|].
  by apply IH, event_step_ok.
Qed.

End EventWorkerFacts.

(** ** The summary worker keeps its leases, and the intake route keeps one
       active request per session *)

Section SummaryWorkerFacts.
Import RawSummaryRequestStore RawSummarySummarizer.
Implicit Types (w : Worker) (s : RawSummaryRequestStore.t).

Lemma try_summarize_request_lease m now a (request : RawSummaryRequest) L s s' :
  lease_ok m (id request :: L) (db s) →
  try_summarize now a request s = inr s' →
  lease_ok m L (db s') ∧ maxRetries s' = maxRetries s.
Proof.
  intros Hok. unfold try_summarize.
  destruct (callLLM a) as [?|[response tokens]]; [done|].
  destruct (parseSummary a); [|done].
  destruct (getSessionById a ≫= _); [|done].
  destruct (storeObservations a) as [?|summaryId]; [done|].
  intros [= <-]. split; [|done]. simpl. by apply markCompleted_lease.
Qed.

Lemma summarizeRequest_lease m now a (request : RawSummaryRequest) L w :
  maxRetries (rawStore w) = m →
  lease_ok m (id request :: L) (db (rawStore w)) →
  lease_ok m L (db (rawStore (summarizeRequest now a request w))) ∧
  maxRetries (rawStore (summarizeRequest now a request w)) = m.
Proof.
  intros Hm Hok. unfold summarizeRequest.
  destruct (try_summarize now a request (rawStore w)) as [message|s'] eqn:Htry; simpl.
  - split; [|done]. rewrite Hm. by apply markFailed_lease.
  - destruct (try_summarize_request_lease _ _ _ _ _ _ _ Hok Htry) as [H1 H2].
    split; [done|congruence].
Qed.

Lemma stale_check_lease m L counter s :
  lease_ok m L (db s) →
  lease_ok m L (db (stale_check counter s)) ∧
  maxRetries (stale_check counter s) = maxRetries s.
Proof.
  intros Hok. unfold stale_check. case_decide; [|done]. simpl.
  split; [|done]. by apply release_lease.
Qed.

Lemma summary_processBatch_ok m w :
  summary_worker_ok m w → summary_worker_ok m (processBatch w).
Proof.
  intros [Hm Hok]. unfold processBatch. destruct (isProcessing w); [done|].
  destruct (stale_check_lease m _ (batchCounter w + 1) (rawStore w) Hok) as [Hok1 Hm1].
  unfold claimBatchForSummarization.
  pose proof (claim_lease m (batchSize w) _ (lease_ok_table _ _ _ Hok1)) as Hclaim.
  destruct (Queue.claimBatchForSummarization (batchSize w) _) as [batch d] eqn:Hc.
  simpl in Hclaim.
  destruct batch as [|b batch]; (split; [simpl; congruence|]);
    unfold requests_in_flight; simpl; exact Hclaim.
Qed.

Lemma summary_resume_ok m now a w :
  summary_worker_ok m w → summary_worker_ok m (resume now a w).
Proof.
  intros [Hm Hok]. unfold resume.
  destruct (suspended w) as [|request rest] eqn:Hs; [by split|].
  unfold requests_in_flight in Hok. rewrite Hs in Hok. simpl in Hok.
  destruct (summarizeRequest_lease m now a request _ w Hm Hok) as [H1 H2].
  destruct rest as [|g rest]; by split.
Qed.

Lemma summary_insert_ok m now sid csid data w :
  0 < m → summary_worker_ok m w →
  summary_worker_ok m (with_store (insertRaw sid csid data now (rawStore w)).2 w).
Proof.
  intros Hpos [Hm Hok]. split; [done|].
  unfold requests_in_flight, insertRaw. simpl. by apply insert_lease.
Qed.

Lemma summary_step_ok m w e :
  0 < m → summary_worker_ok m w → summary_worker_ok m (step w e).
Proof.
  intros Hpos Hw. destruct e as [now sid csid data|now sid csid data| | | |now a|]; simpl.
  - by apply summary_insert_ok.
  - unfold postSummary. destruct (hasPendingForSession sid (rawStore w)).
    + by destruct w.
    + pose proof (summary_insert_ok m now sid csid data w Hpos Hw) as H.
      by destruct (insertRaw sid csid data now (rawStore w)).
  - unfold start. destruct (interval w); [done|].
    destruct Hw as [Hm Hok]. split; [done|]. simpl. by apply release_lease.
  - done.
  - by apply summary_processBatch_ok.
  - by apply summary_resume_ok.
  - destruct Hw as [Hm Hok]. split; [done|].
    unfold requests_in_flight. simpl. by eapply table_ok_lease, lease_ok_table.
Qed.

Lemma summary_run_ok m w es :
  0 < m → summary_worker_ok m w → summary_worker_ok m (run w es).
Proof.
  intros Hpos. unfold run. revert w.
  induction es as [|e es IH]; intros w Hw; simpl; [done|].
  by apply IH, summary_step_ok.
Qed.

Lemma hasPendingForSession_false sid s r :
  hasPendingForSession sid s = false → r ∈ rows (db s) → ¬ active_in_session sid r.
Proof.
  unfold hasPendingForSession, Queue.changes. intros Hf Hr Ha.
  apply bool_decide_eq_false in Hf.
  assert (r ∈ filter (λ r, session_db_id r = sid ∧ Queue.active r) (rows (db s))) as Hin.
  { by apply list_elem_of_filter. }
  destruct (filter _ (rows (db s))); [inversion Hin|]. simpl in Hf. lia.
Qed.

Lemma hasPendingForSession_found sid s :
  hasPendingForSession sid s = true →
  ∃ r, r ∈ rows (db s) ∧ active_in_session sid r.
Proof.
  unfold hasPendingForSession, Queue.changes. intros Ht.
  apply bool_decide_eq_true in Ht.
  remember (filter _ (rows (db s))) as l eqn:Hl.
  destruct l as [|r l]; [simpl in Ht; lia|].
  assert (r ∈ r :: l) as Hr by left. rewrite Hl in Hr.
  apply list_elem_of_filter in Hr as [Ha Hr]. by exists r.
Qed.

Lemma hasPendingForSession_true sid s r :
  r ∈ rows (db s) → active_in_session sid r → hasPendingForSession sid s = true.
Proof.
  intros Hr Ha. destruct (hasPendingForSession sid s) eqn:Hf; [done|].
  by destruct (hasPendingForSession_false sid s r Hf Hr).
Qed.

Lemma claim_one_active n (t : Table Columns) :
  unique_ids t → one_active_per_session t →
  one_active_per_session (Queue.claimBatchForSummarization n t).2.
Proof.
  intros Hnd Hone. rewrite claim_table. apply one_active_update; [|done].
  intros r Hr Hc. split; [done|]. intros _.
  apply select_pending_ids in Hc; [|done..].
  apply select_pending_elem in Hc as [_ Hp]. by left.
Qed.

Lemma release_one_active (t : Table Columns) :
  one_active_per_session t →
  one_active_per_session
    (Queue.update_where (λ r, status r = summarizing) (Queue.set_status pending) t).
Proof.
  intros Hone. apply one_active_update; [|done].
  intros r Hr Hc. split; [done|]. intros _. by right.
Qed.

Lemma summarizeRequest_one_active m now a (request : RawSummaryRequest) L w :
  maxRetries (rawStore w) = m →
  lease_ok m (id request :: L) (db (rawStore w)) →
  one_active_per_session (db (rawStore w)) →
  one_active_per_session (db (rawStore (summarizeRequest now a request w))).
Proof.
  intros Hm (Hok & Hnd & Hl) Hone. unfold summarizeRequest.
  destruct (try_summarize now a request (rawStore w)) as [message|s'] eqn:Htry; simpl.
  - unfold Queue.markFailed. case_decide.
    + apply one_active_update; [|done]. intros r Hr Hc. split; [done|].
      simpl. unfold Queue.active. simpl. intros [|]; congruence.
    + apply one_active_update; [|done]. intros r Hr Hc. split; [done|].
      intros _. destruct Hok as [Hu _]. eapply leased_row; eauto.
      rewrite Hc. left.
  - revert Htry. unfold try_summarize.
    destruct (callLLM a) as [?|[response tokens]]; [done|].
    destruct (parseSummary a); [|done].
    destruct (getSessionById a ≫= _); [|done].
    destruct (storeObservations a) as [?|summaryId]; [done|].
    intros [= <-]. simpl. apply one_active_update; [|done].
    intros r Hr Hc. split; [done|].
    simpl. unfold Queue.active. simpl. intros [|]; congruence.
Qed.

Lemma summary_step_one_active m w e :
  ¬ is_bare_insert e →
  summary_worker_ok m w →
  one_active_per_session (db (rawStore w)) →
  one_active_per_session (db (rawStore (step w e))).
Proof.
  intros Hpost [Hm Hok] Hone.
  destruct e as [now sid csid data|now sid csid data| | | |now a|]; simpl; try done.
  - unfold postSummary.
    destruct (hasPendingForSession sid (rawStore w)) eqn:Hguard; [done|].
    unfold insertRaw. simpl. apply one_active_insert; [|done].
    intros r Hr. simpl. by eapply hasPendingForSession_false.
  - unfold start. destruct (interval w); [done|]. simpl.
    by apply release_one_active.
  - unfold processBatch. destruct (isProcessing w); [done|].
    destruct (stale_check_lease m _ (batchCounter w + 1) (rawStore w) Hok) as [Hok1 Hm1].
    assert (one_active_per_session (db (stale_check (batchCounter w + 1) (rawStore w)))) as Hone1.
    { unfold stale_check. case_decide; [|done]. simpl. by apply release_one_active. }
    unfold claimBatchForSummarization.
    pose proof (claim_one_active (batchSize w) _ (proj1 (lease_ok_table _ _ _ Hok1)) Hone1) as Hc.
    destruct (Queue.claimBatchForSummarization (batchSize w) _) as [batch d].
    simpl in Hc. by destruct batch.
  - unfold resume. destruct (suspended w) as [|request rest] eqn:Hs; [done|].
    unfold requests_in_flight in Hok. rewrite Hs in Hok. simpl in Hok.
    pose proof (summarizeRequest_one_active m now a request _ w Hm Hok Hone).
    by destruct rest.
Qed.

Lemma summary_run_one_active m w es :
  0 < m →
  Forall (λ e, ¬ is_bare_insert e) es →
  summary_worker_ok m w →
  one_active_per_session (db (rawStore w)) →
  one_active_per_session (db (rawStore (run w es))).
Proof.
  intros Hpos. unfold run. revert w.
  induction es as [|e es IH]; intros w Hes Hw Hone; simpl; [done|].
  apply Forall_cons in Hes as [He Hes].
  apply IH; [done|by apply summary_step_ok|by eapply summary_step_one_active].
Qed.

End SummaryWorkerFacts.

(** ** Pointwise descriptions of the UPDATE statements *)

Section UpdateFacts.
Context {P : Type}.
Implicit Types (r : Row P) (t : Table P).

Lemma update_where_Forall2 (c : Row P → Prop) `{!∀ r, Decision (c r)} f t
    (Q : Row P → Row P → Prop) :
  (∀ r, r ∈ rows t → Q r (if decide (c r) then f r else r)) →
  Forall2 Q (rows t) (rows (Queue.update_where c f t)).
Proof.
  intros HQ. unfold Queue.update_where. simpl.
  by apply Forall2_fmap_r, Forall_Forall2_diag, Forall_forall.
Qed.

Lemma same_but_status_refl r : same_but_status r r.
Proof. by repeat split. Qed.

Lemma same_but_status_set s r : same_but_status r (Queue.set_status s r).
Proof. by repeat split. Qed.

Lemma update_where_reverted (c : Row P → Prop) `{!∀ r, Decision (c r)} t :
  reverted_to_pending c t (Queue.update_where c (Queue.set_status pending) t).
Proof.
  split; [|done]. apply update_where_Forall2. intros r _. case_decide.
  - split; [apply same_but_status_set|]. by left.
  - split; [apply same_but_status_refl|]. by right.
Qed.

Lemma markFailed_recorded m i msg t :
  unique_ids t → failure_recorded m i msg t (Queue.markFailed m i msg t).
Proof.
  intros Hnd.
  assert (∀ r, r ∈ rows t → id r = i → Queue.current_retries i t = retry_count r) as Hcur.
  { intros r Hr <-. by apply current_retries_row. }
  unfold Queue.markFailed. case_decide as Hmax; (split; [|done]);
    apply update_where_Forall2; intros r Hr; case_decide as Hi; try done;
    rewrite (Hcur r Hr Hi) in *; simpl; split_and!; try done.
  - by rewrite decide_True.
  - by rewrite decide_False.
Qed.

Lemma claim_flipped n t :
  unique_ids t →
  flipped_to_summarizing (Queue.claimBatchForSummarization n t).1 t
    (Queue.claimBatchForSummarization n t).2.
Proof.
  intros Hnd. split.
  - rewrite claim_batch. by apply claim_rows.
  - by rewrite claim_table.
Qed.

Lemma claim_oldest n t :
  oldest_pending n t (Queue.claimBatchForSummarization n t).1.
Proof.
  rewrite claim_batch. split_and!.
  - apply select_pending_elem.
  - apply select_pending_length.
  - apply select_pending_sorted.
  - intros r b. apply select_pending_oldest.
Qed.

End UpdateFacts.

(** ** The tool-event queue *)

Section ToolEventStoreFacts.
Import RawToolEventStore.
Implicit Types (s : RawToolEventStore.t).

Lemma store_claim_batch n s :
  (claimBatchForSummarization n s).1 = (Queue.claimBatchForSummarization n (db s)).1.
Proof.
  unfold claimBatchForSummarization.
  by destruct (Queue.claimBatchForSummarization n (db s)).
Qed.

Lemma store_claim_db n s :
  (claimBatchForSummarization n s).2 =
  with_db (Queue.claimBatchForSummarization n (db s)).2 s.
Proof.
  unfold claimBatchForSummarization.
  by destruct (Queue.claimBatchForSummarization n (db s)).
Qed.

End ToolEventStoreFacts.

(** C1, as amended.  On the tool-event queue, [claimBatchForSummarization
    limit] selects, in one transaction, up to [limit] rows with status
    pending, oldest [created_at_epoch] first, flips exactly those rows to
    summarizing, and returns them; it returns the empty sequence (and leaves
    the queue alone) when no row is pending.  A later claim returns none of
    these ids as long as their rows have not been put back to pending; in
    particular two claims that run back to back, as two concurrent calls do
    under the transaction, return disjoint id sets. *)
Theorem claimBatchForSummarization_leases (limit : nat) (s : RawToolEventStore.t) :
  unique_ids (RawToolEventStore.db s) →
  let batch := (RawToolEventStore.claimBatchForSummarization limit s).1 in
  let s' := (RawToolEventStore.claimBatchForSummarization limit s).2 in
  oldest_pending limit (RawToolEventStore.db s) batch ∧
  flipped_to_summarizing batch (RawToolEventStore.db s) (RawToolEventStore.db s') ∧
  ((∀ r, r ∈ rows (RawToolEventStore.db s) → status r ≠ pending) →
     batch = [] ∧ s' = s) ∧
  (∀ limit2,
     disjoint_ids (Queue.ids batch)
       (Queue.ids (RawToolEventStore.claimBatchForSummarization limit2 s').1)) ∧
  (∀ limit2 s2,
     (∀ r, r ∈ rows (RawToolEventStore.db s2) → id r ∈ Queue.ids batch →
           status r ≠ pending) →
     disjoint_ids (Queue.ids batch)
       (Queue.ids (RawToolEventStore.claimBatchForSummarization limit2 s2).1)).
Proof.
  intros Hnd batch s'. unfold batch, s'.
  rewrite store_claim_batch, store_claim_db. simpl. split_and!.
  - apply claim_oldest.
  - by apply claim_flipped.
  - intros Hnone. rewrite claim_none_pending by done. by destruct s.
  - intros limit2. rewrite store_claim_batch. simpl. apply claim_avoids.
    intros r Hr Hid Hp.
    by rewrite (claim_marks_summarizing _ _ _ Hr Hid) in Hp.
  - intros limit2 s2 Hs2. rewrite store_claim_batch. by apply claim_avoids.
Qed.

(** On the queue of three pending events: a claim of two takes the two
    oldest, the next claim takes the third. *)
Lemma claimBatchForSummarization_leases_witness :
  unique_ids (RawToolEventStore.db Scenario.three_pending) ∧
  Queue.ids (RawToolEventStore.claimBatchForSummarization 2 Scenario.three_pending).1 = [2; 3] ∧
  Queue.ids (RawToolEventStore.claimBatchForSummarization 5
               (RawToolEventStore.claimBatchForSummarization 2 Scenario.three_pending).2).1
    = [1] ∧
  oldest_pending 2 (RawToolEventStore.db Scenario.three_pending)
    (RawToolEventStore.claimBatchForSummarization 2 Scenario.three_pending).1 ∧
  disjoint_ids
    (Queue.ids (RawToolEventStore.claimBatchForSummarization 2 Scenario.three_pending).1)
    (Queue.ids (RawToolEventStore.claimBatchForSummarization 5
                  (RawToolEventStore.claimBatchForSummarization 2 Scenario.three_pending).2).1).
Proof.
  assert (unique_ids (RawToolEventStore.db Scenario.three_pending)) as Hnd.
  { apply (bool_decide_eq_true_1 _). vm_compute. reflexivity. }
  destruct (claimBatchForSummarization_leases 2 Scenario.three_pending Hnd)
    as (Holdest & _ & _ & Hnext & _).
  split_and!; [exact Hnd|vm_compute; reflexivity..|exact Holdest|exact (Hnext 5%nat)].
Defined.

(** C1, as stated, fails: a row that was claimed, failed below the retry
    budget and is pending again comes back in the next claim. *)
Lemma claimBatchForSummarization_reclaims_after_failure :
  Queue.ids Scenario.first_claim.1 = [1] ∧
  Queue.ids Scenario.second_claim.1 = [1] ∧
  ¬ disjoint_ids (Queue.ids Scenario.first_claim.1) (Queue.ids Scenario.second_claim.1).
Proof.
  assert (Queue.ids Scenario.first_claim.1 = [1]) as H1 by (vm_compute; reflexivity).
  assert (Queue.ids Scenario.second_claim.1 = [1]) as H2 by (vm_compute; reflexivity).
  split_and!; [done..|]. rewrite H1, H2. intros Hd. apply (Hd 1); left.
Qed.

(** C4.  For every threshold and every state of the tool-event queue,
    [releaseStuckEvents threshold] reverts to pending exactly the rows whose
    status is summarizing and whose [created_at_epoch] is below
    [now - threshold], leaves every other field of every row unchanged
    ([retry_count] among them), and returns the number of rows reverted. *)
Theorem releaseStuckEvents_reverts_exactly (olderThanMs : option Z) (now : Z)
    (s : RawToolEventStore.t) :
  let threshold := now - default 300000 olderThanMs in
  let s' := (RawToolEventStore.releaseStuckEvents olderThanMs now s).2 in
  reverted_to_pending
    (λ r, status r = summarizing ∧ created_at_epoch r < threshold)
    (RawToolEventStore.db s) (RawToolEventStore.db s') ∧
  Forall2 (λ r r', retry_count r' = retry_count r)
    (rows (RawToolEventStore.db s)) (rows (RawToolEventStore.db s')) ∧
  RawToolEventStore.maxRetries s' = RawToolEventStore.maxRetries s ∧
  (RawToolEventStore.releaseStuckEvents olderThanMs now s).1 =
    Z.of_nat (length (filter (λ r, status r = summarizing ∧ created_at_epoch r < threshold)
                        (rows (RawToolEventStore.db s)))).
Proof.
  intros threshold s'. split_and!; [| |done|done].
  - apply (update_where_reverted (RawToolEventStore.stuck threshold)).
  - apply (update_where_Forall2 (RawToolEventStore.stuck threshold)).
    intros r _. by case_decide.
Qed.

(** ** Start-up and the periodic work of the two workers *)

Lemma set_status_same {P} (r : Row P) s : status r = s → Queue.set_status s r = r.
Proof. intros <-. by destruct r. Qed.

(** A tick of the event worker does not touch a row that is summarizing. *)
Lemma event_tick_keeps_summarizing now (w : RawEventSummarizer.Worker) r :
  r ∈ rows (RawToolEventStore.db (RawEventSummarizer.rawStore w)) →
  status r = summarizing →
  r ∈ rows (RawToolEventStore.db
              (RawEventSummarizer.rawStore (RawEventSummarizer.processBatch now w))).
Proof.
  intros Hr Hs. unfold RawEventSummarizer.processBatch.
  destruct (RawEventSummarizer.isProcessing w); [done|].
  set (w2 := if decide _ then _ else _).
  assert (r ∈ rows (RawToolEventStore.db (RawEventSummarizer.rawStore w2))) as Hr2.
  { unfold w2. case_decide; [|done]. simpl.
    apply list_elem_of_filter. split; [|done]. intros [Hc _]. congruence. }
  pose proof (store_claim_db (RawEventSummarizer.batchSize w2)
                (RawEventSummarizer.rawStore w2)) as Hdb.
  destruct (RawToolEventStore.claimBatchForSummarization _ _) as [batch s'].
  simpl in Hdb. subst s'.
  assert (r ∈ rows (Queue.claimBatchForSummarization (RawEventSummarizer.batchSize w2)
                      (RawToolEventStore.db (RawEventSummarizer.rawStore w2))).2) as Hin.
  { rewrite claim_table. apply elem_of_update_where. exists r. split; [done|].
    case_decide; [|done]. by rewrite set_status_same. }
  by destruct batch.
Qed.

(** C5, evaluated on the code.  The event worker's [start] calls
    [releaseStuckEvents] without an argument, so with the five-minute default:
    an event that the previous run claimed one minute before the restart is
    still summarizing after [start]. *)
Theorem start_releases_with_default_threshold :
  status <$> rows (RawToolEventStore.db (RawEventSummarizer.rawStore Scenario.crashed_worker))
    = [summarizing] ∧
  RawEventSummarizer.interval Scenario.crashed_worker = false ∧
  RawEventSummarizer.interval Scenario.restarted_worker = true ∧
  status <$> rows (RawToolEventStore.db (RawEventSummarizer.rawStore Scenario.restarted_worker))
    = [summarizing] ∧
  RawEventSummarizer.rawStore Scenario.restarted_worker =
    (RawToolEventStore.releaseStuckEvents (Some 300000) 61000
       (RawEventSummarizer.rawStore Scenario.crashed_worker)).2 ∧
  status <$> rows (RawToolEventStore.db
      (RawToolEventStore.releaseStuckEvents (Some 0) 61000
         (RawEventSummarizer.rawStore Scenario.crashed_worker)).2)
    = [pending].
Proof. vm_compute. by repeat split. Qed.

(** C6, evaluated on the code.  The event worker's tick holds no release of
    stuck rows: after the thirtieth tick the event claimed by the run that
    crashed, now more than five minutes old, is still summarizing and no tick
    is working on it. *)
Theorem thirtieth_tick_releases_nothing :
  RawEventSummarizer.batchCounter Scenario.after_thirty_ticks = 30 ∧
  (id <$> rows (RawToolEventStore.db (RawEventSummarizer.rawStore Scenario.after_thirty_ticks)),
   status <$> rows (RawToolEventStore.db (RawEventSummarizer.rawStore Scenario.after_thirty_ticks)),
   created_at_epoch <$> rows (RawToolEventStore.db (RawEventSummarizer.rawStore Scenario.after_thirty_ticks)))
    = ([1], [summarizing], [1000]) ∧
  last Scenario.thirty_ticks = Some (RawEventSummarizer.Tick 361000) ∧
  RawEventSummarizer.suspended Scenario.after_thirty_ticks = [] ∧
  RawEventSummarizer.isProcessing Scenario.after_thirty_ticks = false.
Proof. vm_compute. by repeat split. Qed.

(** C10.  On the summary-request queue [releaseStuckRequests] reverts every
    summarizing row to pending, whatever its age, leaves all other fields
    unchanged and returns the number of rows reverted; the summary worker
    calls it when it starts and, before it claims, on every tick whose
    counter is a multiple of 30. *)
Theorem releaseStuckRequests_unconditional :
  (∀ s : RawSummaryRequestStore.t,
     let s' := (RawSummaryRequestStore.releaseStuckRequests s).2 in
     reverted_to_pending (λ r, status r = summarizing)
       (RawSummaryRequestStore.db s) (RawSummaryRequestStore.db s') ∧
     RawSummaryRequestStore.maxRetries s' = RawSummaryRequestStore.maxRetries s ∧
     (RawSummaryRequestStore.releaseStuckRequests s).1 =
       Z.of_nat (length (filter (λ r, status r = summarizing)
                           (rows (RawSummaryRequestStore.db s))))) ∧
  (∀ w : RawSummarySummarizer.Worker,
     RawSummarySummarizer.interval w = false →
     RawSummarySummarizer.rawStore (RawSummarySummarizer.start w) =
       (RawSummaryRequestStore.releaseStuckRequests (RawSummarySummarizer.rawStore w)).2) ∧
  (∀ w : RawSummarySummarizer.Worker,
     RawSummarySummarizer.isProcessing w = false →
     Z.rem (RawSummarySummarizer.batchCounter w + 1) 30 = 0 →
     let released :=
       (RawSummaryRequestStore.releaseStuckRequests (RawSummarySummarizer.rawStore w)).2 in
     let claim :=
       RawSummaryRequestStore.claimBatchForSummarization
         (RawSummarySummarizer.batchSize w) released in
     RawSummarySummarizer.rawStore (RawSummarySummarizer.processBatch w) = claim.2 ∧
     RawSummarySummarizer.suspended (RawSummarySummarizer.processBatch w) = claim.1).
Proof.
  split_and!.
  - intros s s'. split_and!; [|done..].
    apply (update_where_reverted (λ r, status r = summarizing)).
  - intros w Hi. unfold RawSummarySummarizer.start. by rewrite Hi.
  - intros w Hp Hrem released claim.
    unfold RawSummarySummarizer.processBatch. rewrite Hp.
    unfold RawSummarySummarizer.stale_check, RawSummarySummarizer.staleCheckEveryNBatches.
    rewrite decide_True by done. fold released. fold claim.
    destruct claim as [[|b batch] s']; by split.
Qed.

(** The request left summarizing by a crash is released by [start], and by
    the thirtieth tick, which claims it again. *)
Lemma releaseStuckRequests_unconditional_witness :
  (RawSummarySummarizer.interval Scenario.summary_worker_before_30th = false ∧
   status <$> rows (RawSummaryRequestStore.db
       (RawSummarySummarizer.rawStore Scenario.summary_worker_before_30th)) = [summarizing] ∧
   status <$> rows (RawSummaryRequestStore.db
       (RawSummarySummarizer.rawStore
          (RawSummarySummarizer.start Scenario.summary_worker_before_30th))) = [pending]) ∧
  (RawSummarySummarizer.isProcessing Scenario.summary_worker_before_30th = false ∧
   Z.rem (RawSummarySummarizer.batchCounter Scenario.summary_worker_before_30th + 1) 30 = 0 ∧
   RawSummarySummarizer.suspended Scenario.summary_worker_before_30th = [] ∧
   Queue.ids (RawSummarySummarizer.suspended
                (RawSummarySummarizer.processBatch Scenario.summary_worker_before_30th)) = [1]).
Proof.
  destruct releaseStuckRequests_unconditional as (_ & Hstart & Htick).
  split.
  - assert (RawSummarySummarizer.interval Scenario.summary_worker_before_30th = false)
      as Hi by (vm_compute; reflexivity).
    split_and!; [exact Hi|vm_compute; reflexivity|].
    rewrite (Hstart Scenario.summary_worker_before_30th Hi). vm_compute. reflexivity.
  - assert (RawSummarySummarizer.isProcessing Scenario.summary_worker_before_30th = false)
      as Hp by (vm_compute; reflexivity).
    assert (Z.rem (RawSummarySummarizer.batchCounter Scenario.summary_worker_before_30th + 1) 30 = 0)
      as Hrem by (vm_compute; reflexivity).
    split_and!; [exact Hp|exact Hrem|vm_compute; reflexivity|].
    rewrite (proj2 (Htick Scenario.summary_worker_before_30th Hp Hrem)).
    vm_compute. reflexivity.
Defined.

(** ** The retry budget over whole runs *)

Lemma event_worker_new_ok (maxRetries maxResponseLength : option Z) (batchSize : option nat) :
  event_worker_ok (default 3 maxRetries)
    (RawEventSummarizer.new
       (RawToolEventStore.new Queue.empty maxRetries maxResponseLength) batchSize).
Proof.
  split; [done|]. apply table_ok_lease. split; [constructor|constructor].
Qed.

Lemma summary_worker_new_ok (maxRetries : option Z) (batchSize : option nat) :
  summary_worker_ok (default 3 maxRetries)
    (RawSummarySummarizer.new
       (RawSummaryRequestStore.new Queue.empty maxRetries) batchSize).
Proof.
  split; [done|]. apply table_ok_lease. split; [constructor|constructor].
Qed.

(** C2.  On either queue, [markFailed id error_message] adds exactly one to
    the [retry_count] of the row of that id and records the message; the row
    becomes failed if the new count has reached [maxRetries] (3 by default)
    and pending otherwise; no other row and no other field changes.
    Consequently, in every run of a worker over its queue, with a retry
    budget of at least one, a row that is failed has
    [retry_count = maxRetries]. *)
Theorem markFailed_spends_retry_budget :
  (∀ (s : RawToolEventStore.t) i msg,
     unique_ids (RawToolEventStore.db s) →
     failure_recorded (RawToolEventStore.maxRetries s) i msg
       (RawToolEventStore.db s)
       (RawToolEventStore.db (RawToolEventStore.markFailed i msg s))) ∧
  (∀ (s : RawSummaryRequestStore.t) i msg,
     unique_ids (RawSummaryRequestStore.db s) →
     failure_recorded (RawSummaryRequestStore.maxRetries s) i msg
       (RawSummaryRequestStore.db s)
       (RawSummaryRequestStore.db (RawSummaryRequestStore.markFailed i msg s))) ∧
  (∀ maxRetries maxResponseLength batchSize es r,
     0 < default 3 maxRetries →
     r ∈ rows (RawToolEventStore.db (RawEventSummarizer.rawStore
           (RawEventSummarizer.run
              (RawEventSummarizer.new
                 (RawToolEventStore.new Queue.empty maxRetries maxResponseLength)
                 batchSize) es))) →
     status r = failed → retry_count r = default 3 maxRetries) ∧
  (∀ maxRetries batchSize es r,
     0 < default 3 maxRetries →
     r ∈ rows (RawSummaryRequestStore.db (RawSummarySummarizer.rawStore
           (RawSummarySummarizer.run
              (RawSummarySummarizer.new
                 (RawSummaryRequestStore.new Queue.empty maxRetries) batchSize) es))) →
     status r = failed → retry_count r = default 3 maxRetries).
Proof.
  split_and!.
  - intros s i msg Hnd. by apply markFailed_recorded.
  - intros s i msg Hnd. by apply markFailed_recorded.
  - intros maxRetries maxResponseLength batchSize es r Hpos Hr Hs.
    pose proof (event_run_ok _ _ es Hpos
                  (event_worker_new_ok maxRetries maxResponseLength batchSize)) as [_ Hok].
    eapply failed_rows_spent; [eapply lease_ok_table, Hok|done..].
  - intros maxRetries batchSize es r Hpos Hr Hs.
    pose proof (summary_run_ok _ _ es Hpos
                  (summary_worker_new_ok maxRetries batchSize)) as [_ Hok].
    eapply failed_rows_spent; [eapply lease_ok_table, Hok|done..].
Qed.

(** One failure recorded on either queue, and the outage scenarios, in
    which the third failure leaves the row failed with [retry_count] 3. *)
Lemma markFailed_spends_retry_budget_witness :
  (unique_ids (RawToolEventStore.db Scenario.first_claim.2) ∧
   failure_recorded 3 1 "UpstreamError"
     (RawToolEventStore.db Scenario.first_claim.2)
     (RawToolEventStore.db
        (RawToolEventStore.markFailed 1 "UpstreamError" Scenario.first_claim.2))) ∧
  (unique_ids (RawSummaryRequestStore.db Scenario.summary_claimed) ∧
   failure_recorded 3 1 "Gemini API error: 503"
     (RawSummaryRequestStore.db Scenario.summary_claimed)
     (RawSummaryRequestStore.db
        (RawSummaryRequestStore.markFailed 1 "Gemini API error: 503"
           Scenario.summary_claimed))) ∧
  (0 < default 3 None ∧
   Scenario.exhausted_event ∈
     rows (RawToolEventStore.db (RawEventSummarizer.rawStore
       (RawEventSummarizer.run
          (RawEventSummarizer.new (RawToolEventStore.new Queue.empty None None) None)
          Scenario.retry_budget_run))) ∧
   status Scenario.exhausted_event = failed ∧
   retry_count Scenario.exhausted_event = default 3 None) ∧
  (Scenario.exhausted_request ∈
     rows (RawSummaryRequestStore.db (RawSummarySummarizer.rawStore
       (RawSummarySummarizer.run
          (RawSummarySummarizer.new (RawSummaryRequestStore.new Queue.empty None) None)
          Scenario.summary_outage_run))) ∧
   status Scenario.exhausted_request = failed ∧
   retry_count Scenario.exhausted_request = default 3 None).
Proof.
  destruct markFailed_spends_retry_budget as (Hevent & Hsummary & Hevents & Hsummaries).
  assert (0 < default 3 None) as Hpos by (vm_compute; reflexivity).
  split; [|split; [|split]].
  - assert (unique_ids (RawToolEventStore.db Scenario.first_claim.2)) as Hnd.
    { apply (bool_decide_eq_true_1 _). vm_compute. reflexivity. }
    split; [exact Hnd|].
    exact (Hevent Scenario.first_claim.2 1 "UpstreamError"%string Hnd).
  - assert (unique_ids (RawSummaryRequestStore.db Scenario.summary_claimed)) as Hnd.
    { apply (bool_decide_eq_true_1 _). vm_compute. reflexivity. }
    split; [exact Hnd|].
    exact (Hsummary Scenario.summary_claimed 1 "Gemini API error: 503"%string Hnd).
  - assert (Scenario.exhausted_event ∈
              rows (RawToolEventStore.db (RawEventSummarizer.rawStore
                (RawEventSummarizer.run
                   (RawEventSummarizer.new (RawToolEventStore.new Queue.empty None None) None)
                   Scenario.retry_budget_run)))) as Hin.
    { vm_compute. left. }
    assert (status Scenario.exhausted_event = failed) as Hs by reflexivity.
    split_and!; [exact Hpos|exact Hin|exact Hs|].
    exact (Hevents None None None Scenario.retry_budget_run Scenario.exhausted_event
             Hpos Hin Hs).
  - assert (Scenario.exhausted_request ∈
              rows (RawSummaryRequestStore.db (RawSummarySummarizer.rawStore
                (RawSummarySummarizer.run
                   (RawSummarySummarizer.new (RawSummaryRequestStore.new Queue.empty None) None)
                   Scenario.summary_outage_run)))) as Hin.
    { vm_compute. left. }
    assert (status Scenario.exhausted_request = failed) as Hs by reflexivity.
    split_and!; [exact Hin|exact Hs|].
    exact (Hsummaries None None Scenario.summary_outage_run Scenario.exhausted_request
             Hpos Hin Hs).
Defined.

(** C7.  The intake route for summary requests rejects a request, and queues
    nothing, whenever a row of the same session is pending or summarizing;
    otherwise it queues the request.  With every request entering through
    that route, at most one row per session is pending or summarizing in
    every state the queue and its worker reach. *)
Theorem postSummary_rejects_duplicates :
  (∀ sessionDbId contentSessionId data now (s : RawSummaryRequestStore.t) r,
     r ∈ rows (RawSummaryRequestStore.db s) →
     session_db_id r = sessionDbId → Queue.active r →
     RawSummarySummarizer.postSummary sessionDbId contentSessionId data now s =
       (RawSummarySummarizer.DuplicateSummaryPending, s)) ∧
  (∀ sessionDbId contentSessionId data now (s : RawSummaryRequestStore.t),
     (∀ r, r ∈ rows (RawSummaryRequestStore.db s) →
           session_db_id r = sessionDbId → ¬ Queue.active r) →
     RawSummarySummarizer.postSummary sessionDbId contentSessionId data now s =
       (RawSummarySummarizer.Queued
          (RawSummaryRequestStore.insertRaw sessionDbId contentSessionId data now s).1,
        (RawSummaryRequestStore.insertRaw sessionDbId contentSessionId data now s).2)) ∧
  (∀ maxRetries batchSize es,
     0 < default 3 maxRetries →
     Forall (λ e, ¬ RawSummarySummarizer.is_bare_insert e) es →
     one_active_per_session
       (RawSummaryRequestStore.db (RawSummarySummarizer.rawStore
          (RawSummarySummarizer.run
             (RawSummarySummarizer.new
                (RawSummaryRequestStore.new Queue.empty maxRetries) batchSize) es)))).
Proof.
  split_and!.
  - intros sid csid data now s r Hr Hs Ha. unfold RawSummarySummarizer.postSummary.
    by rewrite (hasPendingForSession_true sid s r Hr).
  - intros sid csid data now s Hfree. unfold RawSummarySummarizer.postSummary.
    destruct (RawSummaryRequestStore.hasPendingForSession sid s) eqn:Hguard.
    + apply hasPendingForSession_found in Hguard as [r [Hr [Hs Ha]]].
      by destruct (Hfree r Hr Hs).
    + by destruct (RawSummaryRequestStore.insertRaw sid csid data now s).
  - intros maxRetries batchSize es Hpos Hes.
    apply (summary_run_one_active (default 3 maxRetries)); [done..| |].
    + apply summary_worker_new_ok.
    + intros sid. simpl. lia.
Qed.

(** A second request for session 42 is rejected while the first is
    summarizing; after the posts of the scenario each session has one row. *)
Lemma postSummary_rejects_duplicates_witness :
  (Scenario.claimed_request ∈ rows (RawSummaryRequestStore.db Scenario.summary_claimed) ∧
   Queue.active Scenario.claimed_request ∧
   RawSummarySummarizer.postSummary 42 "c" Scenario.summary_request 200
     Scenario.summary_claimed
   = (RawSummarySummarizer.DuplicateSummaryPending, Scenario.summary_claimed)) ∧
  (0 < default 3 None ∧
   Forall (λ e, ¬ RawSummarySummarizer.is_bare_insert e) Scenario.duplicate_posts ∧
   (session_db_id <$> rows (RawSummaryRequestStore.db (RawSummarySummarizer.rawStore
       (RawSummarySummarizer.run
          (RawSummarySummarizer.new (RawSummaryRequestStore.new Queue.empty None) None)
          Scenario.duplicate_posts)))) = [42; 7] ∧
   one_active_per_session
     (RawSummaryRequestStore.db (RawSummarySummarizer.rawStore
        (RawSummarySummarizer.run
           (RawSummarySummarizer.new (RawSummaryRequestStore.new Queue.empty None) None)
           Scenario.duplicate_posts)))).
Proof.
  destruct postSummary_rejects_duplicates as (Hreject & _ & Hone).
  split.
  - assert (Scenario.claimed_request ∈
              rows (RawSummaryRequestStore.db Scenario.summary_claimed)) as Hin.
    { vm_compute. left. }
    assert (Queue.active Scenario.claimed_request) as Ha by (by right).
    split_and!; [exact Hin|exact Ha|].
    exact (Hreject 42 "c"%string Scenario.summary_request 200 Scenario.summary_claimed
             Scenario.claimed_request Hin eq_refl Ha).
  - assert (0 < default 3 None) as Hpos by (vm_compute; reflexivity).
    assert (Forall (λ e, ¬ RawSummarySummarizer.is_bare_insert e) Scenario.duplicate_posts)
      as Hes.
    { apply (bool_decide_eq_true_1 _). vm_compute. reflexivity. }
    split_and!; [exact Hpos|exact Hes|vm_compute; reflexivity|].
    exact (Hone None None Scenario.duplicate_posts Hpos Hes).
Defined.

(** [insertRaw] on its own queues whatever it is given: the guard is the
    route's. *)
Lemma bare_insertRaw_queues_duplicates :
  (λ r, (session_db_id r, status r)) <$>
    rows (RawSummaryRequestStore.db
      (RawSummaryRequestStore.insertRaw 42 "c" Scenario.summary_request 200
         (RawSummaryRequestStore.insertRaw 42 "c" Scenario.summary_request 100
            (RawSummaryRequestStore.new Queue.empty None)).2).2)
  = [(42, pending); (42, pending)].
Proof. vm_compute. reflexivity. Qed.

(** ** Intake of tool events *)

Lemma js_endsWith_app (front suffix : string) : js_endsWith (front +:+ suffix) suffix.
Proof. by exists front. Qed.

Lemma js_length_app (s1 s2 : string) :
  js_length (s1 +:+ s2) = js_length s1 + js_length s2.
Proof. unfold js_length. rewrite length_string_app. lia. Qed.

Lemma truncate_response_long cap v :
  0 ≤ cap → js_truthy v = true →
  js_length (RawToolEventStore.response_text v) > cap →
  RawToolEventStore.truncate_response cap v =
    Some (js_slice0 (RawToolEventStore.response_text v) cap
          +:+ RawToolEventStore.truncation_marker) ∧
  js_length (js_slice0 (RawToolEventStore.response_text v) cap
             +:+ RawToolEventStore.truncation_marker)
    = cap + js_length RawToolEventStore.truncation_marker.
Proof.
  intros Hcap Ht Hlong. unfold RawToolEventStore.truncate_response. rewrite Ht.
  rewrite decide_True by done. split; [done|].
  rewrite js_length_app, js_length_slice0; lia.
Qed.

Lemma truncate_response_short cap v :
  js_truthy v = true →
  js_length (RawToolEventStore.response_text v) ≤ cap →
  RawToolEventStore.truncate_response cap v = Some (RawToolEventStore.response_text v).
Proof.
  intros Ht Hshort. unfold RawToolEventStore.truncate_response. rewrite Ht.
  rewrite decide_False by lia. done.
Qed.

Lemma truncate_response_falsy cap v :
  js_truthy v = false → RawToolEventStore.truncate_response cap v = None.
Proof. intros Ht. unfold RawToolEventStore.truncate_response. by rewrite Ht. Qed.

(** C3, as amended.  After [insertRaw] on the tool-event queue exactly one
    new row exists; it has a fresh id, status pending and [retry_count] 0.  A
    truthy [tool_response] whose text is longer than [maxResponseLength]
    (50 000 by default) is stored as its first [maxResponseLength] characters
    followed by the truncation marker, so with length [maxResponseLength]
    plus the length of the marker; a truthy [tool_response] of at most
    [maxResponseLength] characters is stored unchanged; a falsy
    [tool_response] (absent, null, the empty string, 0, false) is stored as
    NULL. *)
Theorem insertRaw_queues_one_pending_row (sessionDbId : Z) (contentSessionId : string)
    (data : RawToolEventStore.RawToolEventInput) (now : Z) (s : RawToolEventStore.t) :
  0 ≤ RawToolEventStore.maxResponseLength s →
  let i := (RawToolEventStore.insertRaw sessionDbId contentSessionId data now s).1 in
  let s' := (RawToolEventStore.insertRaw sessionDbId contentSessionId data now s).2 in
  let response := RawToolEventStore.data_tool_response data in
  let text := RawToolEventStore.response_text response in
  let cap := RawToolEventStore.maxResponseLength s in
  ∃ row,
    rows (RawToolEventStore.db s') = rows (RawToolEventStore.db s) ++ [row] ∧
    id row = i ∧ (i ∉ Queue.ids (rows (RawToolEventStore.db s))) ∧
    status row = pending ∧ retry_count row = 0 ∧
    session_db_id row = sessionDbId ∧ created_at_epoch row = now ∧
    (js_truthy response = true → js_length text > cap →
       ∃ stored, RawToolEventStore.tool_response (payload row) = Some stored ∧
                 stored = js_slice0 text cap +:+ RawToolEventStore.truncation_marker ∧
                 js_length stored = cap + js_length RawToolEventStore.truncation_marker ∧
                 js_endsWith stored RawToolEventStore.truncation_marker) ∧
    (js_truthy response = true → js_length text ≤ cap →
       RawToolEventStore.tool_response (payload row) = Some text) ∧
    (js_truthy response = false →
       RawToolEventStore.tool_response (payload row) = None).
Proof.
  intros Hcap i s' response text cap.
  eexists. unfold s', i, RawToolEventStore.insertRaw. simpl.
  split_and!; try reflexivity.
  - intros Hin. apply list_elem_of_fmap in Hin as [r [Heq Hr]].
    pose proof (next_id_fresh _ r Hr). lia.
  - intros Ht Hlong.
    destruct (truncate_response_long cap response Hcap Ht Hlong) as [Hstored Hlen].
    eexists. split_and!; [exact Hstored|reflexivity|exact Hlen|apply js_endsWith_app].
  - intros Ht Hshort. by apply truncate_response_short.
  - apply truncate_response_falsy.
Qed.

(** A response of 100 000 characters is stored with 50 015. *)
Lemma insertRaw_queues_one_pending_row_witness :
  0 ≤ RawToolEventStore.maxResponseLength (RawToolEventStore.new Queue.empty None None) ∧
  js_length Scenario.big_response = 100000 ∧
  ∃ row stored,
    rows (RawToolEventStore.db
            (RawToolEventStore.insertRaw 42 "c" Scenario.big_event 100
               (RawToolEventStore.new Queue.empty None None)).2) = [row] ∧
    status row = pending ∧ retry_count row = 0 ∧
    RawToolEventStore.tool_response (payload row) = Some stored ∧
    js_length stored = 50015 ∧
    js_endsWith stored "... [truncated]".
Proof.
  assert (0 ≤ RawToolEventStore.maxResponseLength (RawToolEventStore.new Queue.empty None None))
    as Hcap by (vm_compute; discriminate).
  assert (js_length Scenario.big_response = 100000) as Hlen by (vm_compute; reflexivity).
  split_and!; [exact Hcap|exact Hlen|].
  destruct (insertRaw_queues_one_pending_row 42 "c" Scenario.big_event 100
              (RawToolEventStore.new Queue.empty None None) Hcap)
    as (row & Hrows & _ & _ & Hs & Hr & _ & _ & Hlong & _).
  destruct Hlong as (stored & Hstored & _ & Hl & Hend).
  - reflexivity.
  - change (js_length Scenario.big_response > 50000). rewrite Hlen. reflexivity.
  - exists row, stored. split_and!; [exact Hrows|exact Hs|exact Hr|exact Hstored|exact Hl|exact Hend].
Defined.

(** C3, as stated, fails: a tool response that is the empty string has at
    most 50 000 characters and is stored as NULL, not unchanged. *)
Lemma insertRaw_stores_empty_response_as_null :
  js_truthy (RawToolEventStore.data_tool_response Scenario.silent_event) = false ∧
  js_length (RawToolEventStore.response_text
               (RawToolEventStore.data_tool_response Scenario.silent_event)) ≤ 50000 ∧
  (λ r, RawToolEventStore.tool_response (payload r)) <$>
    rows (RawToolEventStore.db
            (RawToolEventStore.insertRaw 42 "c" Scenario.silent_event 100
               (RawToolEventStore.new Queue.empty None None)).2) = [None] ∧
  (λ r, RawToolEventStore.tool_response (payload r)) <$>
    rows (RawToolEventStore.db
            (RawToolEventStore.insertRaw 42 "c" Scenario.silent_event 100
               (RawToolEventStore.new Queue.empty None None)).2)
  ≠ [Some (RawToolEventStore.response_text
             (RawToolEventStore.data_tool_response Scenario.silent_event))].
Proof. vm_compute. split_and!; try done. Qed.

(** ** Linking raw events to observations *)

Section CompletionFacts.
Context {P : Type}.
Implicit Types (r : Row P) (t : Table P).

Lemma markCompleted_completes i mid now t :
  i ∈ Queue.ids (rows t) → completed_with i mid (Queue.markCompleted i mid now t).
Proof.
  intros Hi. unfold Queue.markCompleted. split.
  - by rewrite ids_update_where.
  - intros r' Hr' Hid. apply elem_of_update_where in Hr' as [r [Hr ->]].
    case_decide; [done|]. congruence.
Qed.

Lemma markCompleted_keeps i j mid mid' now t :
  i ≠ j → completed_with j mid' t →
  completed_with j mid' (Queue.markCompleted i mid now t).
Proof.
  intros Hij [Hj Hall]. unfold Queue.markCompleted. split.
  - by rewrite ids_update_where.
  - intros r' Hr' Hid. apply elem_of_update_where in Hr' as [r [Hr ->]].
    case_decide as Hc; [simpl in Hid; congruence|]. by apply Hall.
Qed.

End CompletionFacts.

Section ObservationLinks.
Import RawToolEventStore RawEventSummarizer.
Implicit Types (s : RawToolEventStore.t) (events : list RawToolEvent).

Lemma store_markCompleted_ids i mid now s :
  Queue.ids (rows (db (markCompleted i mid now s))) = Queue.ids (rows (db s)).
Proof.
  unfold markCompleted, with_db, Queue.markCompleted. cbn [db].
  by apply ids_update_where.
Qed.

Lemma store_markCompleted_completes i mid now s :
  i ∈ Queue.ids (rows (db s)) → completed_with i mid (db (markCompleted i mid now s)).
Proof. apply markCompleted_completes. Qed.

Lemma store_markCompleted_keeps i j mid mid' now s :
  i ≠ j → completed_with j mid' (db s) →
  completed_with j mid' (db (markCompleted i mid now s)).
Proof. apply markCompleted_keeps. Qed.

Lemma complete_events_keeps observationIds now i0 events s j mid :
  j ∉ Queue.ids events → completed_with j mid (db s) →
  completed_with j mid (db (complete_events observationIds now i0 events s)).
Proof.
  revert i0 s. induction events as [|e es IH]; intros i0 s Hj Hc; [done|].
  cbn [complete_events]. unfold Queue.ids in Hj. rewrite fmap_cons in Hj.
  apply not_elem_of_cons in Hj as [Hne Hj].
  apply IH; [done|]. apply store_markCompleted_keeps; [congruence|done].
Qed.

Lemma complete_events_marks observationIds now i0 events s k e :
  NoDup (Queue.ids events) → events !! k = Some e →
  id e ∈ Queue.ids (rows (db s)) →
  completed_with (id e)
    (default 0 (js_index observationIds
                  (Z.min (i0 + Z.of_nat k) (Z.of_nat (length observationIds) - 1))))
    (db (complete_events observationIds now i0 events s)).
Proof.
  revert i0 s k. induction events as [|x es IH]; intros i0 s k Hnd Hk Hin; [done|].
  unfold Queue.ids in Hnd. rewrite fmap_cons in Hnd.
  apply NoDup_cons in Hnd as [Hx Hnd]. cbn [complete_events].
  destruct k as [|k].
  - injection Hk as ->. apply complete_events_keeps; [done|].
    rewrite Z.add_0_r. by apply store_markCompleted_completes.
  - replace (i0 + Z.of_nat (S k)) with ((i0 + 1) + Z.of_nat k) by lia.
    apply IH; [done..|]. by rewrite store_markCompleted_ids.
Qed.

Lemma complete_with_zero_keeps now events s j mid :
  completed_with j mid (db s) → (j ∈ Queue.ids events → mid = 0) →
  completed_with j mid
    (db (foldl (λ s' (event : RawToolEvent), markCompleted (id event) 0 now s') s events)).
Proof.
  revert s. induction events as [|x es IH]; intros s Hc Hj; [done|].
  cbn [foldl]. apply IH.
  - destruct (decide (id x = j)) as [<-|Hne].
    + rewrite Hj by left. apply store_markCompleted_completes, Hc.
    + by apply store_markCompleted_keeps.
  - intros Hin. apply Hj. by right.
Qed.

Lemma complete_with_zero_marks now events s e :
  e ∈ events → id e ∈ Queue.ids (rows (db s)) →
  completed_with (id e) 0
    (db (foldl (λ s' (event : RawToolEvent), markCompleted (id event) 0 now s') s events)).
Proof.
  revert s. induction events as [|x es IH]; intros s He Hin; [inversion He|].
  cbn [foldl]. apply elem_of_cons in He as [->|He].
  - apply complete_with_zero_keeps; [|done].
    by apply store_markCompleted_completes.
  - apply IH; [done|]. by rewrite store_markCompleted_ids.
Qed.

Lemma js_index_last_or_own (observationIds : list Z) (k : nat) :
  (0 < length observationIds)%nat →
  js_index observationIds (Z.min (0 + Z.of_nat k) (Z.of_nat (length observationIds) - 1))
  = observationIds !! Nat.min k (length observationIds - 1) ∧
  is_Some (observationIds !! Nat.min k (length observationIds - 1)).
Proof.
  intros Hn. unfold js_index. rewrite decide_True by lia. split.
  - f_equal. lia.
  - apply lookup_lt_is_Some. lia.
Qed.

End ObservationLinks.

(** C8.  For a per-session sub-batch of claimed events (distinct ids, all in
    the queue) whose LLM response parses to [n] observations: if [n = 0]
    every event is marked completed with [observation_id = 0]; if [n > 0] and
    the session store returns the [n] ids of the stored observations, the
    [i]-th event (0-based) is marked completed with the id at index
    [min i (n - 1)] of that list, so events that outnumber the observations
    reuse the last observation id. *)
Theorem summarizeSessionEvents_links_observations (now : Z)
    (a : RawEventSummarizer.Answers) (sessionDbId : Z)
    (events : list RawToolEventStore.RawToolEvent) (w : RawEventSummarizer.Worker)
    (sessionRecord : SessionRecord) (memorySessionId response : string) (tokens : Z) :
  RawEventSummarizer.getSessionById a = Some sessionRecord →
  string_or_null (session_memory_session_id sessionRecord) = Some memorySessionId →
  RawEventSummarizer.callLLM a = inr (response, tokens) →
  NoDup (Queue.ids events) →
  (∀ e, e ∈ events →
        id e ∈ Queue.ids (rows (RawToolEventStore.db (RawEventSummarizer.rawStore w)))) →
  let n := length (RawEventSummarizer.parseObservations a) in
  let w' := RawEventSummarizer.summarizeSessionEvents now a sessionDbId events w in
  (n = 0%nat →
     ∀ e, e ∈ events →
          completed_with (id e) 0 (RawToolEventStore.db (RawEventSummarizer.rawStore w'))) ∧
  (∀ observationIds,
     (0 < n)%nat →
     RawEventSummarizer.storeObservations a = inr observationIds →
     length observationIds = n →
     ∀ i e, events !! i = Some e →
       ∃ observationId,
         observationIds !! Nat.min i (n - 1) = Some observationId ∧
         completed_with (id e) observationId
           (RawToolEventStore.db (RawEventSummarizer.rawStore w'))).
Proof.
  intros Hsession Hmem Hllm Hnd Hin n w'. unfold w', n.
  unfold RawEventSummarizer.summarizeSessionEvents, RawEventSummarizer.try_summarize.
  rewrite Hsession, Hmem, Hllm. split.
  - intros Hn e He. destruct events as [|x es]; [inversion He|].
    rewrite decide_True by done.
    unfold RawEventSummarizer.with_stats, RawEventSummarizer.with_store.
    cbn [RawEventSummarizer.rawStore].
    apply complete_with_zero_marks; [done|]. by apply Hin.
  - intros observationIds Hn Hstore Hlen i e Hi.
    destruct events as [|x es]; [done|].
    rewrite decide_False by lia. rewrite Hstore.
    unfold RawEventSummarizer.with_stats, RawEventSummarizer.with_store.
    cbn [RawEventSummarizer.rawStore].
    pose proof (complete_events_marks observationIds now 0 (x :: es)
                  (RawEventSummarizer.rawStore w) i e Hnd Hi) as Hmark.
    destruct (js_index_last_or_own observationIds i) as [Hidx [oid Hoid]]; [lia|].
    rewrite Hidx, Hlen in Hmark. rewrite Hlen in Hoid.
    exists oid. split; [done|]. rewrite Hoid in Hmark. apply Hmark.
    apply Hin. by eapply list_elem_of_lookup_2.
Qed.

(** Three events, two observations: the third event reuses id 502. *)
Lemma summarizeSessionEvents_links_observations_witness :
  NoDup (Queue.ids Scenario.claimed_events) ∧
  Queue.ids Scenario.claimed_events = [1; 2; 3] ∧
  length (RawEventSummarizer.parseObservations Scenario.two_observations) = 2%nat ∧
  completed_with 3 502
    (RawToolEventStore.db (RawEventSummarizer.rawStore
       (RawEventSummarizer.summarizeSessionEvents 200 Scenario.two_observations 42
          Scenario.claimed_events Scenario.three_claimed))).
Proof.
  assert (NoDup (Queue.ids Scenario.claimed_events)) as Hnd.
  { apply (bool_decide_eq_true_1 _). vm_compute. reflexivity. }
  assert (∀ e, e ∈ Scenario.claimed_events →
               id e ∈ Queue.ids (rows (RawToolEventStore.db
                          (RawEventSummarizer.rawStore Scenario.three_claimed)))) as Hin.
  { apply Forall_forall. apply (bool_decide_eq_true_1 _). vm_compute. reflexivity. }
  split_and!; [exact Hnd|vm_compute; reflexivity|reflexivity|].
  destruct (summarizeSessionEvents_links_observations 200 Scenario.two_observations 42
              Scenario.claimed_events Scenario.three_claimed
              (mkSession (Some "mem-42") "project") "mem-42"
              "<observation/><observation/>" 1200
              eq_refl eq_refl eq_refl Hnd Hin) as [_ Hlinks].
  destruct (Hlinks [501; 502] (Nat.lt_0_succ 1) eq_refl eq_refl 2%nat Scenario.third_event)
    as [observationId [Hid Hdone]].
  - vm_compute. reflexivity.
  - injection Hid as <-. exact Hdone.
Defined.

(** ** Terminating a tracked process *)

(** C9, evaluated on the code.  A tracked child that keeps running on SIGTERM
    makes [terminateProcess] return true: [kill] sets the handle's [killed]
    flag, [waitForExit] takes the flag for an exit, and the call returns
    before SIGKILL and before [verifyProcessDead]; the pid still exists. *)
Theorem terminateProcess_true_while_pid_exists :
  (ProcessTracker.terminateProcess 7 5000 Scenario.stubborn_child).1 = true ∧
  ProcessTracker.os (ProcessTracker.terminateProcess 7 5000 Scenario.stubborn_child).2
    !! 4242 = Some (ProcessTracker.mkOs true) ∧
  ProcessTracker.verifyProcessDead 4242
    (ProcessTracker.os (ProcessTracker.terminateProcess 7 5000 Scenario.stubborn_child).2)
    = false ∧
  ProcessTracker.trackedProcesses
    (ProcessTracker.terminateProcess 7 5000 Scenario.stubborn_child).2 !! 7 = None.
Proof. vm_compute. by repeat split. Qed.

(** ** Settling, deleting and looking up rows *)

Section SettleFacts.
Context {P : Type}.
Implicit Types (r : Row P) (t : Table P).

Lemma update_where_none (c : Row P → Prop) `{!∀ r, Decision (c r)} f t :
  (∀ r, r ∈ rows t → ¬ c r) → Queue.update_where c f t = t.
Proof.
  intros Hnone. unfold Queue.update_where. destruct t as [rs sq]. simpl in *. f_equal.
  rewrite <- (list_fmap_id rs) at 2. apply list_fmap_ext.
  intros i r Hr. apply list_elem_of_lookup_2 in Hr.
  rewrite decide_False; [done|]. by apply Hnone.
Qed.

Lemma not_in_ids i t r : i ∉ Queue.ids (rows t) → r ∈ rows t → id r ≠ i.
Proof. intros Hi Hr <-. apply Hi. by apply list_elem_of_fmap_2. Qed.

Lemma markCompleted_unknown i mid now t :
  i ∉ Queue.ids (rows t) → Queue.markCompleted i mid now t = t.
Proof. intros Hi. apply update_where_none. intros r Hr. by eapply not_in_ids. Qed.

Lemma markFailed_unknown m i msg t :
  i ∉ Queue.ids (rows t) → Queue.markFailed m i msg t = t.
Proof.
  intros Hi. unfold Queue.markFailed.
  case_decide; apply update_where_none; intros r Hr; by eapply not_in_ids.
Qed.

Lemma markCompleted_overwrites i mid1 now1 mid2 now2 t :
  Queue.markCompleted i mid2 now2 (Queue.markCompleted i mid1 now1 t) =
  Queue.markCompleted i mid2 now2 t.
Proof.
  unfold Queue.markCompleted, Queue.update_where. simpl. f_equal.
  rewrite <- list_fmap_compose. apply list_fmap_ext. intros k r _. simpl.
  destruct (decide (id r = i)) as [Hi|Hi]; simpl.
  - by rewrite decide_True.
  - by rewrite decide_False.
Qed.

Lemma markCompleted_pointwise i mid now t :
  Forall2 (λ r r',
      if decide (id r = i) then
        id r' = i ∧ session_db_id r' = session_db_id r ∧ payload r' = payload r ∧
        retry_count r' = retry_count r ∧ created_at_epoch r' = created_at_epoch r ∧
        error_message r' = error_message r ∧
        status r' = completed ∧ materialized_id r' = Some mid ∧
        summarized_at_epoch r' = Some now
      else r' = r)
    (rows t) (rows (Queue.markCompleted i mid now t)).
Proof.
  apply update_where_Forall2. intros r _. by case_decide.
Qed.

End SettleFacts.

(** X1.  On either queue, [markCompleted id materialized_id] sets status,
    link and completion time on the row of that id and changes nothing else
    ([retry_count] and [error_message] stay); completing the same row again
    overwrites the first completion. *)
Theorem markCompleted_records_and_overwrites :
  (∀ (s : RawToolEventStore.t) i observationId now,
     completion_recorded i observationId now (RawToolEventStore.db s)
       (RawToolEventStore.db (RawToolEventStore.markCompleted i observationId now s))) ∧
  (∀ (s : RawToolEventStore.t) i o1 now1 o2 now2,
     RawToolEventStore.markCompleted i o2 now2
       (RawToolEventStore.markCompleted i o1 now1 s) =
     RawToolEventStore.markCompleted i o2 now2 s) ∧
  (∀ (s : RawSummaryRequestStore.t) i summaryId now,
     completion_recorded i summaryId now (RawSummaryRequestStore.db s)
       (RawSummaryRequestStore.db (RawSummaryRequestStore.markCompleted i summaryId now s))) ∧
  (∀ (s : RawSummaryRequestStore.t) i o1 now1 o2 now2,
     RawSummaryRequestStore.markCompleted i o2 now2
       (RawSummaryRequestStore.markCompleted i o1 now1 s) =
     RawSummaryRequestStore.markCompleted i o2 now2 s).
Proof.
  split_and!.
  - intros s i o now. split; [apply markCompleted_pointwise|done].
  - intros s i o1 now1 o2 now2. unfold RawToolEventStore.markCompleted.
    simpl. by rewrite markCompleted_overwrites.
  - intros s i o now. split; [apply markCompleted_pointwise|done].
  - intros s i o1 now1 o2 now2. unfold RawSummaryRequestStore.markCompleted.
    simpl. by rewrite markCompleted_overwrites.
Qed.

(** X2.  [markCompleted] and [markFailed] on an id that is not in the queue
    change nothing, on either queue: no row is created and no other row is
    touched. *)
Theorem settling_unknown_id_changes_nothing :
  (∀ (s : RawToolEventStore.t) i observationId now msg,
     i ∉ Queue.ids (rows (RawToolEventStore.db s)) →
     RawToolEventStore.markCompleted i observationId now s = s ∧
     RawToolEventStore.markFailed i msg s = s) ∧
  (∀ (s : RawSummaryRequestStore.t) i summaryId now msg,
     i ∉ Queue.ids (rows (RawSummaryRequestStore.db s)) →
     RawSummaryRequestStore.markCompleted i summaryId now s = s ∧
     RawSummaryRequestStore.markFailed i msg s = s).
Proof.
  split.
  - intros [d m c] i o now msg Hi.
    unfold RawToolEventStore.markCompleted, RawToolEventStore.markFailed,
      RawToolEventStore.with_db. simpl in *.
    by rewrite markCompleted_unknown, markFailed_unknown.
  - intros [d m] i o now msg Hi.
    unfold RawSummaryRequestStore.markCompleted, RawSummaryRequestStore.markFailed,
      RawSummaryRequestStore.with_db. simpl in *.
    by rewrite markCompleted_unknown, markFailed_unknown.
Qed.

(** On the queue of three events, ids 1 to 3, id 9 is unknown. *)
Lemma settling_unknown_id_changes_nothing_witness :
  (9 ∉ Queue.ids (rows (RawToolEventStore.db Scenario.three_pending))) ∧
  RawToolEventStore.markCompleted 9 501 100 Scenario.three_pending = Scenario.three_pending ∧
  RawToolEventStore.markFailed 9 "late" Scenario.three_pending = Scenario.three_pending.
Proof.
  assert (9 ∉ Queue.ids (rows (RawToolEventStore.db Scenario.three_pending))) as Hi.
  { apply (bool_decide_eq_true_1 _). vm_compute. reflexivity. }
  split; [exact Hi|].
  exact (proj1 settling_unknown_id_changes_nothing Scenario.three_pending 9 501 100
           "late"%string Hi).
Defined.

Section DeleteFacts.
Context {P : Type}.
Implicit Types (r : Row P) (t : Table P).

Lemma filter_split_length (Q : Row P → Prop) `{!∀ r, Decision (Q r)} (l : list (Row P)) :
  (length (filter Q l) + length (filter (λ r, ¬ Q r) l) = length l)%nat.
Proof.
  induction l as [|x l IH]; [done|]. rewrite !filter_cons.
  destruct (decide (Q x)); [rewrite decide_False by tauto|rewrite decide_True by done];
    simpl; lia.
Qed.

Lemma status_partition t :
  rows_with_status pending t + rows_with_status summarizing t +
  rows_with_status completed t + rows_with_status failed t = Z.of_nat (length (rows t)).
Proof.
  unfold rows_with_status. induction (rows t) as [|x l IH]; [done|].
  rewrite !filter_cons. destruct (status x); simpl;
    repeat (rewrite decide_True by done || rewrite decide_False by done);
    simpl length; lia.
Qed.

Lemma find_row_app i (l : list (Row P)) x sq sq' :
  Queue.find_row i (mkTable (l ++ [x]) sq) =
  match Queue.find_row i (mkTable l sq') with
  | Some r => Some r
  | None => if decide (id x = i) then Some x else None
  end.
Proof.
  unfold Queue.find_row. simpl.
  assert (∀ X : option (nat * Row P),
            snd <$> (prod_map S Datatypes.id <$> X) = snd <$> X) as Hs.
  { by intros [[]|]. }
  induction l as [|y l IH]; simpl.
  - by destruct (decide (id x = i)).
  - destruct (decide (id y = i)); simpl; [done|]. rewrite !Hs. exact IH.
Qed.

Lemma find_row_None i t : i ∉ Queue.ids (rows t) → Queue.find_row i t = None.
Proof.
  intros Hi. unfold Queue.find_row.
  destruct (list_find _ (rows t)) as [[k r]|] eqn:Hf; [|done].
  apply list_find_Some in Hf as (Hk & Hid & _).
  apply list_elem_of_lookup_2 in Hk. by destruct (not_in_ids i t r Hi Hk).
Qed.

Lemma next_id_not_in t : Queue.next_id t ∉ Queue.ids (rows t).
Proof.
  intros Hin. apply list_elem_of_fmap in Hin as [r [Heq Hr]].
  pose proof (next_id_fresh t r Hr). lia.
Qed.

Lemma find_row_insert (mk : Z → Row P) t j :
  (∀ i, id (mk i) = i) →
  Queue.find_row j (Queue.insert_row mk t).2 =
  if decide (j = Queue.next_id t) then Some (mk (Queue.next_id t))
  else Queue.find_row j t.
Proof.
  intros Hmk. destruct t as [rs sq]. unfold Queue.insert_row. cbn [snd rows].
  set (n := Queue.next_id (mkTable rs sq)).
  rewrite (find_row_app j rs (mk n) n sq).
  destruct (decide (j = n)) as [Hj|Hj].
  - rewrite Hj. subst n.
    rewrite (find_row_None _ (mkTable rs sq) (next_id_not_in (mkTable rs sq))).
    rewrite decide_True; [done|apply Hmk].
  - destruct (Queue.find_row j (mkTable rs sq)); [done|].
    rewrite decide_False; [done|]. rewrite Hmk. congruence.
Qed.

End DeleteFacts.

(** X3.  [deleteCompleted olderThanEpoch] on the tool-event queue removes
    exactly the rows that are completed with a [summarized_at_epoch] below
    the bound (a completed row without one stays), keeps the other rows in
    their order and returns the number of rows removed. *)
Theorem deleteCompleted_removes_exactly (olderThanEpoch : Z) (s : RawToolEventStore.t) :
  let n := (RawToolEventStore.deleteCompleted olderThanEpoch s).1 in
  let s' := (RawToolEventStore.deleteCompleted olderThanEpoch s).2 in
  (∀ r, r ∈ rows (RawToolEventStore.db s') ↔
        r ∈ rows (RawToolEventStore.db s) ∧
        ¬ (status r = completed ∧
           ∃ e, summarized_at_epoch r = Some e ∧ e < olderThanEpoch)) ∧
  rows (RawToolEventStore.db s') `sublist_of` rows (RawToolEventStore.db s) ∧
  n + Z.of_nat (length (rows (RawToolEventStore.db s'))) =
    Z.of_nat (length (rows (RawToolEventStore.db s))) ∧
  0 ≤ n.
Proof.
  intros n s'. unfold n, s', RawToolEventStore.deleteCompleted, Queue.deleteCompleted,
    Queue.changes. simpl. split_and!; try done.
  - intros r. rewrite list_elem_of_filter. unfold Queue.deletable.
    split; intros [H1 H2].
    + split; [done|]. intros [Hs [e [He Hlt]]]. apply H1. by rewrite He.
    + split; [|done]. intros [Hs Hm]. apply H2. split; [done|].
      destruct (summarized_at_epoch r) as [e|]; [by exists e|done].
  - apply sublist_filter.
  - pose proof (filter_split_length (Queue.deletable olderThanEpoch)
                  (rows (RawToolEventStore.db s))). lia.
  - lia.
Qed.

Lemma tool_insertRaw_unfold sessionDbId contentSessionId data now (s : RawToolEventStore.t) :
  ∃ c,
    (RawToolEventStore.insertRaw sessionDbId contentSessionId data now s).1
      = Queue.next_id (RawToolEventStore.db s) ∧
    RawToolEventStore.db (RawToolEventStore.insertRaw sessionDbId contentSessionId data now s).2
      = (Queue.insert_row (RawToolEventStore.fresh_event sessionDbId c now)
           (RawToolEventStore.db s)).2 ∧
    RawToolEventStore.content_session_id c = contentSessionId ∧
    RawToolEventStore.tool_name c = RawToolEventStore.data_tool_name data.
Proof. eexists. by repeat split. Qed.

Lemma summary_insertRaw_unfold sessionDbId contentSessionId data now
    (s : RawSummaryRequestStore.t) :
  (RawSummaryRequestStore.insertRaw sessionDbId contentSessionId data now s).1
    = Queue.next_id (RawSummaryRequestStore.db s) ∧
  RawSummaryRequestStore.db
    (RawSummaryRequestStore.insertRaw sessionDbId contentSessionId data now s).2
    = (Queue.insert_row
         (RawSummaryRequestStore.fresh_request sessionDbId
            (RawSummaryRequestStore.mkColumns contentSessionId
               (string_or_null (RawSummaryRequestStore.data_memory_session_id data))
               (RawSummaryRequestStore.data_project data)
               (RawSummaryRequestStore.data_user_prompt data)
               (string_or_null (RawSummaryRequestStore.data_last_assistant_message data)))
            now)
         (RawSummaryRequestStore.db s)).2.
Proof. by split. Qed.

(** X4.  On the tool-event queue, [getById] of the id [insertRaw] returned
    finds the row just queued (pending, with the session, the content
    session, the tool name and the clock reading given); the id was unknown
    before, and the lookup of every other id is as it was. *)
Theorem insertRaw_then_getById (sessionDbId : Z) (contentSessionId : string)
    (data : RawToolEventStore.RawToolEventInput) (now : Z) (s : RawToolEventStore.t) :
  let i := (RawToolEventStore.insertRaw sessionDbId contentSessionId data now s).1 in
  let s' := (RawToolEventStore.insertRaw sessionDbId contentSessionId data now s).2 in
  RawToolEventStore.getById i s = None ∧
  (∃ row, RawToolEventStore.getById i s' = Some row ∧
          id row = i ∧ status row = pending ∧
          session_db_id row = sessionDbId ∧ created_at_epoch row = now ∧
          RawToolEventStore.content_session_id (payload row) = contentSessionId ∧
          RawToolEventStore.tool_name (payload row) = RawToolEventStore.data_tool_name data) ∧
  (∀ j, j ≠ i → RawToolEventStore.getById j s' = RawToolEventStore.getById j s).
Proof.
  intros i s'. unfold i, s', RawToolEventStore.getById.
  destruct (tool_insertRaw_unfold sessionDbId contentSessionId data now s)
    as (c & -> & -> & Hc1 & Hc2).
  split_and!.
  - apply find_row_None, next_id_not_in.
  - eexists. split.
    + rewrite find_row_insert by done. by rewrite decide_True.
    + by repeat split.
  - intros j Hj. rewrite find_row_insert by done. by rewrite decide_False.
Qed.

(** X5.  [insertRaw] on the summary queue appends exactly one row: pending,
    no retries, a fresh id, project and prompt as given; an absent or empty
    [memory_session_id] or [last_assistant_message] is stored as NULL.
    [getById] of the returned id finds that row and the lookup of every other
    id is as it was. *)
Theorem summary_insertRaw_then_getById (sessionDbId : Z) (contentSessionId : string)
    (data : RawSummaryRequestStore.RawSummaryRequestInput) (now : Z)
    (s : RawSummaryRequestStore.t) :
  let i := (RawSummaryRequestStore.insertRaw sessionDbId contentSessionId data now s).1 in
  let s' := (RawSummaryRequestStore.insertRaw sessionDbId contentSessionId data now s).2 in
  ∃ row,
    rows (RawSummaryRequestStore.db s') = rows (RawSummaryRequestStore.db s) ++ [row] ∧
    (i ∉ Queue.ids (rows (RawSummaryRequestStore.db s))) ∧
    RawSummaryRequestStore.getById i s' = Some row ∧
    (∀ j, j ≠ i → RawSummaryRequestStore.getById j s' = RawSummaryRequestStore.getById j s) ∧
    id row = i ∧ status row = pending ∧ retry_count row = 0 ∧
    session_db_id row = sessionDbId ∧ created_at_epoch row = now ∧
    RawSummaryRequestStore.project (payload row) = RawSummaryRequestStore.data_project data ∧
    RawSummaryRequestStore.user_prompt (payload row) =
      RawSummaryRequestStore.data_user_prompt data ∧
    (RawSummaryRequestStore.memory_session_id (payload row) = None ↔
       RawSummaryRequestStore.data_memory_session_id data = None ∨
       RawSummaryRequestStore.data_memory_session_id data = Some EmptyString) ∧
    (∀ m, m ≠ EmptyString →
          RawSummaryRequestStore.data_memory_session_id data = Some m →
          RawSummaryRequestStore.memory_session_id (payload row) = Some m) ∧
    (RawSummaryRequestStore.last_assistant_message (payload row) = None ↔
       RawSummaryRequestStore.data_last_assistant_message data = None ∨
       RawSummaryRequestStore.data_last_assistant_message data = Some EmptyString) ∧
    (∀ m, m ≠ EmptyString →
          RawSummaryRequestStore.data_last_assistant_message data = Some m →
          RawSummaryRequestStore.last_assistant_message (payload row) = Some m).
Proof.
  intros i s'. unfold i, s', RawSummaryRequestStore.getById.
  destruct (summary_insertRaw_unfold sessionDbId contentSessionId data now s) as [-> ->].
  eexists. split_and!; try reflexivity.
  - apply next_id_not_in.
  - rewrite find_row_insert by done. by rewrite decide_True.
  - intros j Hj. rewrite find_row_insert by done. by rewrite decide_False.
  - simpl. destruct (RawSummaryRequestStore.data_memory_session_id data) as [m|]; simpl.
    + destruct (String.eqb_spec m EmptyString) as [->|Hne]; split; try done.
      * by right.
      * intros [|[= ->]]; done.
    + split; [by left|done].
  - intros m Hm ->. simpl.
    destruct (String.eqb_spec m EmptyString) as [->|Hne]; done.
  - simpl. destruct (RawSummaryRequestStore.data_last_assistant_message data) as [m|]; simpl.
    + destruct (String.eqb_spec m EmptyString) as [->|Hne]; split; try done.
      * by right.
      * intros [|[= ->]]; done.
    + split; [by left|done].
  - intros m Hm ->. simpl.
    destruct (String.eqb_spec m EmptyString) as [->|Hne]; done.
Qed.

(** ** Counting rows *)

Lemma fold_set_stat (a b c d : Z) :
  foldl (λ result row, RawToolEventStore.set_stat result row.1 row.2)
    (RawToolEventStore.mkStats 0 0 0 0)
    (filter (λ sc : Status * Z, sc.2 ≠ 0)
       [(completed, a); (failed, b); (pending, c); (summarizing, d)])
  = RawToolEventStore.mkStats c d a b.
Proof.
  rewrite !filter_cons, filter_nil. simpl.
  destruct (decide (a ≠ 0)); destruct (decide (b ≠ 0));
    destruct (decide (c ≠ 0)); destruct (decide (d ≠ 0)); simpl;
    f_equal; lia.
Qed.

Lemma getStats_counts (s : RawToolEventStore.t) :
  RawToolEventStore.getStats s =
  RawToolEventStore.mkStats
    (rows_with_status pending (RawToolEventStore.db s))
    (rows_with_status summarizing (RawToolEventStore.db s))
    (rows_with_status completed (RawToolEventStore.db s))
    (rows_with_status failed (RawToolEventStore.db s)).
Proof.
  unfold RawToolEventStore.getStats, Queue.group_by_status. simpl fmap.
  apply fold_set_stat.
Qed.

(** X6.  [getStats] on the tool-event queue reports, for each of the four
    statuses, the number of rows that have it (0 for a status no row has),
    and the four numbers add up to the number of rows in the queue. *)
Theorem getStats_counts_every_row (s : RawToolEventStore.t) :
  let st := RawToolEventStore.getStats s in
  RawToolEventStore.stats_pending st = rows_with_status pending (RawToolEventStore.db s) ∧
  RawToolEventStore.stats_summarizing st =
    rows_with_status summarizing (RawToolEventStore.db s) ∧
  RawToolEventStore.stats_completed st =
    rows_with_status completed (RawToolEventStore.db s) ∧
  RawToolEventStore.stats_failed st = rows_with_status failed (RawToolEventStore.db s) ∧
  RawToolEventStore.stats_pending st + RawToolEventStore.stats_summarizing st +
    RawToolEventStore.stats_completed st + RawToolEventStore.stats_failed st
    = Z.of_nat (length (rows (RawToolEventStore.db s))) ∧
  RawToolEventStore.getPendingCount s = RawToolEventStore.stats_pending st ∧
  RawToolEventStore.getFailedCount s = RawToolEventStore.stats_failed st.
Proof.
  intros st. unfold st. rewrite getStats_counts. simpl.
  split_and!; try done. apply status_partition.
Qed.

Lemma fold_set_count (counts : list (Status * Z)) :
  NoDup counts.*1 →
  foldl (λ acc row, RawSummaryRequestStore.set_count acc row.1 row.2) [] counts = counts.
Proof.
  assert (∀ acc, NoDup (acc.*1 ++ counts.*1) →
            foldl (λ acc row, RawSummaryRequestStore.set_count acc row.1 row.2) acc counts
            = acc ++ counts) as H.
  { induction counts as [|[k v] counts IH]; intros acc Hnd; simpl.
    - by rewrite (right_id [] (++)).
    - unfold RawSummaryRequestStore.set_count at 2. simpl.
      simpl in Hnd. apply NoDup_app in Hnd as Hnd'. destruct Hnd' as (_ & Hdis & _).
      rewrite decide_False.
      + rewrite IH.
        * by rewrite <- (assoc (++)).
        * rewrite fmap_app. simpl. rewrite <- (assoc (++)). exact Hnd.
      + intros Hin. apply (Hdis k Hin). left. }
  intros Hnd. apply (H []). exact Hnd.
Qed.

Lemma group_by_status_keys {P} (t : Table P) : NoDup (Queue.group_by_status t).*1.
Proof.
  unfold Queue.group_by_status. simpl fmap.
  rewrite !filter_cons, filter_nil.
  repeat (destruct (decide _)); simpl; repeat constructor;
    rewrite ?not_elem_of_cons; repeat split; try done; apply not_elem_of_nil.
Qed.

Lemma count_of_group {P} (t : Table P) (s : Status) :
  RawSummaryRequestStore.count_of s (Queue.group_by_status t) =
  if decide (rows_with_status s t = 0) then None else Some (rows_with_status s t).
Proof.
  unfold RawSummaryRequestStore.count_of, Queue.group_by_status, Queue.count_status,
    Queue.changes, rows_with_status. simpl fmap.
  rewrite !filter_cons, filter_nil.
  destruct s; simpl;
    repeat (match goal with |- context [decide ?Q] => destruct (decide Q) end; simpl);
    try done; try lia; try congruence.
Qed.

(** X7.  [getStatusCounts] on the summary queue has a key for a status
    exactly when some row has that status, and then its value is the number
    of such rows: a status no row has is missing from the result, not 0. *)
Theorem getStatusCounts_omits_empty_statuses (s : RawSummaryRequestStore.t)
    (st : Status) :
  RawSummaryRequestStore.count_of st (RawSummaryRequestStore.getStatusCounts s) =
  if decide (rows_with_status st (RawSummaryRequestStore.db s) = 0) then None
  else Some (rows_with_status st (RawSummaryRequestStore.db s)).
Proof.
  unfold RawSummaryRequestStore.getStatusCounts.
  rewrite fold_set_count by apply group_by_status_keys.
  apply count_of_group.
Qed.

Section CountFacts.
Context {P : Type}.
Implicit Types (r : Row P) (t : Table P).

Lemma active_count t :
  Queue.changes Queue.active t = rows_with_status pending t + rows_with_status summarizing t.
Proof.
  unfold Queue.changes, rows_with_status.
  induction (rows t) as [|x l IH]; [done|]. rewrite !filter_cons.
  destruct (decide (Queue.active x)) as [Ha|Ha];
    destruct (decide (status x = pending)) as [Hp|Hp];
    destruct (decide (status x = summarizing)) as [Hs|Hs];
    unfold Queue.active in Ha; simpl; try lia; try congruence;
    exfalso; intuition congruence.
Qed.

Lemma changes_positive (c : Row P → Prop) `{!∀ r, Decision (c r)} t :
  Queue.changes c t > 0 ↔ ∃ r, r ∈ rows t ∧ c r.
Proof.
  unfold Queue.changes. split.
  - intros Hpos. destruct (filter c (rows t)) as [|r l] eqn:Hf; [simpl in Hpos; lia|].
    assert (r ∈ filter c (rows t)) as Hr by (rewrite Hf; left).
    apply list_elem_of_filter in Hr as [Hc Hr]. by exists r.
  - intros [r [Hr Hc]].
    assert (r ∈ filter c (rows t)) as Hin by by apply list_elem_of_filter.
    destruct (filter c (rows t)); [inversion Hin|simpl; lia].
Qed.

Lemma changes_none (c : Row P → Prop) `{!∀ r, Decision (c r)} t :
  (∀ r, r ∈ rows t → ¬ c r) → Queue.changes c t = 0.
Proof.
  intros Hnone. unfold Queue.changes.
  destruct (filter c (rows t)) as [|r l] eqn:Hf; [done|].
  assert (r ∈ filter c (rows t)) as Hr by (rewrite Hf; left).
  apply list_elem_of_filter in Hr as [Hc Hr]. by destruct (Hnone r Hr).
Qed.

(** Rows that all have status [s1] move to another status [s2]: the counts
    of [s1] and [s2] change by the number of rows moved, no other count
    changes. *)
Lemma move_counts (c : Row P → Prop) `{!∀ r, Decision (c r)} (s1 s2 s : Status) t :
  s1 ≠ s2 →
  (∀ r, r ∈ rows t → c r → status r = s1) →
  rows_with_status s (Queue.update_where c (Queue.set_status s2) t) =
  rows_with_status s t +
  (if decide (s = s2) then Queue.changes c t
   else if decide (s = s1) then - Queue.changes c t else 0).
Proof.
  intros Hne Hc. unfold rows_with_status, Queue.changes, Queue.update_where.
  cbn [rows]. induction (rows t) as [|x l IH].
  - simpl. repeat case_decide; done.
  - assert (∀ r, r ∈ l → c r → status r = s1) as Hc' by (intros; apply Hc; [by right|done]).
    specialize (IH Hc'). rewrite fmap_cons, !filter_cons.
    set (F' := filter (λ r, status r = s) (_ <$> l)) in *.
    set (F := filter (λ r, status r = s) l) in *.
    set (K := filter c l) in *. clearbody F' F K.
    destruct (decide (c x)) as [Hx|Hx]; simpl.
    + pose proof (Hc x ltac:(left) Hx) as Hs1.
      destruct (decide (s2 = s)) as [H2|H2]; destruct (decide (status x = s)) as [Hs|Hs];
        destruct (decide (s = s2)); destruct (decide (s = s1));
        simpl length; try congruence; lia.
    + destruct (decide (status x = s)); destruct (decide (s = s2));
        destruct (decide (s = s1)); simpl length; lia.
Qed.

Lemma filter_ids_length (L : list Z) (l : list (Row P)) :
  NoDup L → NoDup (Queue.ids l) → (∀ i, i ∈ L → i ∈ Queue.ids l) →
  length (filter (λ r, id r ∈ L) l) = length L.
Proof.
  intros HL Hl Hsub.
  assert (Queue.ids (filter (λ r, id r ∈ L) l) ≡ₚ L) as Hperm.
  { apply NoDup_Permutation; [|done|].
    - eapply submseteq_NoDup_ids; [|exact Hl].
      unfold Queue.ids. apply fmap_submseteq, sublist_submseteq, sublist_filter.
    - intros i. unfold Queue.ids. rewrite list_elem_of_fmap. split.
      + intros [r [-> Hr]]. by apply list_elem_of_filter in Hr as [? _].
      + intros Hi. pose proof (Hsub i Hi) as Hin.
        apply list_elem_of_fmap in Hin as [r [-> Hr]].
        exists r. split; [done|]. by apply list_elem_of_filter. }
  apply Permutation_length in Hperm. unfold Queue.ids in Hperm.
  by rewrite length_fmap in Hperm.
Qed.

Lemma claim_counts n t (s : Status) :
  unique_ids t →
  rows_with_status s (Queue.claimBatchForSummarization n t).2 =
  rows_with_status s t +
  (if decide (s = summarizing)
   then Z.of_nat (length (Queue.claimBatchForSummarization n t).1)
   else if decide (s = pending)
        then - Z.of_nat (length (Queue.claimBatchForSummarization n t).1) else 0).
Proof.
  intros Hnd. rewrite claim_table, claim_batch.
  rewrite (move_counts _ pending summarizing s) by
    (done || (intros r Hr Hc; apply select_pending_ids in Hc; [|done..];
              by apply select_pending_elem in Hc as [_ ?])).
  unfold Queue.changes. rewrite filter_ids_length.
  - unfold Queue.ids. by rewrite length_fmap.
  - by apply select_pending_NoDup.
  - exact Hnd.
  - intros i [b [-> Hb]]%list_elem_of_fmap.
    apply select_pending_elem in Hb as [Hb _]. by apply list_elem_of_fmap_2.
Qed.

End CountFacts.

(** X8.  On the summary queue [getPendingCount] counts the rows that are
    pending or summarizing, so [hasAnyPendingWork] holds exactly when some
    row is pending or summarizing, and whenever [hasPendingForSession] holds
    for some session; on the tool-event queue [getPendingCount] counts the
    pending rows only. *)
Theorem pending_work_includes_summarizing :
  (∀ s : RawSummaryRequestStore.t,
     RawSummaryRequestStore.getPendingCount s =
       rows_with_status pending (RawSummaryRequestStore.db s) +
       rows_with_status summarizing (RawSummaryRequestStore.db s)) ∧
  (∀ s : RawSummaryRequestStore.t,
     RawSummaryRequestStore.hasAnyPendingWork s = true ↔
     ∃ r, r ∈ rows (RawSummaryRequestStore.db s) ∧
          (status r = pending ∨ status r = summarizing)) ∧
  (∀ (s : RawSummaryRequestStore.t) sessionDbId,
     RawSummaryRequestStore.hasPendingForSession sessionDbId s = true ↔
     ∃ r, r ∈ rows (RawSummaryRequestStore.db s) ∧ session_db_id r = sessionDbId ∧
          (status r = pending ∨ status r = summarizing)) ∧
  (∀ s : RawToolEventStore.t,
     RawToolEventStore.getPendingCount s =
       rows_with_status pending (RawToolEventStore.db s)).
Proof.
  split_and!.
  - intros s. apply active_count.
  - intros s. unfold RawSummaryRequestStore.hasAnyPendingWork,
      RawSummaryRequestStore.getPendingCount.
    rewrite bool_decide_eq_true. apply changes_positive.
  - intros s sid. unfold RawSummaryRequestStore.hasPendingForSession.
    rewrite bool_decide_eq_true, changes_positive.
    unfold Queue.active. split; intros [r Hr]; exists r; tauto.
  - done.
Qed.

Section SessionFacts.
Context {P : Type}.
Implicit Types (r : Row P) (t : Table P).

Lemma select_session_spec sessionDbId t :
  Queue.select_session sessionDbId t ≡ₚ filter (λ r, session_db_id r = sessionDbId) (rows t) ∧
  StronglySorted created_le (Queue.select_session sessionDbId t).
Proof.
  unfold Queue.select_session. split.
  - apply order_by_created_at_perm.
  - apply order_by_created_at_sorted.
Qed.

End SessionFacts.

(** X9.  [getBySession sessionDbId] returns the rows of that session, each as
    often as the queue holds it and whatever its status, in ascending order
    of [created_at_epoch]; for a session without rows it returns the empty
    list. *)
Theorem getBySession_lists_the_session (sessionDbId : Z) (s : RawToolEventStore.t) :
  RawToolEventStore.getBySession sessionDbId s ≡ₚ
    filter (λ r, session_db_id r = sessionDbId) (rows (RawToolEventStore.db s)) ∧
  (∀ r, r ∈ RawToolEventStore.getBySession sessionDbId s ↔
        r ∈ rows (RawToolEventStore.db s) ∧ session_db_id r = sessionDbId) ∧
  StronglySorted created_le (RawToolEventStore.getBySession sessionDbId s) ∧
  ((∀ r, r ∈ rows (RawToolEventStore.db s) → session_db_id r ≠ sessionDbId) ↔
   RawToolEventStore.getBySession sessionDbId s = []).
Proof.
  unfold RawToolEventStore.getBySession.
  destruct (select_session_spec sessionDbId (RawToolEventStore.db s)) as [Hperm Hsorted].
  assert (∀ r, r ∈ Queue.select_session sessionDbId (RawToolEventStore.db s) ↔
               r ∈ rows (RawToolEventStore.db s) ∧ session_db_id r = sessionDbId) as Hmem.
  { intros r. rewrite Hperm, list_elem_of_filter. tauto. }
  split_and!; [done..|]. split.
  - intros Hnone. destruct (Queue.select_session _ _) as [|r l] eqn:Hsel; [done|].
    assert (r ∈ r :: l) as Hr by left. apply Hmem in Hr as [Hr Hs].
    by destruct (Hnone r Hr).
  - intros Hnil r Hr Hs. assert (r ∈ Queue.select_session sessionDbId (RawToolEventStore.db s))
      as Hin by by apply Hmem.
    rewrite Hnil in Hin. inversion Hin.
Qed.

(** X10.  Releasing twice is releasing once.  After [releaseStuckRequests] no
    row of the summary queue is summarizing and a second call changes nothing
    and returns 0; after [releaseStuckEvents] a second call with the same
    threshold and clock reading changes nothing and returns 0.  Neither
    changes the number of rows that are pending or summarizing. *)
Theorem releasing_twice_is_releasing_once :
  (∀ s : RawSummaryRequestStore.t,
     let s1 := (RawSummaryRequestStore.releaseStuckRequests s).2 in
     (∀ r, r ∈ rows (RawSummaryRequestStore.db s1) → status r ≠ summarizing) ∧
     RawSummaryRequestStore.releaseStuckRequests s1 = (0, s1) ∧
     RawSummaryRequestStore.getPendingCount s1 = RawSummaryRequestStore.getPendingCount s) ∧
  (∀ (s : RawToolEventStore.t) olderThanMs now,
     let s1 := (RawToolEventStore.releaseStuckEvents olderThanMs now s).2 in
     RawToolEventStore.releaseStuckEvents olderThanMs now s1 = (0, s1) ∧
     rows_with_status pending (RawToolEventStore.db s1) +
       rows_with_status summarizing (RawToolEventStore.db s1) =
     rows_with_status pending (RawToolEventStore.db s) +
       rows_with_status summarizing (RawToolEventStore.db s)).
Proof.
  split.
  - intros s s1.
    assert (∀ r, r ∈ rows (RawSummaryRequestStore.db s1) → status r ≠ summarizing) as Hnone.
    { intros r Hr. unfold s1 in Hr. simpl in Hr.
      apply (elem_of_update_where (λ r, status r = summarizing)) in Hr as [r0 [_ ->]].
      by case_decide. }
    split_and!; [done| |].
    + unfold RawSummaryRequestStore.releaseStuckRequests.
      rewrite (changes_none (λ r, status r = summarizing)) by done.
      rewrite (update_where_none (λ r, status r = summarizing)) by done.
      by destruct s1.
    + unfold RawSummaryRequestStore.getPendingCount. rewrite !active_count.
      unfold s1. simpl.
      rewrite !(move_counts (λ r, status r = summarizing) summarizing pending) by done.
      repeat case_decide; try done; lia.
  - intros s olderThanMs now s1.
    set (th := now - default 300000 olderThanMs).
    assert (∀ r, r ∈ rows (RawToolEventStore.db s1) → ¬ RawToolEventStore.stuck th r) as Hnone.
    { intros r Hr [Hs Hlt]. unfold s1 in Hr. simpl in Hr.
      apply (elem_of_update_where (RawToolEventStore.stuck th)) in Hr as [r0 [_ ->]].
      case_decide as Hc; [done|]. by apply Hc. }
    split.
    + unfold RawToolEventStore.releaseStuckEvents. fold th.
      rewrite (changes_none (RawToolEventStore.stuck th)) by done.
      rewrite (update_where_none (RawToolEventStore.stuck th)) by done.
      by destruct s1.
    + unfold s1. simpl. fold th.
      rewrite !(move_counts (RawToolEventStore.stuck th) summarizing pending)
        by (done || by intros r _ [? _]).
      repeat case_decide; try done; lia.
Qed.

(** X11.  Seen through [getStats], a claim moves exactly the rows it returns
    from pending to summarizing: [pending] drops and [summarizing] grows by
    the size of the batch, [completed] and [failed] stay. *)
Theorem claim_moves_batch_in_getStats (limit : nat) (s : RawToolEventStore.t) :
  unique_ids (RawToolEventStore.db s) →
  let batch := (RawToolEventStore.claimBatchForSummarization limit s).1 in
  let before := RawToolEventStore.getStats s in
  let after :=
    RawToolEventStore.getStats (RawToolEventStore.claimBatchForSummarization limit s).2 in
  RawToolEventStore.stats_pending after =
    RawToolEventStore.stats_pending before - Z.of_nat (length batch) ∧
  RawToolEventStore.stats_summarizing after =
    RawToolEventStore.stats_summarizing before + Z.of_nat (length batch) ∧
  RawToolEventStore.stats_completed after = RawToolEventStore.stats_completed before ∧
  RawToolEventStore.stats_failed after = RawToolEventStore.stats_failed before.
Proof.
  intros Hnd batch before after. unfold batch, before, after.
  rewrite !getStats_counts, store_claim_batch, store_claim_db. simpl.
  rewrite !claim_counts by done.
  repeat case_decide; try done; split_and!; lia.
Qed.

(** Of the three pending events a claim of two leaves one pending. *)
Lemma claim_moves_batch_in_getStats_witness :
  unique_ids (RawToolEventStore.db Scenario.three_pending) ∧
  RawToolEventStore.stats_pending (RawToolEventStore.getStats Scenario.three_pending) = 3 ∧
  RawToolEventStore.stats_pending
    (RawToolEventStore.getStats
       (RawToolEventStore.claimBatchForSummarization 2 Scenario.three_pending).2) =
  3 - Z.of_nat (length (RawToolEventStore.claimBatchForSummarization 2 Scenario.three_pending).1).
Proof.
  assert (unique_ids (RawToolEventStore.db Scenario.three_pending)) as Hnd.
  { apply (bool_decide_eq_true_1 _). vm_compute. reflexivity. }
  split_and!; [exact Hnd|vm_compute; reflexivity|].
  destruct (claim_moves_batch_in_getStats 2 Scenario.three_pending Hnd) as [Hp _].
  rewrite Hp. vm_compute. reflexivity.
Defined.

(** ** Grouping a batch by session *)

Section GroupFacts.
Import RawToolEventStore RawEventSummarizer.
Implicit Types (events : list RawToolEvent) (acc : list (Z * list RawToolEvent)).

Lemma add_key_perm {A} k (v : A) (o : list (Z * A)) : add_key k v o ≡ₚ (k, v) :: o.
Proof.
  induction o as [|[k' v'] o IH]; simpl; [done|].
  case_decide; [done|]. rewrite IH. apply Permutation_swap.
Qed.

Lemma push_to_key_keys key event acc : (push_to_key key event acc).*1 = acc.*1.
Proof.
  induction acc as [|[k es] acc IH]; [done|]. cbn [push_to_key].
  case_decide; rewrite !fmap_cons; [done|]. by f_equal.
Qed.

Lemma elem_of_push_to_key key event acc k g :
  NoDup acc.*1 →
  (k, g) ∈ push_to_key key event acc ↔
  (k ≠ key ∧ (k, g) ∈ acc) ∨ (k = key ∧ ∃ g0, (key, g0) ∈ acc ∧ g = g0 ++ [event]).
Proof.
  induction acc as [|[k' es] acc IH]; simpl; intros Hnd.
  - split; [by intros ?%elem_of_nil|].
    intros [[_ H]|[_ (g0 & H & _)]]; by apply elem_of_nil in H.
  - apply NoDup_cons in Hnd as [Hk' Hnd]. specialize (IH Hnd).
    assert (∀ x, (k', x) ∈ acc → False) as Hfresh.
    { intros x Hx. apply Hk'. apply list_elem_of_fmap. by exists (k', x). }
    case_decide as Hkey.
    + subst k'. split.
      * intros [[= -> ->]|Hin]%elem_of_cons.
        -- right. split; [done|]. exists es. split; [left|done].
        -- left. split; [|by right]. intros ->. by eapply Hfresh.
      * intros [[Hne Hin]|[-> (g0 & Hin & ->)]].
        -- apply elem_of_cons in Hin as [[= -> ->]|Hin]; [done|by right].
        -- apply elem_of_cons in Hin as [[= ->]|Hin]; [by left|].
           by destruct (Hfresh g0).
    + split.
      * intros [[= -> ->]|Hin]%elem_of_cons.
        -- left. split; [done|left].
        -- apply IH in Hin as [[Hne Hin]|[-> (g0 & Hin & ->)]].
           ++ left. split; [done|by right].
           ++ right. split; [done|]. exists g0. split; [by right|done].
      * intros [[Hne Hin]|[-> (g0 & Hin & ->)]].
        -- apply elem_of_cons in Hin as [[= -> ->]|Hin]; [by left|].
           right. apply IH. by left.
        -- apply elem_of_cons in Hin as [[= -> ->]|Hin]; [done|].
           right. apply IH. right. split; [done|]. by exists g0.
Qed.

Lemma filter_session_snoc k events event :
  filter (λ e : RawToolEvent, session_db_id e = k) (events ++ [event]) =
  filter (λ e : RawToolEvent, session_db_id e = k) events ++
  (if decide (session_db_id event = k) then [event] else []).
Proof. rewrite filter_app, filter_cons, filter_nil. by case_decide. Qed.

Lemma push_event_grouped events event acc :
  NoDup acc.*1 →
  (∀ k g, (k, g) ∈ acc ↔
          g = filter (λ e : RawToolEvent, session_db_id e = k) events ∧ g ≠ []) →
  NoDup (push_event acc event).*1 ∧
  (∀ k g, (k, g) ∈ push_event acc event ↔
          g = filter (λ e : RawToolEvent, session_db_id e = k) (events ++ [event]) ∧ g ≠ []).
Proof.
  intros Hnd Hacc. unfold push_event. case_decide as Hkey.
  - split; [by rewrite push_to_key_keys|]. intros k g.
    rewrite elem_of_push_to_key by done. rewrite filter_session_snoc.
    apply list_elem_of_fmap in Hkey as [[k0 g0] [Hk0 Hin0]]. simpl in Hk0. subst k0.
    pose proof (proj1 (Hacc _ _) Hin0) as [Hg0 Hne0].
    split.
    + intros [[Hne Hin]|[-> (g1 & Hin & ->)]].
      * apply Hacc in Hin as [-> Hg]. rewrite decide_False by done.
        by rewrite (right_id [] (++)).
      * apply Hacc in Hin as [-> Hg]. rewrite decide_True by done.
        split; [done|]. by destruct (filter _ events).
    + intros [-> Hg]. destruct (decide (session_db_id event = k)) as [Hk|Hk].
      * right. split; [done|]. exists g0. split; [done|]. by rewrite Hg0, Hk.
      * left. split; [done|]. rewrite (right_id [] (++)) in *. by apply Hacc.
  - assert (filter (λ e : RawToolEvent, session_db_id e = session_db_id event) events = [])
      as Hnone.
    { destruct (filter _ events) as [|x l] eqn:Hf; [done|]. destruct Hkey.
      apply list_elem_of_fmap. exists (session_db_id event, x :: l). split; [done|].
      apply Hacc. by rewrite Hf. }
    split.
    + rewrite add_key_perm. simpl. by apply NoDup_cons.
    + intros k g. rewrite add_key_perm, elem_of_cons, filter_session_snoc. split.
      * intros [[= -> ->]|Hin].
        -- rewrite Hnone, decide_True by done. done.
        -- assert (k ≠ session_db_id event) as Hne.
           { intros ->. apply Hkey, list_elem_of_fmap. by exists (session_db_id event, g). }
           apply Hacc in Hin as [-> Hg]. rewrite decide_False by done.
           by rewrite (right_id [] (++)).
      * intros [-> Hg]. destruct (decide (session_db_id event = k)) as [<-|Hk].
        -- left. by rewrite Hnone.
        -- right. rewrite (right_id [] (++)) in *. by apply Hacc.
Qed.

Lemma groupBySession_grouped events :
  NoDup (groupBySession events).*1 ∧
  (∀ k g, (k, g) ∈ groupBySession events ↔
          g = filter (λ e : RawToolEvent, session_db_id e = k) events ∧ g ≠ []).
Proof.
  unfold groupBySession.
  assert (∀ prefix acc,
            NoDup acc.*1 →
            (∀ k g, (k, g) ∈ acc ↔
                    g = filter (λ e : RawToolEvent, session_db_id e = k) prefix ∧ g ≠ []) →
            NoDup (foldl push_event acc events).*1 ∧
            (∀ k g, (k, g) ∈ foldl push_event acc events ↔
                    g = filter (λ e : RawToolEvent, session_db_id e = k) (prefix ++ events)
                    ∧ g ≠ [])) as H.
  { induction events as [|e es IH]; intros prefix acc Hnd Hacc; simpl.
    - split; [done|]. intros k g. rewrite (right_id [] (++)). apply Hacc.
    - destruct (push_event_grouped prefix e acc Hnd Hacc) as [Hnd' Hacc'].
      destruct (IH (prefix ++ [e]) _ Hnd' Hacc') as [H1 H2].
      split; [done|]. intros k g.
      replace (prefix ++ e :: es) with ((prefix ++ [e]) ++ es)
        by (by rewrite <- (assoc (++))).
      apply H2. }
  apply (H [] []); [constructor|].
  intros k g. rewrite filter_nil. split; [by intros ?%elem_of_nil|by intros [-> ?]].
Qed.

Lemma add_key_sorted {A} k (v : A) (o : list (Z * A)) :
  is_array_index k → Forall is_array_index o.*1 → k ∉ o.*1 →
  StronglySorted Z.lt o.*1 → StronglySorted Z.lt (add_key k v o).*1.
Proof.
  intros Hk. induction o as [|[k' v'] o IH]; simpl; intros Hall Hnew Hs.
  - repeat constructor.
  - apply Forall_cons in Hall as [Hk' Hall].
    apply not_elem_of_cons in Hnew as [Hne Hnew].
    apply StronglySorted_inv in Hs as [Hs Hlt].
    case_decide as Hc; simpl.
    + destruct Hc as [_ [Hc|Hc]]; [done|].
      constructor; [by constructor|]. constructor; [done|].
      eapply Forall_impl; [exact Hlt|]. simpl. intros; lia.
    + constructor; [by apply IH|].
      rewrite add_key_perm. simpl. constructor; [|done].
      assert (¬ k < k') by tauto. lia.
Qed.

End GroupFacts.

(** X12.  [groupBySession] partitions the batch: the keys of the result are
    distinct, they are the sessions that have an event in the batch, the
    group of a session holds exactly that session's events in batch order
    (so no group is empty), and the groups together hold every event of the
    batch as often as the batch does. *)
Theorem groupBySession_partitions (events : list RawToolEventStore.RawToolEvent) :
  NoDup (RawEventSummarizer.groupBySession events).*1 ∧
  (∀ k g, (k, g) ∈ RawEventSummarizer.groupBySession events ↔
          g = filter (λ e : RawToolEventStore.RawToolEvent, session_db_id e = k) events ∧
          g ≠ []) ∧
  (∀ k, k ∈ (RawEventSummarizer.groupBySession events).*1 ↔
        ∃ e, e ∈ events ∧ session_db_id e = k) ∧
  concat (RawEventSummarizer.groupBySession events).*2 ≡ₚ events.
Proof.
  destruct (groupBySession_grouped events) as [Hnd Hg].
  split_and!; [done|done| |apply groupBySession_concat].
  intros k. rewrite list_elem_of_fmap. split.
  - intros [[k' g] [-> Hin]]. apply Hg in Hin as [Hf Hne]. simpl.
    destruct g as [|e g]; [done|]. exists e.
    assert (e ∈ e :: g) as He by left. rewrite Hf in He.
    apply list_elem_of_filter in He. tauto.
  - intros [e [He Hk]].
    exists (k, filter (λ e : RawToolEventStore.RawToolEvent, session_db_id e = k) events).
    split; [done|]. apply Hg. split; [done|].
    assert (e ∈ filter (λ e : RawToolEventStore.RawToolEvent, session_db_id e = k) events)
      as Hin by by apply list_elem_of_filter.
    intros Hnil. rewrite Hnil in Hin. by apply elem_of_nil in Hin.
Qed.

Lemma StronglySorted_lookup_lt {A} (R : A → A → Prop) (l : list A) i j x y :
  StronglySorted R l → l !! i = Some x → l !! j = Some y → (i < j)%nat → R x y.
Proof.
  intros Hs. revert i j. induction Hs as [|a l Hs IH Ha]; intros i j Hi Hj Hij; [done|].
  destruct j as [|j]; [lia|]. destruct i as [|i]; simpl in *.
  - injection Hi as ->. rewrite Forall_forall in Ha. apply Ha.
    by eapply list_elem_of_lookup_2.
  - apply (IH i j); [done..|lia].
Qed.

Lemma groupBySession_sorted_keys (events : list RawToolEventStore.RawToolEvent) :
  Forall (λ e, RawEventSummarizer.is_array_index (session_db_id e)) events →
  StronglySorted Z.lt (RawEventSummarizer.groupBySession events).*1.
Proof.
  unfold RawEventSummarizer.groupBySession.
  assert (∀ acc : list (Z * list RawToolEventStore.RawToolEvent),
            Forall (λ e, RawEventSummarizer.is_array_index (session_db_id e)) events →
            Forall RawEventSummarizer.is_array_index acc.*1 →
            StronglySorted Z.lt acc.*1 →
            StronglySorted Z.lt (foldl RawEventSummarizer.push_event acc events).*1) as H.
  { induction events as [|e es IH]; intros acc Hev Hacc Hs; [done|].
    apply Forall_cons in Hev as [He Hev]. cbn [foldl]. apply IH; [done| |].
    - unfold RawEventSummarizer.push_event. case_decide.
      + by rewrite push_to_key_keys.
      + rewrite add_key_perm. simpl. by constructor.
    - unfold RawEventSummarizer.push_event. case_decide.
      + by rewrite push_to_key_keys.
      + by apply add_key_sorted. }
  intros Hev. apply (H []); [done|constructor|constructor].
Qed.

(** X13.  The groups of a batch come out of [Object.entries] in ascending
    order of session id when the session ids are array indices (0 to
    2^32 - 2), not in the order in which the sessions' events were claimed:
    the sessions of a batch are summarized by ascending session id. *)
Theorem groupBySession_orders_by_session_id
    (events : list RawToolEventStore.RawToolEvent) :
  Forall (λ e, 0 ≤ session_db_id e ≤ 4294967294) events →
  StronglySorted Z.lt (RawEventSummarizer.groupBySession events).*1 ∧
  (∀ i j k1 k2 g1 g2,
     RawEventSummarizer.groupBySession events !! i = Some (k1, g1) →
     RawEventSummarizer.groupBySession events !! j = Some (k2, g2) →
     (i < j)%nat → k1 < k2).
Proof.
  intros Hev. pose proof (groupBySession_sorted_keys events Hev) as Hs.
  split; [done|]. intros i j k1 k2 g1 g2 Hi Hj Hij.
  apply (StronglySorted_lookup_lt Z.lt _ i j _ _ Hs); [| |done].
  - by rewrite list_lookup_fmap, Hi.
  - by rewrite list_lookup_fmap, Hj.
Qed.

(** The claim on the queue of three events returns the events queued at 10
    (session 42), 20 (session 7) and 30 (session 42); session 7 is summarized
    first. *)
Lemma groupBySession_orders_by_session_id_witness :
  Forall (λ e : RawToolEventStore.RawToolEvent, 0 ≤ session_db_id e ≤ 4294967294)
    (RawToolEventStore.claimBatchForSummarization 10 Scenario.three_pending).1 ∧
  session_db_id <$> (RawToolEventStore.claimBatchForSummarization 10 Scenario.three_pending).1
    = [42; 7; 42] ∧
  (RawEventSummarizer.groupBySession
     (RawToolEventStore.claimBatchForSummarization 10 Scenario.three_pending).1).*1 = [7; 42] ∧
  StronglySorted Z.lt
    (RawEventSummarizer.groupBySession
       (RawToolEventStore.claimBatchForSummarization 10 Scenario.three_pending).1).*1.
Proof.
  assert (Forall (λ e : RawToolEventStore.RawToolEvent, 0 ≤ session_db_id e ≤ 4294967294)
            (RawToolEventStore.claimBatchForSummarization 10 Scenario.three_pending).1) as Hev.
  { apply (bool_decide_eq_true_1 _). vm_compute. reflexivity. }
  split_and!; [exact Hev|vm_compute; reflexivity|vm_compute; reflexivity|].
  exact (proj1 (groupBySession_orders_by_session_id _ Hev)).
Defined.

(** ** A tick settles what it claimed *)

Section SettlingFacts.
Context {P : Type}.
Implicit Types (r : Row P) (t : Table P) (L : list Z).

Lemma settles_with_nil (Q : Row P → Prop) t : settles_with Q [] t t.
Proof.
  split_and!; [done| |done]. intros r' Hr'. right. split; [apply not_elem_of_nil|done].
Qed.

Lemma settles_with_app (Q : Row P → Prop) L1 L2 t t1 t2 :
  settles_with Q L1 t t1 → settles_with Q L2 t1 t2 → settles_with Q (L1 ++ L2) t t2.
Proof.
  intros (Hid1 & Hb1 & Hf1) (Hid2 & Hb2 & Hf2). split_and!.
  - congruence.
  - intros r' Hr'. destruct (Hb2 r' Hr') as [[Hin Hs]|[Hnot Hr1]].
    + left. split; [|done]. apply elem_of_app. by right.
    + destruct (Hb1 r' Hr1) as [[Hin Hs]|[Hnot1 Hr0]].
      * left. split; [|done]. apply elem_of_app. by left.
      * right. split; [|done]. rewrite elem_of_app. tauto.
  - intros r Hr Hnot. rewrite elem_of_app in Hnot.
    apply Hf2; [|tauto]. apply Hf1; [done|tauto].
Qed.

Lemma settles_with_update (Q : Row P → Prop) i (f : Row P → Row P) t :
  (∀ r, id (f r) = id r ∧ Q (f r)) →
  settles_with Q [i] t (Queue.update_where (λ r, id r = i) f t).
Proof.
  intros Hf. split_and!.
  - apply ids_update_where. intros r. apply Hf.
  - intros r' Hr'. apply elem_of_update_where in Hr' as [r [Hr ->]].
    destruct (Hf r) as [Hid Hs]. case_decide as Hi.
    + left. split; [|done]. rewrite Hid, Hi. left.
    + right. split; [|done]. by rewrite list_elem_of_singleton.
  - intros r Hr Hi. apply elem_of_update_where. exists r. split; [done|].
    rewrite decide_False; [done|]. intros <-. apply Hi. left.
Qed.

Lemma settles_with_cons (Q : Row P → Prop) i L t t1 t2 :
  settles_with Q [i] t t1 → settles_with Q L t1 t2 → settles_with Q (i :: L) t t2.
Proof. apply (settles_with_app Q [i] L). Qed.

Lemma settles_with_impl (Q Q' : Row P → Prop) L t t' :
  (∀ r, Q r → Q' r) → settles_with Q L t t' → settles_with Q' L t t'.
Proof.
  intros HQ (Hid & Hb & Hf). split_and!; [done| |done].
  intros r' Hr'. destruct (Hb r' Hr') as [[? ?]|?]; [left|right]; auto.
Qed.

Lemma settles_nil t : settles [] t t.
Proof. apply settles_with_nil. Qed.

Lemma settles_app L1 L2 t t1 t2 :
  settles L1 t t1 → settles L2 t1 t2 → settles (L1 ++ L2) t t2.
Proof. apply settles_with_app. Qed.

Lemma markCompleted_completes_at i mid now t :
  settles_with (completed_at now) [i] t (Queue.markCompleted i mid now t).
Proof. apply settles_with_update. by intros r. Qed.

Lemma completed_at_settled now r : completed_at now r → status r ≠ summarizing.
Proof. intros [Hs _]. congruence. Qed.

Lemma markCompleted_settles i mid now t :
  settles [i] t (Queue.markCompleted i mid now t).
Proof.
  eapply settles_with_impl; [apply completed_at_settled|].
  apply markCompleted_completes_at.
Qed.

Lemma markFailed_settles m i msg t :
  settles [i] t (Queue.markFailed m i msg t).
Proof. unfold Queue.markFailed. case_decide; apply settles_with_update; by intros r. Qed.

Lemma settles_cons i L t t1 t2 :
  settles [i] t t1 → settles L t1 t2 → settles (i :: L) t t2.
Proof. apply (settles_app [i] L). Qed.

End SettlingFacts.

Section TickFacts.
Import RawToolEventStore RawEventSummarizer.
Implicit Types (w : Worker) (s : RawToolEventStore.t) (events : list RawToolEvent).

Lemma fail_events_settles message events s :
  settles (Queue.ids events) (db s)
    (db (foldl (λ s' (event : RawToolEvent), markFailed (id event) message s') s events)).
Proof.
  revert s. induction events as [|e es IH]; intros s; [apply settles_nil|].
  cbn [foldl]. eapply settles_cons; [|apply IH]. apply markFailed_settles.
Qed.

Lemma complete_with_zero_settles now events s :
  settles (Queue.ids events) (db s)
    (db (foldl (λ s' (event : RawToolEvent), markCompleted (id event) 0 now s') s events)).
Proof.
  revert s. induction events as [|e es IH]; intros s; [apply settles_nil|].
  cbn [foldl]. eapply settles_cons; [|apply IH]. apply markCompleted_settles.
Qed.

Lemma complete_events_settles observationIds now i events s :
  settles (Queue.ids events) (db s) (db (complete_events observationIds now i events s)).
Proof.
  revert i s. induction events as [|e es IH]; intros i s; [apply settles_nil|].
  cbn [complete_events]. eapply settles_cons; [|apply IH]. apply markCompleted_settles.
Qed.

Lemma summarizeSessionEvents_settles now a sessionDbId events w :
  let w' := summarizeSessionEvents now a sessionDbId events w in
  settles (Queue.ids events) (db (rawStore w)) (db (rawStore w')) ∧
  processed (stats w') + failed (stats w') =
    processed (stats w) + failed (stats w) + Z.of_nat (length events) ∧
  isProcessing w' = isProcessing w ∧ interval w' = interval w ∧
  batchCounter w' = batchCounter w ∧ batchSize w' = batchSize w ∧
  suspended w' = suspended w.
Proof.
  unfold summarizeSessionEvents.
  destruct (try_summarize now a sessionDbId events (rawStore w)) as [message|s'] eqn:Htry;
    simpl; (split; [|split_and!; try done; lia]).
  - apply fail_events_settles.
  - revert Htry. unfold try_summarize.
    destruct (getSessionById a) as [rec|]; [|done].
    destruct (string_or_null _); [|done].
    destruct (callLLM a) as [?|[response tokens]]; [done|].
    destruct events as [|e es]; [done|].
    case_decide.
    + intros [= <-]. exact (complete_with_zero_settles now (e :: es) (rawStore w)).
    + destruct (storeObservations a) as [?|observationIds]; [done|].
      intros [= <-].
      exact (complete_events_settles observationIds now 0 (e :: es) (rawStore w)).
Qed.

Lemma resume_settles now a w sessionDbId events rest :
  suspended w = (sessionDbId, events) :: rest →
  let w' := resume now a w in
  settles (Queue.ids events) (db (rawStore w)) (db (rawStore w')) ∧
  processed (stats w') + failed (stats w') =
    processed (stats w) + failed (stats w) + Z.of_nat (length events) ∧
  suspended w' = rest ∧
  (rest = [] → isProcessing w' = false ∧ lastRunAt (stats w') = Some now) ∧
  (rest ≠ [] → isProcessing w' = isProcessing w) ∧
  interval w' = interval w ∧ batchCounter w' = batchCounter w ∧
  batchSize w' = batchSize w.
Proof.
  intros Hs. unfold resume. rewrite Hs.
  destruct (summarizeSessionEvents_settles now a sessionDbId events w)
    as (H1 & H2 & H3 & H4 & H5 & H6 & H7).
  destruct rest as [|g rest]; simpl; split_and!; done.
Qed.

Lemma settle_all (settles_at : list (Z * Answers)) w :
  length settles_at = length (suspended w) →
  let w' := run w ((λ ta, Settle ta.1 ta.2) <$> settles_at) in
  settles (events_in_flight w) (db (rawStore w)) (db (rawStore w')) ∧
  processed (stats w') + failed (stats w') =
    processed (stats w) + failed (stats w) + Z.of_nat (length (events_in_flight w)) ∧
  suspended w' = [] ∧
  (suspended w ≠ [] → isProcessing w' = false) ∧
  (suspended w = [] → w' = w) ∧
  interval w' = interval w ∧ batchCounter w' = batchCounter w ∧
  batchSize w' = batchSize w.
Proof.
  revert w. induction settles_at as [|[now a] rest IH]; intros w Hlen.
  - destruct (suspended w) as [|g gs] eqn:Hs; [|done].
    unfold events_in_flight. rewrite Hs. simpl.
    split_and!; try done; [apply settles_nil|lia].
  - destruct (suspended w) as [|[sessionDbId events] gs] eqn:Hs; [done|].
    simpl in Hlen.
    destruct (resume_settles now a w sessionDbId events gs Hs)
      as (H1 & H2 & H3 & H4 & H5 & H6 & H7 & H8).
    assert (length rest = length (suspended (resume now a w))) as Hlen' by (rewrite H3; lia).
    specialize (IH (resume now a w) Hlen'). cbv zeta in IH.
    change (run w ((λ ta : Z * Answers, Settle ta.1 ta.2) <$> (now, a) :: rest))
      with (run (resume now a w) ((λ ta : Z * Answers, Settle ta.1 ta.2) <$> rest)).
    set (w' := run (resume now a w) _) in *.
    destruct IH as (I1 & I2 & I3 & I4 & I5 & I6 & I7 & I8).
    assert (events_in_flight w = Queue.ids events ++ events_in_flight (resume now a w)) as Hfl.
    { unfold events_in_flight. rewrite Hs, H3. simpl. unfold Queue.ids. by rewrite fmap_app. }
    split_and!.
    + rewrite Hfl. eapply settles_app; [exact H1|exact I1].
    + rewrite I2, H2, Hfl, length_app. unfold Queue.ids at 1. rewrite length_fmap. lia.
    + done.
    + intros _. destruct gs as [|g gs].
      * rewrite I5 by done. by apply H4.
      * apply I4. by rewrite H3.
    + done.
    + congruence.
    + congruence.
    + congruence.
Qed.

End TickFacts.

(** X14.  A tick of the event worker that is not skipped settles all it
    claimed.  When each of the [summarizeSessionEvents] calls the tick awaits
    has settled, whatever the collaborators answered: the reentrancy guard is
    clear and nothing is in flight; [processed + failed] has grown by the
    size of the batch; no claimed row is left summarizing (each is completed,
    failed, or pending again); the rows that were not claimed are as the
    claim left them and no row came or went. *)
Theorem tick_settles_every_claimed_event (now : Z) (w : RawEventSummarizer.Worker)
    (settles_at : list (Z * RawEventSummarizer.Answers)) :
  RawEventSummarizer.isProcessing w = false →
  let w1 := RawEventSummarizer.processBatch now w in
  length settles_at = length (RawEventSummarizer.suspended w1) →
  let w2 := RawEventSummarizer.run w1
              ((λ ta, RawEventSummarizer.Settle ta.1 ta.2) <$> settles_at) in
  RawEventSummarizer.isProcessing w2 = false ∧
  RawEventSummarizer.suspended w2 = [] ∧
  RawEventSummarizer.processed (RawEventSummarizer.stats w2) +
    RawEventSummarizer.failed (RawEventSummarizer.stats w2) =
  RawEventSummarizer.processed (RawEventSummarizer.stats w) +
    RawEventSummarizer.failed (RawEventSummarizer.stats w) +
    Z.of_nat (length (events_in_flight w1)) ∧
  settles (events_in_flight w1)
    (RawToolEventStore.db (RawEventSummarizer.rawStore w1))
    (RawToolEventStore.db (RawEventSummarizer.rawStore w2)) ∧
  RawEventSummarizer.batchCounter w2 = RawEventSummarizer.batchCounter w + 1.
Proof.
  intros Hidle w1 Hlen w2.
  destruct (settle_all settles_at w1 Hlen) as (H1 & H2 & H3 & H4 & H5 & H6 & H7 & H8).
  fold w2 in H1, H2, H3, H4, H5, H6, H7, H8.
  assert (RawEventSummarizer.batchCounter w1 = RawEventSummarizer.batchCounter w + 1 ∧
          RawEventSummarizer.processed (RawEventSummarizer.stats w1) +
            RawEventSummarizer.failed (RawEventSummarizer.stats w1) =
          RawEventSummarizer.processed (RawEventSummarizer.stats w) +
            RawEventSummarizer.failed (RawEventSummarizer.stats w) ∧
          (RawEventSummarizer.suspended w1 = [] → RawEventSummarizer.isProcessing w1 = false))
    as (Hc & Hst & Hempty).
  { unfold w1, RawEventSummarizer.processBatch. rewrite Hidle.
    set (w0 := if decide _ then _ else _).
    assert (RawEventSummarizer.processed (RawEventSummarizer.stats w0) +
              RawEventSummarizer.failed (RawEventSummarizer.stats w0) =
            RawEventSummarizer.processed (RawEventSummarizer.stats w) +
              RawEventSummarizer.failed (RawEventSummarizer.stats w)) as Hst0.
    { unfold w0. by case_decide. }
    destruct (RawToolEventStore.claimBatchForSummarization _ _) as [batch s].
    destruct batch as [|b batch]; simpl; split_and!; try done.
    intros Hnil. pose proof (groupBySession_concat (b :: batch)) as Hperm.
    rewrite Hnil in Hperm. simpl in Hperm. by apply Permutation_nil_cons in Hperm. }
  split_and!; try done.
  - destruct (RawEventSummarizer.suspended w1) as [|g gs] eqn:Hs.
    + rewrite H5 by done. by apply Hempty.
    + by apply H4.
  - lia.
  - congruence.
Qed.

(** The tick at 100 claims the three queued events; the group of session 7
    fails and goes back to pending, the group of session 42 is completed. *)
Lemma tick_settles_every_claimed_event_witness :
  RawEventSummarizer.isProcessing Scenario.three_queued = false ∧
  length Scenario.two_settles =
    length (RawEventSummarizer.suspended
              (RawEventSummarizer.processBatch 100 Scenario.three_queued)) ∧
  status <$> rows (RawToolEventStore.db (RawEventSummarizer.rawStore
    (RawEventSummarizer.run (RawEventSummarizer.processBatch 100 Scenario.three_queued)
       ((λ ta, RawEventSummarizer.Settle ta.1 ta.2) <$> Scenario.two_settles))))
    = [completed; pending; completed] ∧
  RawEventSummarizer.isProcessing
    (RawEventSummarizer.run (RawEventSummarizer.processBatch 100 Scenario.three_queued)
       ((λ ta, RawEventSummarizer.Settle ta.1 ta.2) <$> Scenario.two_settles)) = false.
Proof.
  split; [reflexivity|]. split; [reflexivity|]. split; [vm_compute; reflexivity|].
  exact (proj1 (tick_settles_every_claimed_event 100 Scenario.three_queued
                  Scenario.two_settles eq_refl eq_refl)).
Defined.

Section SummaryTickFacts.
Import RawSummaryRequestStore RawSummarySummarizer.
Implicit Types (w : Worker) (s : RawSummaryRequestStore.t).

Lemma summarizeRequest_settles now a (request : RawSummaryRequest) w :
  let w' := summarizeRequest now a request w in
  settles [id request] (db (rawStore w)) (db (rawStore w')) ∧
  processed (stats w') + failed (stats w') = processed (stats w) + failed (stats w) + 1 ∧
  isProcessing w' = isProcessing w ∧ interval w' = interval w ∧
  batchCounter w' = batchCounter w ∧ batchSize w' = batchSize w ∧
  suspended w' = suspended w.
Proof.
  unfold summarizeRequest.
  destruct (try_summarize now a request (rawStore w)) as [message|s'] eqn:Htry;
    simpl; (split; [|split_and!; try done; lia]).
  - apply markFailed_settles.
  - revert Htry. unfold try_summarize.
    destruct (callLLM a) as [?|[response tokens]]; [done|].
    destruct (parseSummary a); [|done].
    destruct (getSessionById a ≫= _); [|done].
    destruct (storeObservations a) as [?|summaryId]; [done|].
    intros [= <-]. apply markCompleted_settles.
Qed.

Lemma summary_resume_settles now a w (request : RawSummaryRequest) rest :
  suspended w = request :: rest →
  let w' := resume now a w in
  settles [id request] (db (rawStore w)) (db (rawStore w')) ∧
  processed (stats w') + failed (stats w') = processed (stats w) + failed (stats w) + 1 ∧
  suspended w' = rest ∧
  (rest = [] → isProcessing w' = false ∧ lastRunAt (stats w') = Some now) ∧
  (rest ≠ [] → isProcessing w' = isProcessing w) ∧
  interval w' = interval w ∧ batchCounter w' = batchCounter w ∧
  batchSize w' = batchSize w.
Proof.
  intros Hs. unfold resume. rewrite Hs.
  destruct (summarizeRequest_settles now a request w)
    as (H1 & H2 & H3 & H4 & H5 & H6 & H7).
  destruct rest as [|g rest]; simpl; split_and!; done.
Qed.

Lemma summary_settle_all (settles_at : list (Z * Answers)) w :
  length settles_at = length (suspended w) →
  let w' := run w ((λ ta, Settle ta.1 ta.2) <$> settles_at) in
  settles (requests_in_flight w) (db (rawStore w)) (db (rawStore w')) ∧
  processed (stats w') + failed (stats w') =
    processed (stats w) + failed (stats w) + Z.of_nat (length (suspended w)) ∧
  suspended w' = [] ∧
  (suspended w ≠ [] → isProcessing w' = false) ∧
  (suspended w = [] → w' = w) ∧
  interval w' = interval w ∧ batchCounter w' = batchCounter w ∧
  batchSize w' = batchSize w.
Proof.
  revert w. induction settles_at as [|[now a] rest IH]; intros w Hlen.
  - destruct (suspended w) as [|g gs] eqn:Hs; [|done].
    unfold requests_in_flight. rewrite Hs. simpl.
    split_and!; try done; [apply settles_nil|lia].
  - destruct (suspended w) as [|request gs] eqn:Hs; [done|].
    simpl in Hlen.
    destruct (summary_resume_settles now a w request gs Hs)
      as (H1 & H2 & H3 & H4 & H5 & H6 & H7 & H8).
    assert (length rest = length (suspended (resume now a w))) as Hlen' by (rewrite H3; lia).
    specialize (IH (resume now a w) Hlen'). cbv zeta in IH.
    change (run w ((λ ta : Z * Answers, Settle ta.1 ta.2) <$> (now, a) :: rest))
      with (run (resume now a w) ((λ ta : Z * Answers, Settle ta.1 ta.2) <$> rest)).
    set (w' := run (resume now a w) _) in *.
    destruct IH as (I1 & I2 & I3 & I4 & I5 & I6 & I7 & I8).
    assert (requests_in_flight w = [id request] ++ requests_in_flight (resume now a w)) as Hfl.
    { unfold requests_in_flight. by rewrite Hs, H3. }
    split_and!.
    + rewrite Hfl. eapply settles_app; [exact H1|exact I1].
    + rewrite I2, H2, H3. simpl length. lia.
    + done.
    + intros _. destruct gs as [|g gs].
      * rewrite I5 by done. by apply H4.
      * apply I4. by rewrite H3.
    + done.
    + congruence.
    + congruence.
    + congruence.
Qed.

End SummaryTickFacts.

(** X15.  A tick of the summary worker that is not skipped settles all it
    claimed.  When each of the [summarizeRequest] calls the tick awaits has
    settled, whatever the collaborators answered: the reentrancy guard is
    clear and nothing is in flight; [processed + failed] has grown by the
    number of requests claimed; no claimed request is left summarizing; the
    other rows are as the claim left them and no row came or went. *)
Theorem tick_settles_every_claimed_request (w : RawSummarySummarizer.Worker)
    (settles_at : list (Z * RawSummarySummarizer.Answers)) :
  RawSummarySummarizer.isProcessing w = false →
  let w1 := RawSummarySummarizer.processBatch w in
  length settles_at = length (RawSummarySummarizer.suspended w1) →
  let w2 := RawSummarySummarizer.run w1
              ((λ ta, RawSummarySummarizer.Settle ta.1 ta.2) <$> settles_at) in
  RawSummarySummarizer.isProcessing w2 = false ∧
  RawSummarySummarizer.suspended w2 = [] ∧
  RawSummarySummarizer.processed (RawSummarySummarizer.stats w2) +
    RawSummarySummarizer.failed (RawSummarySummarizer.stats w2) =
  RawSummarySummarizer.processed (RawSummarySummarizer.stats w) +
    RawSummarySummarizer.failed (RawSummarySummarizer.stats w) +
    Z.of_nat (length (requests_in_flight w1)) ∧
  settles (requests_in_flight w1)
    (RawSummaryRequestStore.db (RawSummarySummarizer.rawStore w1))
    (RawSummaryRequestStore.db (RawSummarySummarizer.rawStore w2)) ∧
  RawSummarySummarizer.batchCounter w2 = RawSummarySummarizer.batchCounter w + 1.
Proof.
  intros Hidle w1 Hlen w2.
  destruct (summary_settle_all settles_at w1 Hlen) as (H1 & H2 & H3 & H4 & H5 & H6 & H7 & H8).
  fold w2 in H1, H2, H3, H4, H5, H6, H7, H8.
  assert (RawSummarySummarizer.batchCounter w1 = RawSummarySummarizer.batchCounter w + 1 ∧
          RawSummarySummarizer.stats w1 = RawSummarySummarizer.stats w ∧
          (RawSummarySummarizer.suspended w1 = [] →
           RawSummarySummarizer.isProcessing w1 = false))
    as (Hc & Hst & Hempty).
  { unfold w1, RawSummarySummarizer.processBatch. rewrite Hidle.
    destruct (RawSummaryRequestStore.claimBatchForSummarization _ _) as [batch s].
    by destruct batch as [|b batch]. }
  split_and!; try done.
  - destruct (RawSummarySummarizer.suspended w1) as [|g gs] eqn:Hs.
    + rewrite H5 by done. by apply Hempty.
    + by apply H4.
  - rewrite H2, Hst. unfold requests_in_flight, Queue.ids. by rewrite length_fmap.
  - congruence.
Qed.

(** The first tick claims both queued requests; the first fails and goes back
    to pending, the second is completed. *)
Lemma tick_settles_every_claimed_request_witness :
  RawSummarySummarizer.isProcessing Scenario.two_requests = false ∧
  length Scenario.two_summary_settles =
    length (RawSummarySummarizer.suspended
              (RawSummarySummarizer.processBatch Scenario.two_requests)) ∧
  status <$> rows (RawSummaryRequestStore.db (RawSummarySummarizer.rawStore
    (RawSummarySummarizer.run (RawSummarySummarizer.processBatch Scenario.two_requests)
       ((λ ta, RawSummarySummarizer.Settle ta.1 ta.2) <$> Scenario.two_summary_settles))))
    = [pending; completed] ∧
  RawSummarySummarizer.isProcessing
    (RawSummarySummarizer.run (RawSummarySummarizer.processBatch Scenario.two_requests)
       ((λ ta, RawSummarySummarizer.Settle ta.1 ta.2) <$> Scenario.two_summary_settles)) = false.
Proof.
  split; [reflexivity|]. split; [reflexivity|]. split; [vm_compute; reflexivity|].
  exact (proj1 (tick_settles_every_claimed_request Scenario.two_requests
                  Scenario.two_summary_settles eq_refl eq_refl)).
Defined.

(** ** Rows stay *)

Section RowsStay.
Context {P : Type}.
Implicit Types (r : Row P) (t : Table P).

Lemma update_where_keeps (c : Row P → Prop) `{!∀ r, Decision (c r)} f t r :
  r ∈ rows t → ¬ c r → r ∈ rows (Queue.update_where c f t).
Proof.
  intros Hr Hc. apply elem_of_update_where. exists r. split; [done|].
  by rewrite decide_False.
Qed.

Lemma claim_ids n t :
  Queue.ids (rows (Queue.claimBatchForSummarization n t).2) = Queue.ids (rows t).
Proof. rewrite claim_table. by apply ids_update_where. Qed.

Lemma claim_keeps n t r :
  unique_ids t → r ∈ rows t → status r ≠ pending →
  r ∈ rows (Queue.claimBatchForSummarization n t).2.
Proof.
  intros Hnd Hr Hs. rewrite claim_table. apply update_where_keeps; [done|].
  intros Hc. apply select_pending_ids in Hc; [|done..].
  by apply select_pending_elem in Hc as [_ ?].
Qed.

Lemma insert_row_ids (mk : Z → Row P) t :
  (∀ i, id (mk i) = i) →
  Queue.ids (rows (Queue.insert_row mk t).2) = Queue.ids (rows t) ++ [Queue.next_id t].
Proof.
  intros Hmk. unfold Queue.insert_row, Queue.ids. simpl.
  rewrite fmap_app. simpl. by rewrite Hmk.
Qed.

Lemma insert_row_keeps (mk : Z → Row P) t r :
  r ∈ rows t → r ∈ rows (Queue.insert_row mk t).2.
Proof. intros Hr. unfold Queue.insert_row. simpl. apply elem_of_app. by left. Qed.

Lemma settles_keeps L t t' r :
  settles L t t' → unique_ids t → leased L t → r ∈ rows t → ¬ Queue.active r →
  r ∈ rows t'.
Proof.
  intros (_ & _ & Hf) Hnd Hl Hr Ha. apply Hf; [done|].
  intros Hin. apply Ha. by eapply leased_row.
Qed.

End RowsStay.

(** X16.  Rows leave the tool-event queue through the periodic cleanup only.
    A step of the worker or the intake leaves the ids of the queue as they
    are, in their order, except that [insertRaw] appends the new id and that
    a tick that is not skipped and whose count is a multiple of 100 first
    removes the rows that were completed more than an hour before. *)
Theorem event_rows_leave_only_by_cleanup (w : RawEventSummarizer.Worker)
    (e : RawEventSummarizer.Event) :
  let before := rows (RawToolEventStore.db (RawEventSummarizer.rawStore w)) in
  let after :=
    rows (RawToolEventStore.db (RawEventSummarizer.rawStore (RawEventSummarizer.step w e))) in
  match e with
  | RawEventSummarizer.Insert now sessionDbId contentSessionId data =>
      Queue.ids after =
      Queue.ids before ++
        [Queue.next_id (RawToolEventStore.db (RawEventSummarizer.rawStore w))]
  | RawEventSummarizer.Tick now =>
      if decide (RawEventSummarizer.isProcessing w = false ∧
                 Z.rem (RawEventSummarizer.batchCounter w + 1) 100 = 0)
      then Queue.ids after =
           Queue.ids (filter (λ r, ¬ Queue.deletable (now - 3600000) r) before)
      else Queue.ids after = Queue.ids before
  | _ => Queue.ids after = Queue.ids before
  end.
Proof.
  intros before after. unfold before, after.
  destruct e as [now sid csid data|now| |now|now a|];
    cbn [RawEventSummarizer.step].
  - unfold RawEventSummarizer.with_store. cbn [RawEventSummarizer.rawStore].
    destruct (tool_insertRaw_unfold sid csid data now (RawEventSummarizer.rawStore w))
      as (c & _ & -> & _). by apply insert_row_ids.
  - unfold RawEventSummarizer.start. destruct (RawEventSummarizer.interval w); [done|].
    simpl. by apply ids_update_where.
  - done.
  - unfold RawEventSummarizer.processBatch.
    destruct (RawEventSummarizer.isProcessing w).
    { rewrite decide_False; [done|]. by intros [? _]. }
    unfold RawEventSummarizer.cleanupEveryNBatches.
    destruct (decide (Z.rem (RawEventSummarizer.batchCounter w + 1) 100 = 0)) as [Hc|Hc].
    + rewrite decide_True by done.
      unfold RawToolEventStore.claimBatchForSummarization.
      pose proof (claim_ids (RawEventSummarizer.batchSize w)
        (RawToolEventStore.db (RawEventSummarizer.rawStore
           (RawEventSummarizer.cleanupCompletedEvents now
              (RawEventSummarizer.mkWorker (RawEventSummarizer.rawStore w)
                 (RawEventSummarizer.interval w) true (RawEventSummarizer.stats w)
                 (RawEventSummarizer.batchCounter w + 1)
                 (RawEventSummarizer.batchSize w) []))))) as Hids.
      simpl in *.
      destruct (Queue.claimBatchForSummarization _ _) as [batch d].
      simpl in Hids. by destruct batch.
    + rewrite decide_False by tauto.
      unfold RawToolEventStore.claimBatchForSummarization.
      pose proof (claim_ids (RawEventSummarizer.batchSize w)
        (RawToolEventStore.db (RawEventSummarizer.rawStore w))) as Hids.
      simpl in *.
      destruct (Queue.claimBatchForSummarization _ _) as [batch d].
      simpl in Hids. by destruct batch.
  - destruct (RawEventSummarizer.suspended w) as [|[sessionDbId events] rest] eqn:Hs.
    + unfold RawEventSummarizer.resume. by rewrite Hs.
    + by destruct (resume_settles now a w sessionDbId events rest Hs) as ((? & _) & _).
  - done.
Qed.

Lemma summary_step_ids (w : RawSummarySummarizer.Worker) (e : RawSummarySummarizer.Event) :
  ∃ new,
    Queue.ids (rows (RawSummaryRequestStore.db
                       (RawSummarySummarizer.rawStore (RawSummarySummarizer.step w e)))) =
    Queue.ids (rows (RawSummaryRequestStore.db (RawSummarySummarizer.rawStore w))) ++ new.
Proof.
  destruct e as [now sid csid data|now sid csid data| | | |now a|];
    cbn [RawSummarySummarizer.step].
  - exists [Queue.next_id (RawSummaryRequestStore.db (RawSummarySummarizer.rawStore w))].
    unfold RawSummarySummarizer.with_store. cbn [RawSummarySummarizer.rawStore].
    destruct (summary_insertRaw_unfold sid csid data now (RawSummarySummarizer.rawStore w))
      as [_ ->]. by apply insert_row_ids.
  - unfold RawSummarySummarizer.postSummary.
    destruct (RawSummaryRequestStore.hasPendingForSession _ _).
    + exists []. by rewrite (right_id [] (++)).
    + exists [Queue.next_id (RawSummaryRequestStore.db (RawSummarySummarizer.rawStore w))].
      pose proof (summary_insertRaw_unfold sid csid data now (RawSummarySummarizer.rawStore w))
        as [_ Hdb].
      destruct (RawSummaryRequestStore.insertRaw _ _ _ _ _) as [i s'].
      unfold RawSummarySummarizer.with_store. cbn [RawSummarySummarizer.rawStore snd] in *.
      rewrite Hdb. by apply insert_row_ids.
  - exists []. rewrite (right_id [] (++)).
    unfold RawSummarySummarizer.start. destruct (RawSummarySummarizer.interval w); [done|].
    simpl. by apply ids_update_where.
  - exists []. by rewrite (right_id [] (++)).
  - exists []. rewrite (right_id [] (++)).
    unfold RawSummarySummarizer.processBatch.
    destruct (RawSummarySummarizer.isProcessing w); [done|].
    assert (Queue.ids (rows (RawSummaryRequestStore.db
              (RawSummarySummarizer.stale_check (RawSummarySummarizer.batchCounter w + 1)
                 (RawSummarySummarizer.rawStore w)))) =
            Queue.ids (rows (RawSummaryRequestStore.db (RawSummarySummarizer.rawStore w))))
      as Hstale.
    { unfold RawSummarySummarizer.stale_check. case_decide; [|done].
      simpl. by apply ids_update_where. }
    unfold RawSummaryRequestStore.claimBatchForSummarization.
    pose proof (claim_ids (RawSummarySummarizer.batchSize w)
      (RawSummaryRequestStore.db
         (RawSummarySummarizer.stale_check (RawSummarySummarizer.batchCounter w + 1)
            (RawSummarySummarizer.rawStore w)))) as Hids.
    destruct (Queue.claimBatchForSummarization _ _) as [batch d].
    simpl in Hids. rewrite <- Hstale, <- Hids. by destruct batch.
  - exists []. rewrite (right_id [] (++)).
    destruct (RawSummarySummarizer.suspended w) as [|request rest] eqn:Hs.
    + unfold RawSummarySummarizer.resume. by rewrite Hs.
    + by destruct (summary_resume_settles now a w request rest Hs) as ((? & _) & _).
  - exists []. by rewrite (right_id [] (++)).
Qed.

(** X17.  The summary queue never forgets a request.  Whatever the intake
    and the worker do (queueing, [start], [stop], ticks, settlements,
    restarts), the ids in the queue before are the first ids in the queue
    after, in the same order: no row is ever removed, completed and failed
    requests included. *)
Theorem summary_queue_never_forgets (w : RawSummarySummarizer.Worker)
    (es : list RawSummarySummarizer.Event) :
  Queue.ids (rows (RawSummaryRequestStore.db (RawSummarySummarizer.rawStore w)))
    `prefix_of`
  Queue.ids (rows (RawSummaryRequestStore.db
                     (RawSummarySummarizer.rawStore (RawSummarySummarizer.run w es)))).
Proof.
  unfold RawSummarySummarizer.run. revert w.
  induction es as [|e es IH]; intros w; [done|]. cbn [foldl].
  etrans; [|apply IH]. destruct (summary_step_ids w e) as [new ->].
  by apply prefix_app_r.
Qed.

(** ** Leases, whatever the retry counts *)

Section HoldFacts.
Context {P : Type}.
Implicit Types (r : Row P) (t : Table P) (L : list Z).

Lemma settles_holds (Q : Row P → Prop) L1 L2 t t' :
  settles_with Q L1 t t' → holds_lease (L1 ++ L2) t → holds_lease L2 t'.
Proof.
  intros (Hids & _ & Hf) (Hnd & HL & Hl).
  apply NoDup_app in HL as (_ & Hdis & HL2). split_and!.
  - unfold unique_ids. by rewrite Hids.
  - done.
  - intros i Hi. destruct (Hl i) as (r & Hr & Hid & Ha); [apply elem_of_app; by right|].
    exists r. split_and!; [|done..]. apply Hf; [done|].
    rewrite Hid. intros Hin. by apply (Hdis i).
Qed.

Lemma claim_holds n t :
  unique_ids t →
  holds_lease (Queue.ids (Queue.claimBatchForSummarization n t).1)
    (Queue.claimBatchForSummarization n t).2.
Proof.
  intros Hnd. split_and!.
  - unfold unique_ids. by rewrite claim_ids.
  - rewrite claim_batch. by apply select_pending_NoDup.
  - rewrite claim_batch, claim_table. intros i Hi.
    apply list_elem_of_fmap in Hi as [b [-> Hb]]. pose proof Hb as Hb'.
    apply select_pending_elem in Hb as [Hb _].
    exists (Queue.set_status summarizing b). split_and!; [|done|by right].
    apply elem_of_update_where. exists b. split; [done|].
    rewrite decide_True; [done|]. by apply list_elem_of_fmap_2.
Qed.

Lemma release_holds L (c : Row P → Prop) `{!∀ r, Decision (c r)} t :
  holds_lease L t → holds_lease L (Queue.update_where c (Queue.set_status pending) t).
Proof.
  intros (Hnd & HL & Hl). split_and!; [|done|].
  - unfold unique_ids. by rewrite ids_update_where.
  - apply leased_update; [done| |done]. intros. by left.
Qed.

Lemma delete_unique o t : unique_ids t → unique_ids (Queue.deleteCompleted o t).2.
Proof.
  intros Hnd. unfold unique_ids, Queue.deleteCompleted. simpl.
  eapply submseteq_NoDup_ids; [|exact Hnd].
  unfold Queue.ids. apply fmap_submseteq, sublist_submseteq, sublist_filter.
Qed.

Lemma insert_holds L (mk : Z → Row P) t :
  (∀ i, id (mk i) = i) → holds_lease L t → holds_lease L (Queue.insert_row mk t).2.
Proof.
  intros Hmk (Hnd & HL & Hl). split_and!; [|done|].
  - unfold unique_ids. rewrite insert_row_ids by done.
    apply NoDup_app. split_and!; [done| |apply NoDup_singleton].
    intros i Hi Hin. apply list_elem_of_singleton in Hin as ->.
    by apply (next_id_not_in t).
  - intros i Hi. destruct (Hl i Hi) as (r & Hr & Hid & Ha).
    exists r. split_and!; [|done..]. by apply insert_row_keeps.
Qed.

Lemma holds_lease_nil t : unique_ids t → holds_lease [] t.
Proof. intros Hnd. split_and!; [done|constructor|]. by intros i ?%elem_of_nil. Qed.

Lemma holds_lease_perm L L' t : L ≡ₚ L' → holds_lease L t → holds_lease L' t.
Proof.
  intros HL (Hnd & HnL & Hl). split_and!; [done|by rewrite <- HL|].
  intros i Hi. apply Hl. by rewrite HL.
Qed.

End HoldFacts.

Section WorkersHold.

Lemma event_step_holds (w : RawEventSummarizer.Worker) (e : RawEventSummarizer.Event) :
  holds_lease (events_in_flight w) (RawToolEventStore.db (RawEventSummarizer.rawStore w)) →
  holds_lease (events_in_flight (RawEventSummarizer.step w e))
    (RawToolEventStore.db (RawEventSummarizer.rawStore (RawEventSummarizer.step w e))).
Proof.
  intros Hok. destruct e as [now sid csid data|now| |now|now a|];
    cbn [RawEventSummarizer.step].
  - unfold RawEventSummarizer.with_store, events_in_flight.
    cbn [RawEventSummarizer.rawStore RawEventSummarizer.suspended].
    destruct (tool_insertRaw_unfold sid csid data now (RawEventSummarizer.rawStore w))
      as (c & _ & -> & _). by apply insert_holds.
  - unfold RawEventSummarizer.start. destruct (RawEventSummarizer.interval w); [done|].
    simpl. by apply release_holds.
  - done.
  - unfold RawEventSummarizer.processBatch.
    destruct (RawEventSummarizer.isProcessing w); [done|].
    set (w2 := if decide _ then _ else _).
    assert (unique_ids (RawToolEventStore.db (RawEventSummarizer.rawStore w2))) as Hnd2.
    { unfold w2. case_decide; simpl; [|apply Hok].
      apply delete_unique, Hok. }
    unfold RawToolEventStore.claimBatchForSummarization.
    pose proof (claim_holds (RawEventSummarizer.batchSize w2) _ Hnd2) as Hclaim.
    destruct (Queue.claimBatchForSummarization _ _) as [batch d]. simpl in Hclaim.
    destruct batch as [|b batch]; unfold events_in_flight; simpl.
    + exact Hclaim.
    + eapply holds_lease_perm; [|exact Hclaim].
      unfold Queue.ids. by rewrite groupBySession_concat.
  - destruct (RawEventSummarizer.suspended w) as [|[sessionDbId events] rest] eqn:Hs.
    + unfold RawEventSummarizer.resume. by rewrite Hs.
    + destruct (resume_settles now a w sessionDbId events rest Hs) as (Hset & _ & Hrest & _).
      cbv zeta in Hset, Hrest. unfold events_in_flight in *. rewrite Hrest.
      rewrite Hs in Hok. simpl in Hok. unfold Queue.ids in Hok. rewrite fmap_app in Hok.
      eapply settles_holds; [exact Hset|exact Hok].
  - unfold events_in_flight. simpl. apply holds_lease_nil, Hok.
Qed.

Lemma event_run_holds (maxRetries maxResponseLength : option Z) (batchSize : option nat)
    (es : list RawEventSummarizer.Event) :
  let w := RawEventSummarizer.run
             (RawEventSummarizer.new
                (RawToolEventStore.new Queue.empty maxRetries maxResponseLength) batchSize)
             es in
  holds_lease (events_in_flight w) (RawToolEventStore.db (RawEventSummarizer.rawStore w)).
Proof.
  intros w. subst w. unfold RawEventSummarizer.run. rewrite <- (reverse_involutive es).
  induction (reverse es) as [|e es' IH].
  - apply holds_lease_nil. constructor.
  - rewrite reverse_cons, foldl_app. cbn [foldl]. by apply event_step_holds.
Qed.

Lemma summary_step_holds (w : RawSummarySummarizer.Worker)
    (e : RawSummarySummarizer.Event) :
  holds_lease (requests_in_flight w)
    (RawSummaryRequestStore.db (RawSummarySummarizer.rawStore w)) →
  holds_lease (requests_in_flight (RawSummarySummarizer.step w e))
    (RawSummaryRequestStore.db
       (RawSummarySummarizer.rawStore (RawSummarySummarizer.step w e))).
Proof.
  intros Hok. destruct e as [now sid csid data|now sid csid data| | | |now a|];
    cbn [RawSummarySummarizer.step].
  - unfold RawSummarySummarizer.with_store, requests_in_flight.
    cbn [RawSummarySummarizer.rawStore RawSummarySummarizer.suspended].
    destruct (summary_insertRaw_unfold sid csid data now (RawSummarySummarizer.rawStore w))
      as [_ ->]. by apply insert_holds.
  - unfold RawSummarySummarizer.postSummary.
    destruct (RawSummaryRequestStore.hasPendingForSession _ _); [by destruct w|].
    pose proof (summary_insertRaw_unfold sid csid data now (RawSummarySummarizer.rawStore w))
      as [_ Hdb].
    destruct (RawSummaryRequestStore.insertRaw _ _ _ _ _) as [i s'].
    unfold RawSummarySummarizer.with_store, requests_in_flight.
    cbn [RawSummarySummarizer.rawStore RawSummarySummarizer.suspended snd] in *.
    rewrite Hdb. by apply insert_holds.
  - unfold RawSummarySummarizer.start. destruct (RawSummarySummarizer.interval w); [done|].
    simpl. by apply release_holds.
  - done.
  - unfold RawSummarySummarizer.processBatch.
    destruct (RawSummarySummarizer.isProcessing w); [done|].
    assert (unique_ids (RawSummaryRequestStore.db
              (RawSummarySummarizer.stale_check (RawSummarySummarizer.batchCounter w + 1)
                 (RawSummarySummarizer.rawStore w)))) as Hnd2.
    { unfold RawSummarySummarizer.stale_check. case_decide; simpl; [|apply Hok].
      unfold unique_ids. rewrite ids_update_where by done. apply Hok. }
    unfold RawSummaryRequestStore.claimBatchForSummarization.
    pose proof (claim_holds (RawSummarySummarizer.batchSize w) _ Hnd2) as Hclaim.
    destruct (Queue.claimBatchForSummarization _ _) as [batch d]. simpl in Hclaim.
    destruct batch as [|b batch]; unfold requests_in_flight; simpl; exact Hclaim.
  - destruct (RawSummarySummarizer.suspended w) as [|request rest] eqn:Hs.
    + unfold RawSummarySummarizer.resume. by rewrite Hs.
    + destruct (summary_resume_settles now a w request rest Hs) as (Hset & _ & Hrest & _).
      cbv zeta in Hset, Hrest. unfold requests_in_flight in *. rewrite Hrest.
      rewrite Hs in Hok. simpl in Hok.
      eapply (settles_holds _ [id request]); [exact Hset|exact Hok].
  - unfold requests_in_flight. simpl. apply holds_lease_nil, Hok.
Qed.

Lemma summary_run_holds (maxRetries : option Z) (batchSize : option nat)
    (es : list RawSummarySummarizer.Event) :
  let w := RawSummarySummarizer.run
             (RawSummarySummarizer.new
                (RawSummaryRequestStore.new Queue.empty maxRetries) batchSize) es in
  holds_lease (requests_in_flight w)
    (RawSummaryRequestStore.db (RawSummarySummarizer.rawStore w)).
Proof.
  intros w. subst w. unfold RawSummarySummarizer.run. rewrite <- (reverse_involutive es).
  induction (reverse es) as [|e es' IH].
  - apply holds_lease_nil. constructor.
  - rewrite reverse_cons, foldl_app. cbn [foldl]. by apply summary_step_holds.
Qed.

End WorkersHold.

(** ** Terminal rows *)

Section TerminalFacts.

Lemma event_step_keeps_failed (w : RawEventSummarizer.Worker)
    (e : RawEventSummarizer.Event) (r : RawToolEventStore.RawToolEvent) :
  holds_lease (events_in_flight w) (RawToolEventStore.db (RawEventSummarizer.rawStore w)) →
  r ∈ rows (RawToolEventStore.db (RawEventSummarizer.rawStore w)) →
  status r = failed →
  r ∈ rows (RawToolEventStore.db (RawEventSummarizer.rawStore (RawEventSummarizer.step w e))).
Proof.
  intros (Hnd & HL & Hl) Hr Hs.
  destruct e as [now sid csid data|now| |now|now a|];
    cbn [RawEventSummarizer.step].
  - unfold RawEventSummarizer.with_store. cbn [RawEventSummarizer.rawStore].
    destruct (tool_insertRaw_unfold sid csid data now (RawEventSummarizer.rawStore w))
      as (c & _ & -> & _). by apply insert_row_keeps.
  - unfold RawEventSummarizer.start. destruct (RawEventSummarizer.interval w); [done|].
    simpl. apply update_where_keeps; [done|]. intros [Hc _]. congruence.
  - done.
  - unfold RawEventSummarizer.processBatch.
    destruct (RawEventSummarizer.isProcessing w); [done|].
    set (w2 := if decide _ then _ else _).
    assert (unique_ids (RawToolEventStore.db (RawEventSummarizer.rawStore w2)) ∧
            r ∈ rows (RawToolEventStore.db (RawEventSummarizer.rawStore w2))) as [Hnd2 Hr2].
    { unfold w2. case_decide; simpl; [|done]. split.
      - unfold unique_ids. simpl. eapply submseteq_NoDup_ids; [|exact Hnd].
        unfold Queue.ids. apply fmap_submseteq, sublist_submseteq, sublist_filter.
      - apply list_elem_of_filter. split; [|done]. intros [Hc _]. congruence. }
    unfold RawToolEventStore.claimBatchForSummarization.
    pose proof (claim_keeps (RawEventSummarizer.batchSize w2) _ r Hnd2 Hr2) as Hk.
    destruct (Queue.claimBatchForSummarization _ _) as [batch d].
    simpl in Hk. destruct batch; simpl; apply Hk; congruence.
  - destruct (RawEventSummarizer.suspended w) as [|[sessionDbId events] rest] eqn:Hsusp.
    + unfold RawEventSummarizer.resume. by rewrite Hsusp.
    + destruct (resume_settles now a w sessionDbId events rest Hsusp) as (Hset & _).
      eapply settles_keeps; [exact Hset|done| |done|].
      * intros i Hi. apply Hl. unfold events_in_flight. rewrite Hsusp. simpl.
        unfold Queue.ids. rewrite fmap_app. apply elem_of_app. by left.
      * unfold Queue.active. intros [|]; congruence.
  - done.
Qed.

Lemma summary_step_keeps_terminal (w : RawSummarySummarizer.Worker)
    (e : RawSummarySummarizer.Event) (r : RawSummaryRequestStore.RawSummaryRequest) :
  holds_lease (requests_in_flight w)
    (RawSummaryRequestStore.db (RawSummarySummarizer.rawStore w)) →
  r ∈ rows (RawSummaryRequestStore.db (RawSummarySummarizer.rawStore w)) →
  status r = failed ∨ status r = completed →
  r ∈ rows (RawSummaryRequestStore.db
              (RawSummarySummarizer.rawStore (RawSummarySummarizer.step w e))).
Proof.
  intros (Hnd & HL & Hl) Hr Hs.
  destruct e as [now sid csid data|now sid csid data| | | |now a|];
    cbn [RawSummarySummarizer.step].
  - unfold RawSummarySummarizer.with_store. cbn [RawSummarySummarizer.rawStore].
    destruct (summary_insertRaw_unfold sid csid data now (RawSummarySummarizer.rawStore w))
      as [_ ->]. by apply insert_row_keeps.
  - unfold RawSummarySummarizer.postSummary.
    destruct (RawSummaryRequestStore.hasPendingForSession _ _); [done|].
    pose proof (summary_insertRaw_unfold sid csid data now (RawSummarySummarizer.rawStore w))
      as [_ Hdb].
    destruct (RawSummaryRequestStore.insertRaw _ _ _ _ _) as [i s'].
    unfold RawSummarySummarizer.with_store. cbn [RawSummarySummarizer.rawStore snd] in *.
    rewrite Hdb. by apply insert_row_keeps.
  - unfold RawSummarySummarizer.start. destruct (RawSummarySummarizer.interval w); [done|].
    simpl. apply update_where_keeps; [done|]. destruct Hs; congruence.
  - done.
  - unfold RawSummarySummarizer.processBatch.
    destruct (RawSummarySummarizer.isProcessing w); [done|].
    assert (unique_ids (RawSummaryRequestStore.db
              (RawSummarySummarizer.stale_check (RawSummarySummarizer.batchCounter w + 1)
                 (RawSummarySummarizer.rawStore w))) ∧
            r ∈ rows (RawSummaryRequestStore.db
              (RawSummarySummarizer.stale_check (RawSummarySummarizer.batchCounter w + 1)
                 (RawSummarySummarizer.rawStore w)))) as [Hnd2 Hr2].
    { unfold RawSummarySummarizer.stale_check. case_decide; simpl; [|done]. split.
      - unfold unique_ids. by rewrite ids_update_where.
      - apply update_where_keeps; [done|]. destruct Hs; congruence. }
    unfold RawSummaryRequestStore.claimBatchForSummarization.
    pose proof (claim_keeps (RawSummarySummarizer.batchSize w) _ r Hnd2 Hr2) as Hk.
    destruct (Queue.claimBatchForSummarization _ _) as [batch d].
    simpl in Hk. destruct batch; simpl; apply Hk; destruct Hs; congruence.
  - destruct (RawSummarySummarizer.suspended w) as [|request rest] eqn:Hsusp.
    + unfold RawSummarySummarizer.resume. by rewrite Hsusp.
    + destruct (summary_resume_settles now a w request rest Hsusp) as (Hset & _).
      eapply settles_keeps; [exact Hset|done| |done|].
      * intros i Hi. apply Hl. unfold requests_in_flight. rewrite Hsusp. simpl.
        apply list_elem_of_singleton in Hi as ->. left.
      * unfold Queue.active. intros [|]; destruct Hs; congruence.
  - done.
Qed.

End TerminalFacts.

Lemma failed_rows_stay :
  (∀ (w : RawEventSummarizer.Worker) (es : list RawEventSummarizer.Event)
     (r : RawToolEventStore.RawToolEvent),
     holds_lease (events_in_flight w)
       (RawToolEventStore.db (RawEventSummarizer.rawStore w)) →
     r ∈ rows (RawToolEventStore.db (RawEventSummarizer.rawStore w)) →
     status r = failed →
     r ∈ rows (RawToolEventStore.db
                 (RawEventSummarizer.rawStore (RawEventSummarizer.run w es)))) ∧
  (∀ (w : RawSummarySummarizer.Worker) (es : list RawSummarySummarizer.Event)
     (r : RawSummaryRequestStore.RawSummaryRequest),
     holds_lease (requests_in_flight w)
       (RawSummaryRequestStore.db (RawSummarySummarizer.rawStore w)) →
     r ∈ rows (RawSummaryRequestStore.db (RawSummarySummarizer.rawStore w)) →
     status r = failed ∨ status r = completed →
     r ∈ rows (RawSummaryRequestStore.db
                 (RawSummarySummarizer.rawStore (RawSummarySummarizer.run w es)))).
Proof.
  split.
  - intros w es. unfold RawEventSummarizer.run. revert w.
    induction es as [|e es IH]; intros w r Hok Hr Hs; [done|]. cbn [foldl].
    apply IH; [by apply event_step_holds|by eapply event_step_keeps_failed|done].
  - intros w es. unfold RawSummarySummarizer.run. revert w.
    induction es as [|e es IH]; intros w r Hok Hr Hs; [done|]. cbn [foldl].
    apply IH; [by apply summary_step_holds|by eapply summary_step_keeps_terminal|done].
Qed.

(** X18.  Failed rows are final.  Take any run of a new event worker over an
    empty queue: a row that is failed at some point of the run is in the
    queue, exactly as it is, at every later point: it is never claimed again,
    never released, never changed and never cleaned up.  In the runs of the
    summary worker the same holds of failed and of completed requests. *)
Theorem failed_rows_are_final (maxRetries maxResponseLength : option Z)
    (batchSize : option nat) :
  (∀ (es later : list RawEventSummarizer.Event) (r : RawToolEventStore.RawToolEvent),
     let w := RawEventSummarizer.new
                (RawToolEventStore.new Queue.empty maxRetries maxResponseLength) batchSize in
     r ∈ rows (RawToolEventStore.db
                 (RawEventSummarizer.rawStore (RawEventSummarizer.run w es))) →
     status r = failed →
     r ∈ rows (RawToolEventStore.db
                 (RawEventSummarizer.rawStore (RawEventSummarizer.run w (es ++ later))))) ∧
  (∀ (es later : list RawSummarySummarizer.Event)
     (r : RawSummaryRequestStore.RawSummaryRequest),
     let w := RawSummarySummarizer.new
                (RawSummaryRequestStore.new Queue.empty maxRetries) batchSize in
     r ∈ rows (RawSummaryRequestStore.db
                 (RawSummarySummarizer.rawStore (RawSummarySummarizer.run w es))) →
     status r = failed ∨ status r = completed →
     r ∈ rows (RawSummaryRequestStore.db
                 (RawSummarySummarizer.rawStore (RawSummarySummarizer.run w (es ++ later))))).
Proof.
  destruct failed_rows_stay as [Hevent Hsummary]. split.
  - intros es later r w Hr Hs. unfold RawEventSummarizer.run. rewrite foldl_app.
    apply Hevent; [|done..]. apply event_run_holds.
  - intros es later r w Hr Hs. unfold RawSummarySummarizer.run. rewrite foldl_app.
    apply Hsummary; [|done..]. apply summary_run_holds.
Qed.

(** The event that used up its retries stays failed through a restart and
    thirty more ticks. *)
Lemma failed_rows_are_final_witness :
  Scenario.exhausted_event ∈
    rows (RawToolEventStore.db (RawEventSummarizer.rawStore
      (RawEventSummarizer.run
         (RawEventSummarizer.new (RawToolEventStore.new Queue.empty None None) None)
         Scenario.retry_budget_run))) ∧
  status Scenario.exhausted_event = failed ∧
  Scenario.exhausted_event ∈
    rows (RawToolEventStore.db (RawEventSummarizer.rawStore
      (RawEventSummarizer.run
         (RawEventSummarizer.new (RawToolEventStore.new Queue.empty None None) None)
         (Scenario.retry_budget_run ++
          RawEventSummarizer.Restart :: RawEventSummarizer.Start 61000 ::
          Scenario.thirty_ticks)))).
Proof.
  assert (Scenario.exhausted_event ∈
            rows (RawToolEventStore.db (RawEventSummarizer.rawStore
              (RawEventSummarizer.run
                 (RawEventSummarizer.new (RawToolEventStore.new Queue.empty None None) None)
                 Scenario.retry_budget_run)))) as Hin.
  { vm_compute. left. }
  assert (status Scenario.exhausted_event = failed) as Hs by reflexivity.
  split_and!; [exact Hin|exact Hs|].
  exact (proj1 (failed_rows_are_final None None None) Scenario.retry_budget_run
           (RawEventSummarizer.Restart :: RawEventSummarizer.Start 61000 ::
            Scenario.thirty_ticks)
           Scenario.exhausted_event Hin Hs).
Defined.

(** ** What the workers report *)

(** X19.  In the object [RawEventSummarizer.getStats] returns, [failed] is
    the number of failed rows of the queue: the literal's [failed:] replaces
    the worker's own count of failed events that the spread of [this.stats]
    put there, so that count is not reported at all.  [pending] is the number
    of pending rows.  [RawSummarySummarizer.getStats] has no [failed:] of its
    own: there [failed] is the worker's count, and [pending] counts the
    pending and the summarizing requests. *)
Theorem getStats_failed_is_the_queue_count :
  (∀ w : RawEventSummarizer.Worker,
     let o := RawEventSummarizer.getStats w in
     o.*1 = ["processed"; "failed"; "lastRunAt"; "lastCleanupAt"; "pending"]%string ∧
     js_get o "failed" =
       Some (Some (rows_with_status failed
                     (RawToolEventStore.db (RawEventSummarizer.rawStore w)))) ∧
     js_get o "pending" =
       Some (Some (rows_with_status pending
                     (RawToolEventStore.db (RawEventSummarizer.rawStore w)))) ∧
     js_get o "processed" =
       Some (Some (RawEventSummarizer.processed (RawEventSummarizer.stats w))) ∧
     (∀ n, RawEventSummarizer.getStats
             (RawEventSummarizer.with_stats
                (RawEventSummarizer.mkStats
                   (RawEventSummarizer.processed (RawEventSummarizer.stats w)) n
                   (RawEventSummarizer.lastRunAt (RawEventSummarizer.stats w))
                   (RawEventSummarizer.lastCleanupAt (RawEventSummarizer.stats w))) w)
           = o)) ∧
  (∀ w : RawSummarySummarizer.Worker,
     let o := RawSummarySummarizer.getStats w in
     o.*1 = ["processed"; "failed"; "lastRunAt"; "pending"]%string ∧
     js_get o "failed" =
       Some (Some (RawSummarySummarizer.failed (RawSummarySummarizer.stats w))) ∧
     js_get o "pending" =
       Some (Some (rows_with_status pending
                     (RawSummaryRequestStore.db (RawSummarySummarizer.rawStore w)) +
                   rows_with_status summarizing
                     (RawSummaryRequestStore.db (RawSummarySummarizer.rawStore w))))).
Proof.
  split.
  - intros w o. unfold o. split_and!; try (intros n); vm_compute; reflexivity.
  - intros w o. unfold o. split_and!; [vm_compute; reflexivity..|].
    unfold RawSummarySummarizer.getStats. rewrite <- active_count.
    vm_compute. reflexivity.
Qed.

(** ** A session's group succeeds or fails as a whole *)

Section GroupFate.
Import RawToolEventStore RawEventSummarizer.
Implicit Types (w : Worker) (s : RawToolEventStore.t) (events : list RawToolEvent).

Lemma complete_with_zero_completes now events s :
  settles_with (completed_at now) (Queue.ids events) (db s)
    (db (foldl (λ s' (event : RawToolEvent), markCompleted (id event) 0 now s') s events)).
Proof.
  revert s. induction events as [|e es IH]; intros s; [apply settles_with_nil|].
  cbn [foldl]. eapply settles_with_cons; [|apply IH]. apply markCompleted_completes_at.
Qed.

Lemma complete_events_completes observationIds now i events s :
  settles_with (completed_at now) (Queue.ids events) (db s)
    (db (complete_events observationIds now i events s)).
Proof.
  revert i s. induction events as [|e es IH]; intros i s; [apply settles_with_nil|].
  cbn [complete_events]. eapply settles_with_cons; [|apply IH].
  apply markCompleted_completes_at.
Qed.

Lemma markFailed_rows m i msg (t : Table Columns) :
  unique_ids t →
  rows (Queue.markFailed m i msg t) =
  (λ r, if decide (id r = i) then fail_row m msg r else r) <$> rows t.
Proof.
  intros Hnd.
  assert (∀ r, r ∈ rows t → id r = i → Queue.current_retries i t = retry_count r) as Hcur.
  { intros r Hr <-. by apply current_retries_row. }
  unfold Queue.markFailed, Queue.update_where, fail_row.
  case_decide as Hmax; simpl; apply list_fmap_ext; intros k r Hk;
    apply list_elem_of_lookup_2 in Hk; case_decide as Hi; try done;
    rewrite (Hcur r Hk Hi) in *.
  - by rewrite decide_True.
  - by rewrite decide_False.
Qed.

Lemma fail_events_rows m message events s :
  maxRetries s = m → unique_ids (db s) → NoDup (Queue.ids events) →
  rows (db (foldl (λ s' (event : RawToolEvent), markFailed (id event) message s') s events))
  = (λ r, if decide (id r ∈ Queue.ids events) then fail_row m message r else r)
      <$> rows (db s).
Proof.
  revert s. induction events as [|e es IH]; intros s Hm Hnd Hev.
  - cbn [foldl]. rewrite <- (list_fmap_id (rows (db s))) at 1.
    apply list_fmap_ext. intros k r _.
    rewrite decide_False; [done|]. unfold Queue.ids. rewrite fmap_nil. apply not_elem_of_nil.
  - cbn [foldl]. unfold Queue.ids in Hev. rewrite fmap_cons in Hev.
    apply NoDup_cons in Hev as [He Hev].
    rewrite IH; [|done| |done].
    + unfold markFailed at 1. cbn [db with_db]. rewrite Hm.
      rewrite markFailed_rows by done. rewrite <- list_fmap_compose.
      apply list_fmap_ext. intros k r _. simpl.
      destruct (decide (id r = id e)) as [Hi|Hi].
      * rewrite (decide_True (P := id r ∈ id e :: _)) by (rewrite Hi; left).
        rewrite decide_False; [done|]. simpl. by rewrite Hi.
      * destruct (decide (id r ∈ Queue.ids es)) as [Hin|Hin].
        -- rewrite decide_True; [done|by right].
        -- rewrite decide_False; [done|]. rewrite not_elem_of_cons. done.
    + unfold unique_ids, markFailed, Queue.markFailed. cbn [db with_db].
      case_decide; by rewrite ids_update_where.
Qed.

End GroupFate.

(** X20.  The events of a session's group share their fate.  For a group
    with distinct ids over a queue with distinct ids, [summarizeSessionEvents]
    either marks every event of the group completed at [now] and adds the
    size of the group to [processed], or records one and the same error on
    every event of the group (one more retry, the message, failed or pending
    by the retry budget) and adds the size of the group to [failed]; in both
    cases the rows outside the group are untouched.  A missing session fails
    the group with [Session <id> not found]. *)
Theorem summarizeSessionEvents_all_or_nothing (now : Z)
    (a : RawEventSummarizer.Answers) (sessionDbId : Z)
    (events : list RawToolEventStore.RawToolEvent) (w : RawEventSummarizer.Worker) :
  unique_ids (RawToolEventStore.db (RawEventSummarizer.rawStore w)) →
  NoDup (Queue.ids events) →
  let w' := RawEventSummarizer.summarizeSessionEvents now a sessionDbId events w in
  let t := RawToolEventStore.db (RawEventSummarizer.rawStore w) in
  let t' := RawToolEventStore.db (RawEventSummarizer.rawStore w') in
  (settles_with (completed_at now) (Queue.ids events) t t' ∧
   RawEventSummarizer.processed (RawEventSummarizer.stats w') =
     RawEventSummarizer.processed (RawEventSummarizer.stats w) + Z.of_nat (length events) ∧
   RawEventSummarizer.failed (RawEventSummarizer.stats w') =
     RawEventSummarizer.failed (RawEventSummarizer.stats w) ∧
   RawEventSummarizer.getSessionById a ≠ None)
  ∨
  (∃ message,
     rows t' =
       (λ r, if decide (id r ∈ Queue.ids events)
             then fail_row (RawToolEventStore.maxRetries (RawEventSummarizer.rawStore w))
                    message r
             else r) <$> rows t ∧
     RawEventSummarizer.failed (RawEventSummarizer.stats w') =
       RawEventSummarizer.failed (RawEventSummarizer.stats w) + Z.of_nat (length events) ∧
     RawEventSummarizer.processed (RawEventSummarizer.stats w') =
       RawEventSummarizer.processed (RawEventSummarizer.stats w) ∧
     (RawEventSummarizer.getSessionById a = None →
      message = ("Session " +:+ pretty sessionDbId +:+ " not found")%string)).
Proof.
  intros Hnd Hev w' t t'. subst w' t t'.
  unfold RawEventSummarizer.summarizeSessionEvents.
  destruct (RawEventSummarizer.try_summarize now a sessionDbId events
              (RawEventSummarizer.rawStore w)) as [message|s'] eqn:Htry.
  - right. exists message. cbn [RawEventSummarizer.rawStore RawEventSummarizer.with_stats
      RawEventSummarizer.with_store RawEventSummarizer.stats RawEventSummarizer.failed
      RawEventSummarizer.processed].
    split_and!; [by apply fail_events_rows|done|done|].
    intros Hnone. revert Htry. unfold RawEventSummarizer.try_summarize.
    rewrite Hnone. by intros [= <-].
  - left. cbn [RawEventSummarizer.rawStore RawEventSummarizer.with_stats
      RawEventSummarizer.with_store RawEventSummarizer.stats RawEventSummarizer.failed
      RawEventSummarizer.processed].
    revert Htry. unfold RawEventSummarizer.try_summarize.
    destruct (RawEventSummarizer.getSessionById a) as [rec|]; [|done].
    destruct (string_or_null _); [|done].
    destruct (RawEventSummarizer.callLLM a) as [?|[response tokens]]; [done|].
    destruct events as [|e es]; [done|].
    case_decide.
    + intros [= <-]. split_and!; try done.
      exact (complete_with_zero_completes now (e :: es) (RawEventSummarizer.rawStore w)).
    + destruct (RawEventSummarizer.storeObservations a) as [?|observationIds]; [done|].
      intros [= <-]. split_and!; try done.
      exact (complete_events_completes observationIds now 0 (e :: es)
               (RawEventSummarizer.rawStore w)).
Qed.

(** The three claimed events of session 42: the session record is missing,
    so each of them goes back to pending with one retry and the message. *)
Lemma summarizeSessionEvents_all_or_nothing_witness :
  unique_ids (RawToolEventStore.db (RawEventSummarizer.rawStore Scenario.three_claimed)) ∧
  NoDup (Queue.ids Scenario.claimed_events) ∧
  (status <$> rows (RawToolEventStore.db (RawEventSummarizer.rawStore
     (RawEventSummarizer.summarizeSessionEvents 200 Scenario.no_session 42
        Scenario.claimed_events Scenario.three_claimed))) = [pending; pending; pending]) ∧
  (error_message <$> rows (RawToolEventStore.db (RawEventSummarizer.rawStore
     (RawEventSummarizer.summarizeSessionEvents 200 Scenario.no_session 42
        Scenario.claimed_events Scenario.three_claimed)))
   = [Some "Session 42 not found"; Some "Session 42 not found";
      Some "Session 42 not found"]%string) ∧
  ((settles_with (completed_at 200) (Queue.ids Scenario.claimed_events)
     (RawToolEventStore.db (RawEventSummarizer.rawStore Scenario.three_claimed))
     (RawToolEventStore.db (RawEventSummarizer.rawStore
        (RawEventSummarizer.summarizeSessionEvents 200 Scenario.no_session 42
           Scenario.claimed_events Scenario.three_claimed))) ∧
   RawEventSummarizer.processed (RawEventSummarizer.stats
     (RawEventSummarizer.summarizeSessionEvents 200 Scenario.no_session 42
        Scenario.claimed_events Scenario.three_claimed)) =
   RawEventSummarizer.processed (RawEventSummarizer.stats Scenario.three_claimed) +
     Z.of_nat (length Scenario.claimed_events) ∧
   RawEventSummarizer.failed (RawEventSummarizer.stats
     (RawEventSummarizer.summarizeSessionEvents 200 Scenario.no_session 42
        Scenario.claimed_events Scenario.three_claimed)) =
   RawEventSummarizer.failed (RawEventSummarizer.stats Scenario.three_claimed) ∧
   RawEventSummarizer.getSessionById Scenario.no_session ≠ None)
  ∨
  (∃ message,
     rows (RawToolEventStore.db (RawEventSummarizer.rawStore
        (RawEventSummarizer.summarizeSessionEvents 200 Scenario.no_session 42
           Scenario.claimed_events Scenario.three_claimed))) =
       (λ r, if decide (id r ∈ Queue.ids Scenario.claimed_events)
             then fail_row (RawToolEventStore.maxRetries
                              (RawEventSummarizer.rawStore Scenario.three_claimed))
                    message r
             else r) <$>
       rows (RawToolEventStore.db (RawEventSummarizer.rawStore Scenario.three_claimed)) ∧
     RawEventSummarizer.failed (RawEventSummarizer.stats
       (RawEventSummarizer.summarizeSessionEvents 200 Scenario.no_session 42
          Scenario.claimed_events Scenario.three_claimed)) =
     RawEventSummarizer.failed (RawEventSummarizer.stats Scenario.three_claimed) +
       Z.of_nat (length Scenario.claimed_events) ∧
     RawEventSummarizer.processed (RawEventSummarizer.stats
       (RawEventSummarizer.summarizeSessionEvents 200 Scenario.no_session 42
          Scenario.claimed_events Scenario.three_claimed)) =
     RawEventSummarizer.processed (RawEventSummarizer.stats Scenario.three_claimed) ∧
     (RawEventSummarizer.getSessionById Scenario.no_session = None →
      message = ("Session " +:+ pretty 42 +:+ " not found")%string))).
Proof.
  assert (unique_ids (RawToolEventStore.db
            (RawEventSummarizer.rawStore Scenario.three_claimed))) as Hnd.
  { apply (bool_decide_eq_true_1 _). vm_compute. reflexivity. }
  assert (NoDup (Queue.ids Scenario.claimed_events)) as Hev.
  { apply (bool_decide_eq_true_1 _). vm_compute. reflexivity. }
  split; [exact Hnd|]. split; [exact Hev|].
  split; [vm_compute; reflexivity|]. split; [vm_compute; reflexivity|].
  exact (summarizeSessionEvents_all_or_nothing 200 Scenario.no_session 42
           Scenario.claimed_events Scenario.three_claimed Hnd Hev).
Defined.

(** ** The process tracker *)

Section TrackerFacts.
Import ProcessTracker.
Implicit Types (w : World) (o : gmap Z OsProcess).

Lemma kill_os signal p proc o q :
  q ≠ p → (kill signal p proc o).1.2 !! q = o !! q.
Proof.
  intros Hq. unfold kill. destruct (o !! p) as [target|]; [|done]. simpl.
  destruct (match signal with SIGTERM => _ | SIGKILL => _ end); [|done].
  by rewrite lookup_delete_ne.
Qed.

Lemma terminateProcess_frame sid gracefulTimeoutMs w :
  trackedProcesses (terminateProcess sid gracefulTimeoutMs w).2
    = delete sid (trackedProcesses w) ∧
  (∀ p, (∀ t, trackedProcesses w !! sid = Some t → pid t ≠ p) →
        os (terminateProcess sid gracefulTimeoutMs w).2 !! p = os w !! p) ∧
  (trackedProcesses w !! sid = None →
   terminateProcess sid gracefulTimeoutMs w = (true, w)).
Proof.
  unfold terminateProcess.
  destruct (trackedProcesses w !! sid) as [tracked|] eqn:Ht.
  - assert (∀ signal proc o p, (∀ t, Some tracked = Some t → pid t ≠ p) →
              (kill signal (pid tracked) proc o).1.2 !! p = o !! p) as Hkill.
    { intros signal proc o p Hp. apply kill_os. intros ->. by apply (Hp tracked). }
    destruct (killed (process tracked) || bool_decide (exitCode (process tracked) ≠ None)).
    + by split_and!.
    + destruct (kill SIGTERM (pid tracked) (process tracked) (os w))
        as [[[sent proc1] os1] exited1] eqn:Hk1.
      pose proof (λ p Hp, Hkill SIGTERM (process tracked) (os w) p Hp) as H1.
      rewrite Hk1 in H1. simpl in H1.
      destruct (waitForExit exited1 proc1).
      * split_and!; [done|exact H1|done].
      * destruct (kill SIGKILL (pid tracked) proc1 os1)
          as [[[sent2 proc2] os2] exited2] eqn:Hk2.
        pose proof (λ p Hp, Hkill SIGKILL proc1 os1 p Hp) as H2.
        rewrite Hk2 in H2. simpl in H2.
        split_and!; [done| |done]. intros p Hp. simpl. rewrite H2 by done. by apply H1.
  - split_and!; [|done..]. simpl. by rewrite delete_id.
Qed.

Lemma terminate_each_spec (sessionIds : list Z) (n f : Z) w :
  let r := foldl (λ (acc : Z * Z * World) sessionId,
                    let '(terminated, failures, w0) := acc in
                    let '(success, w') := terminateProcess sessionId 2000 w0 in
                    if success then (terminated + 1, failures, w')
                    else (terminated, failures + 1, w'))
                 (n, f, w) sessionIds in
  r.1.1 + r.1.2 = n + f + Z.of_nat (length sessionIds) ∧
  (∀ sid, trackedProcesses r.2 !! sid =
          if decide (sid ∈ sessionIds) then None else trackedProcesses w !! sid) ∧
  (∀ p, (∀ sid t, trackedProcesses w !! sid = Some t → pid t ≠ p) →
        os r.2 !! p = os w !! p).
Proof.
  revert n f w. induction sessionIds as [|sid0 rest IH]; intros n f w.
  - simpl. split_and!; [lia|done|done].
  - cbn [foldl].
    destruct (terminateProcess_frame sid0 2000 w) as (Htr & Hos & _).
    destruct (terminateProcess sid0 2000 w) as [success w1]. simpl in Htr, Hos.
    assert (∀ sid t, trackedProcesses w1 !! sid = Some t → trackedProcesses w !! sid = Some t)
      as Hsub.
    { intros sid t. rewrite Htr. intros H. apply lookup_delete_Some in H. tauto. }
    destruct success.
    + destruct (IH (n + 1) f w1) as (I1 & I2 & I3). cbv zeta in I1, I2, I3.
      split_and!.
      * rewrite I1. simpl length. lia.
      * intros sid. rewrite I2, Htr.
        destruct (decide (sid = sid0)) as [->|Hne].
        -- rewrite lookup_delete_eq. rewrite (decide_True (P := sid0 ∈ sid0 :: rest)) by left.
           by case_decide.
        -- rewrite lookup_delete_ne by done.
           destruct (decide (sid ∈ rest)) as [Hin|Hin].
           ++ rewrite decide_True; [done|by right].
           ++ rewrite decide_False; [done|]. rewrite not_elem_of_cons. done.
      * intros p Hp. rewrite I3; [apply Hos; eauto|]. intros sid t Ht. eauto.
    + destruct (IH n (f + 1) w1) as (I1 & I2 & I3). cbv zeta in I1, I2, I3.
      split_and!.
      * rewrite I1. simpl length. lia.
      * intros sid. rewrite I2, Htr.
        destruct (decide (sid = sid0)) as [->|Hne].
        -- rewrite lookup_delete_eq. rewrite (decide_True (P := sid0 ∈ sid0 :: rest)) by left.
           by case_decide.
        -- rewrite lookup_delete_ne by done.
           destruct (decide (sid ∈ rest)) as [Hin|Hin].
           ++ rewrite decide_True; [done|by right].
           ++ rewrite decide_False; [done|]. rewrite not_elem_of_cons. done.
      * intros p Hp. rewrite I3; [apply Hos; eauto|]. intros sid t Ht. eauto.
Qed.

End TrackerFacts.

(** X21.  [terminateProcess] always forgets the session: whatever the
    outcome, the session has no record afterwards, the records of the other
    sessions are as they were, and no process of the operating system other
    than the one recorded for the session is affected.  For a session without
    a record it answers true and changes nothing. *)
Theorem terminateProcess_forgets_the_session (sessionDbId gracefulTimeoutMs : Z)
    (w : ProcessTracker.World) :
  let w' := (ProcessTracker.terminateProcess sessionDbId gracefulTimeoutMs w).2 in
  ProcessTracker.getProcess sessionDbId w' = None ∧
  ProcessTracker.hasProcess sessionDbId w' = false ∧
  (∀ other, other ≠ sessionDbId →
            ProcessTracker.getProcess other w' = ProcessTracker.getProcess other w) ∧
  (∀ p, (∀ t, ProcessTracker.getProcess sessionDbId w = Some t → ProcessTracker.pid t ≠ p) →
        ProcessTracker.os w' !! p = ProcessTracker.os w !! p) ∧
  (ProcessTracker.getProcess sessionDbId w = None →
   ProcessTracker.terminateProcess sessionDbId gracefulTimeoutMs w = (true, w)).
Proof.
  intros w'. subst w'.
  destruct (terminateProcess_frame sessionDbId gracefulTimeoutMs w) as (Htr & Hos & Hnone).
  unfold ProcessTracker.getProcess, ProcessTracker.hasProcess. rewrite Htr.
  split_and!; [|  | |done|done].
  - apply lookup_delete_eq.
  - rewrite lookup_delete_eq. apply bool_decide_eq_false. by intros [? ?].
  - intros other Hne. by apply lookup_delete_ne.
Qed.

(** X22.  [terminateAll] empties the tracker.  Whatever the order in which
    the snapshot lists the sessions, and whether the terminations succeed or
    not: afterwards no session has a record, [terminated + failed] is the
    number of sessions that were tracked, and the processes that no record
    names are unaffected. *)
Theorem terminateAll_empties_the_tracker (sessionIds : list Z)
    (w : ProcessTracker.World) :
  sessionIds ≡ₚ (map_to_list (ProcessTracker.trackedProcesses w)).*1 →
  let r := ProcessTracker.terminate_each sessionIds w in
  ProcessTracker.trackedProcesses r.2 = ∅ ∧
  ProcessTracker.getTrackedCount r.2 = 0 ∧
  r.1.1 + r.1.2 = ProcessTracker.getTrackedCount w ∧
  (∀ p, (∀ t, t ∈ ProcessTracker.getAllTracked w → ProcessTracker.pid t ≠ p) →
        ProcessTracker.os r.2 !! p = ProcessTracker.os w !! p).
Proof.
  intros Hperm r. subst r. unfold ProcessTracker.terminate_each.
  destruct (terminate_each_spec sessionIds 0 0 w) as (Hsum & Htr & Hos).
  cbv zeta in Hsum, Htr, Hos.
  set (r := foldl _ _ sessionIds) in *.
  assert (ProcessTracker.trackedProcesses r.2 = ∅) as Hempty.
  { apply map_eq. intros sid. rewrite Htr, lookup_empty.
    case_decide as Hin; [done|].
    destruct (ProcessTracker.trackedProcesses w !! sid) as [t|] eqn:Ht; [|done].
    destruct Hin. rewrite Hperm. apply list_elem_of_fmap. exists (sid, t).
    split; [done|]. by apply elem_of_map_to_list. }
  split_and!.
  - done.
  - unfold ProcessTracker.getTrackedCount. rewrite Hempty. by rewrite map_size_empty.
  - rewrite Hsum, Hperm, length_fmap. unfold ProcessTracker.getTrackedCount.
    rewrite length_map_to_list. lia.
  - intros p Hp. apply Hos. intros sid t Ht. apply Hp.
    unfold ProcessTracker.getAllTracked. apply list_elem_of_fmap. exists (sid, t).
    split; [done|]. by apply elem_of_map_to_list.
Qed.

(** Sessions 9 and 7, listed in the order they were tracked, and in the order
    of [terminateAll]; pid 1, which no record names, is still there. *)
Lemma terminateAll_empties_the_tracker_witness :
  [9; 7] ≡ₚ (map_to_list (ProcessTracker.trackedProcesses Scenario.two_children)).*1 ∧
  ProcessTracker.trackedProcesses (ProcessTracker.terminate_each [9; 7] Scenario.two_children).2
    = ∅ ∧
  ProcessTracker.trackedProcesses (ProcessTracker.terminateAll Scenario.two_children).2 = ∅ ∧
  ProcessTracker.os (ProcessTracker.terminate_each [9; 7] Scenario.two_children).2 !! 1
    = Some (ProcessTracker.mkOs true).
Proof.
  assert ([9; 7] ≡ₚ (map_to_list (ProcessTracker.trackedProcesses Scenario.two_children)).*1)
    as Hperm.
  { apply (bool_decide_eq_true_1 _). vm_compute. reflexivity. }
  split; [exact Hperm|]. split; [|split; [|vm_compute; reflexivity]].
  - exact (proj1 (terminateAll_empties_the_tracker [9; 7] Scenario.two_children Hperm)).
  - exact (proj1 (terminateAll_empties_the_tracker _ Scenario.two_children
                    (reflexivity _))).
Defined.

(** X23.  The tracker keeps one record per session, and the exit listener of
    a child deletes the record of its session, whichever child it names.  If
    a session spawns a second child while the first still runs, the record of
    the first is replaced (the count of records does not grow, the first
    child runs on untracked); when the first child then exits, its listener
    deletes the record of the second, which is still running:
    [terminateProcess] for the session then answers true and signals
    nothing. *)
Theorem respawn_loses_track (sessionDbId : Z) (cmd : string) (p1 p2 : Z)
    (c1 c2 : ProcessTracker.OsProcess) (t1 t2 : Z) (w : ProcessTracker.World) :
  p1 ≠ 0 → p2 ≠ 0 → p1 ≠ p2 →
  let w1 := ProcessTracker.createTrackedSpawnFunction sessionDbId cmd (Some p1) c1 t1 w in
  let w2 := ProcessTracker.createTrackedSpawnFunction sessionDbId cmd (Some p2) c2 t2 w1 in
  let w3 := ProcessTracker.on_exit sessionDbId p1 w2 in
  ProcessTracker.getProcess sessionDbId w1 =
    Some (ProcessTracker.mkTracked (ProcessTracker.mkProc None false) p1 sessionDbId t1 cmd) ∧
  ProcessTracker.getProcess sessionDbId w2 =
    Some (ProcessTracker.mkTracked (ProcessTracker.mkProc None false) p2 sessionDbId t2 cmd) ∧
  ProcessTracker.getTrackedCount w2 = ProcessTracker.getTrackedCount w1 ∧
  ProcessTracker.os w2 !! p1 = Some c1 ∧
  ProcessTracker.getProcess sessionDbId w3 = None ∧
  ProcessTracker.os w3 !! p2 = Some c2 ∧
  ProcessTracker.terminateProcess sessionDbId 5000 w3 = (true, w3).
Proof.
  intros H1 H2 H12 w1 w2 w3. subst w1 w2 w3.
  unfold ProcessTracker.createTrackedSpawnFunction, ProcessTracker.on_exit,
    ProcessTracker.getProcess, ProcessTracker.getTrackedCount.
  rewrite !decide_False by done. cbn [ProcessTracker.trackedProcesses ProcessTracker.os].
  split_and!.
  - apply lookup_insert_eq.
  - apply lookup_insert_eq.
  - f_equal. apply map_size_insert_Some. rewrite lookup_insert_eq. done.
  - rewrite lookup_insert_ne by done. apply lookup_insert_eq.
  - apply lookup_delete_eq.
  - rewrite lookup_delete_ne by done. apply lookup_insert_eq.
  - unfold ProcessTracker.terminateProcess. cbn [ProcessTracker.trackedProcesses].
    by rewrite lookup_delete_eq.
Qed.

(** Session 7 spawns pid 4242 and then pid 4243; pid 4242 exits. *)
Lemma respawn_loses_track_witness :
  4242 ≠ 0 ∧ 4243 ≠ 0 ∧ 4242 ≠ 4243 ∧
  ProcessTracker.getProcess 7
    (ProcessTracker.on_exit 7 4242
       (ProcessTracker.createTrackedSpawnFunction 7 "claude" (Some 4243)
          (ProcessTracker.mkOs false) 2000
          (ProcessTracker.createTrackedSpawnFunction 7 "claude" (Some 4242)
             (ProcessTracker.mkOs false) 1000
             (ProcessTracker.mkWorld ∅ ∅)))) = None ∧
  ProcessTracker.os
    (ProcessTracker.on_exit 7 4242
       (ProcessTracker.createTrackedSpawnFunction 7 "claude" (Some 4243)
          (ProcessTracker.mkOs false) 2000
          (ProcessTracker.createTrackedSpawnFunction 7 "claude" (Some 4242)
             (ProcessTracker.mkOs false) 1000
             (ProcessTracker.mkWorld ∅ ∅)))) !! 4243 = Some (ProcessTracker.mkOs false).
Proof.
  assert (4242 ≠ 0) as H1 by lia. assert (4243 ≠ 0) as H2 by lia.
  assert (4242 ≠ 4243) as H12 by lia.
  split; [exact H1|]. split; [exact H2|]. split; [exact H12|].
  pose proof (respawn_loses_track 7 "claude" 4242 4243 (ProcessTracker.mkOs false)
                (ProcessTracker.mkOs false) 1000 2000 (ProcessTracker.mkWorld ∅ ∅)
                H1 H2 H12) as (_ & _ & _ & _ & H5 & H6 & _).
  split; [exact H5|exact H6].
Defined.

(** ** Reading the process listing *)

Section ListingFacts.

Lemma pretty_N_char_digit (d : N) :
  (d < 10)%N →
  Ascii.is_nat (pretty_N_char d) = Some (N.to_nat d) ∧
  js_is_whitespace (pretty_N_char d) = false.
Proof.
  intros Hd.
  assert (d = 0 ∨ d = 1 ∨ d = 2 ∨ d = 3 ∨ d = 4 ∨ d = 5 ∨ d = 6 ∨ d = 7 ∨ d = 8 ∨ d = 9)%N
    as Hcases by lia.
  repeat (destruct Hcases as [->|Hcases]; [by split|]). by subst.
Qed.

Lemma digit_is_no_separator (c : ascii) (d : N) :
  Ascii.is_nat c = None → pretty_N_char d ≠ c.
Proof.
  intros Hc <-.
  destruct d as [|p]; [simpl in Hc; discriminate|].
  do 4 (try destruct p as [p|p|]); simpl in Hc; discriminate.
Qed.

Lemma js_parseInt_digit_head (d : N) (s : string) :
  (d < 10)%N →
  js_parseInt (String (pretty_N_char d) s) = parse_digits (Some (Z.of_N d)) s.
Proof.
  intros Hd.
  assert (d = 0 ∨ d = 1 ∨ d = 2 ∨ d = 3 ∨ d = 4 ∨ d = 5 ∨ d = 6 ∨ d = 7 ∨ d = 8 ∨ d = 9)%N
    as Hcases by lia.
  repeat (destruct Hcases as [->|Hcases]; [reflexivity|]). by subst.
Qed.

Lemma parse_digits_digit (acc : Z) (d : N) (s : string) :
  (d < 10)%N →
  parse_digits (Some acc) (String (pretty_N_char d) s) =
  parse_digits (Some (10 * acc + Z.of_N d)) s.
Proof.
  intros Hd. cbn [parse_digits]. destruct (pretty_N_char_digit d Hd) as [-> _].
  cbn [default]. by rewrite N_nat_Z.
Qed.

Lemma js_parseInt_two_digits (n : Z) :
  0 ≤ n < 100 → js_parseInt (two_digits n) = Some n.
Proof.
  intros Hn. unfold two_digits.
  assert (0 ≤ n / 10 < 10) by (split; [apply Z.div_pos; lia|apply Z.div_lt_upper_bound; lia]).
  pose proof (Z.mod_pos_bound n 10 ltac:(lia)).
  rewrite js_parseInt_digit_head by lia.
  rewrite parse_digits_digit by lia. simpl. f_equal.
  rewrite !Z2N.id by lia. pose proof (Z.div_mod n 10 ltac:(lia)). lia.
Qed.

Lemma pretty_N_go_head (x : N) (s : string) :
  (0 < x)%N →
  ∃ d s', (d < 10)%N ∧ pretty_N_go x s = String (pretty_N_char d) s' ∧
          parse_digits (Some (Z.of_N d)) s' = parse_digits (Some (Z.of_N x)) s.
Proof.
  revert s. induction (N.lt_wf_0 x) as [x _ IH]; intros s Hx.
  rewrite pretty_N_go_step by done.
  pose proof (N.mod_lt x 10 ltac:(lia)) as Hmod.
  destruct (decide (x `div` 10 = 0)%N) as [Hz|Hz].
  - rewrite Hz, pretty_N_go_0. exists (x `mod` 10)%N, s. split_and!; [done..|].
    do 3 f_equal. pose proof (N.div_mod x 10 ltac:(lia)) as Hdm. rewrite Hz in Hdm. lia.
  - destruct (IH (x `div` 10)%N) with (s := String (pretty_N_char (x `mod` 10)) s)
      as (d & s' & Hd & Heq & Hparse).
    + apply N.div_lt; lia.
    + by apply N.neq_0_lt_0.
    + exists d, s'. split_and!; [done..|]. rewrite Hparse.
      rewrite parse_digits_digit by done. f_equal. f_equal.
      pose proof (N.div_mod x 10 ltac:(lia)). lia.
Qed.

Lemma js_parseInt_pretty (n : Z) : 0 ≤ n → js_parseInt (pretty n) = Some n.
Proof.
  intros Hn. destruct n as [|p|p]; [done| |lia].
  change (pretty (Z.pos p)) with (pretty (N.pos p)).
  unfold pretty, pretty_N. rewrite decide_False by done.
  destruct (pretty_N_go_head (N.pos p) "") as (d & s' & Hd & -> & Hparse); [lia|].
  rewrite js_parseInt_digit_head by done. by rewrite Hparse.
Qed.

Lemma string_app_cons c (a b : string) : String c a +:+ b = String c (a +:+ b).
Proof. reflexivity. Qed.

Lemma js_includes_app c (a b : string) :
  js_includes c (a +:+ b) = js_includes c a || js_includes c b.
Proof.
  induction a as [|c' a IH]; [done|]. rewrite string_app_cons. cbn [js_includes].
  rewrite IH. by rewrite orb_assoc.
Qed.

Lemma js_includes_pretty_N_go c (x : N) (s : string) :
  Ascii.is_nat c = None → js_includes c (pretty_N_go x s) = js_includes c s.
Proof.
  intros Hc. revert s. induction (N.lt_wf_0 x) as [x _ IH]; intros s.
  destruct (decide (x = 0)%N) as [->|Hx]; [by rewrite pretty_N_go_0|].
  rewrite pretty_N_go_step by lia. rewrite IH by (apply N.div_lt; lia).
  cbn [js_includes]. rewrite bool_decide_eq_false_2; [done|].
  by apply digit_is_no_separator.
Qed.

Lemma js_includes_pretty c (n : Z) :
  Ascii.is_nat c = None → 0 ≤ n → js_includes c (pretty n) = false.
Proof.
  intros Hc Hn. destruct n as [|p|p]; [|  |lia].
  - cbn. rewrite bool_decide_eq_false_2; [done|]. intros <-. discriminate.
  - change (pretty (Z.pos p)) with (pretty (N.pos p)).
    unfold pretty, pretty_N. rewrite decide_False by done.
    by rewrite js_includes_pretty_N_go.
Qed.

Lemma js_includes_two_digits c (n : Z) :
  Ascii.is_nat c = None → js_includes c (two_digits n) = false.
Proof.
  intros Hc. unfold two_digits. cbn [js_includes].
  rewrite !bool_decide_eq_false_2; [done|by apply digit_is_no_separator..].
Qed.

Lemma js_split_none c (a : string) : js_includes c a = false → js_split c a = [a].
Proof.
  induction a as [|c' a IH]; [done|]. cbn [js_includes js_split].
  intros [Hc Ha]%orb_false_elim. apply bool_decide_eq_false in Hc.
  rewrite decide_False by done. by rewrite IH.
Qed.

Lemma js_split_at c (a b : string) :
  js_includes c a = false →
  js_split c (a +:+ String c b) = a :: js_split c b.
Proof.
  induction a as [|c' a IH].
  - intros _. change (EmptyString +:+ String c b) with (String c b).
    cbn [js_split]. by rewrite decide_True.
  - rewrite string_app_cons. cbn [js_includes js_split].
    intros [Hc Ha]%orb_false_elim. apply bool_decide_eq_false in Hc.
    rewrite decide_False by done. by rewrite IH.
Qed.

End ListingFacts.

(** X24.  [parseElapsedTime] reads the elapsed time as [ps] prints it,
    [[DD-]hh:]mm:ss with the days in decimal and the other fields in two
    digits, as the number of seconds
    [DD * 86400 + hh * 3600 + mm * 60 + ss].  The bound on the days keeps
    that number below 2^53. *)
Theorem parseElapsedTime_reads_ps_etime (days hours minutes seconds : Z) :
  0 ≤ days < 100000000000 →
  0 ≤ hours < 100 → 0 ≤ minutes < 100 → 0 ≤ seconds < 100 →
  OrphanProcessScanner.parseElapsedTime
    (two_digits minutes +:+ ":" +:+ two_digits seconds)
    = Some (minutes * 60 + seconds) ∧
  OrphanProcessScanner.parseElapsedTime
    (two_digits hours +:+ ":" +:+ two_digits minutes +:+ ":" +:+ two_digits seconds)
    = Some (hours * 3600 + minutes * 60 + seconds) ∧
  OrphanProcessScanner.parseElapsedTime
    (pretty days +:+ "-" +:+ two_digits hours +:+ ":" +:+ two_digits minutes +:+ ":" +:+
     two_digits seconds)
    = Some (days * 86400 + hours * 3600 + minutes * 60 + seconds).
Proof.
  intros [Hd _] Hh Hm Hs.
  assert (∀ x, ":" +:+ x = String ":" x) as Hcolon by done.
  assert (∀ x, "-" +:+ x = String "-" x) as Hdash by done.
  assert (∀ h m s : Z, 0 ≤ h < 100 → 0 ≤ m < 100 → 0 ≤ s < 100 →
            js_split ":" (two_digits h +:+ ":" +:+ two_digits m +:+ ":" +:+ two_digits s)
            = [two_digits h; two_digits m; two_digits s]) as Hsplit3.
  { intros h m s _ _ _. rewrite !Hcolon.
    rewrite !js_split_at by by apply js_includes_two_digits.
    by rewrite js_split_none by by apply js_includes_two_digits. }
  assert (∀ h m s : Z,
            js_includes "-" (two_digits h +:+ ":" +:+ two_digits m +:+ ":" +:+ two_digits s)
            = false) as Hnodash3.
  { intros h m s. rewrite !Hcolon.
    repeat (rewrite js_includes_app; cbn [js_includes]).
    by rewrite !js_includes_two_digits. }
  split_and!.
  - unfold OrphanProcessScanner.parseElapsedTime.
    assert (js_includes "-" (two_digits minutes +:+ ":" +:+ two_digits seconds) = false) as ->.
    { rewrite Hcolon, js_includes_app. cbn [js_includes].
      by rewrite !js_includes_two_digits. }
    rewrite Hcolon, js_split_at by by apply js_includes_two_digits.
    rewrite js_split_none by by apply js_includes_two_digits.
    cbn [reverse rev_append lookup list_lookup].
    rewrite !js_parseInt_two_digits by done. simpl. f_equal. lia.
  - unfold OrphanProcessScanner.parseElapsedTime.
    rewrite Hnodash3, Hsplit3 by done.
    cbn [reverse rev_append lookup list_lookup].
    rewrite !js_parseInt_two_digits by done. simpl. f_equal. lia.
  - unfold OrphanProcessScanner.parseElapsedTime.
    assert (js_includes "-"
              (pretty days +:+ "-" +:+ two_digits hours +:+ ":" +:+ two_digits minutes +:+
               ":" +:+ two_digits seconds) = true) as ->.
    { rewrite Hdash, js_includes_app. cbn [js_includes].
      rewrite bool_decide_eq_true_2 by done. by rewrite orb_true_r. }
    rewrite Hdash, js_split_at by by apply js_includes_pretty.
    rewrite js_split_none by apply Hnodash3.
    rewrite Hsplit3 by done.
    cbn [reverse rev_append lookup list_lookup].
    rewrite !js_parseInt_two_digits by done. rewrite js_parseInt_pretty by done.
    simpl. f_equal. lia.
Qed.

(** [3-01:02:03] is 262 923 seconds. *)
Lemma parseElapsedTime_reads_ps_etime_witness :
  0 ≤ 3 < 100000000000 ∧ 0 ≤ 1 < 100 ∧ 0 ≤ 2 < 100 ∧ 0 ≤ 3 < 100 ∧
  (pretty 3 +:+ "-" +:+ two_digits 1 +:+ ":" +:+ two_digits 2 +:+ ":" +:+ two_digits 3
   = "3-01:02:03")%string ∧
  OrphanProcessScanner.parseElapsedTime
    (pretty 3 +:+ "-" +:+ two_digits 1 +:+ ":" +:+ two_digits 2 +:+ ":" +:+ two_digits 3)
    = Some (3 * 86400 + 1 * 3600 + 2 * 60 + 3).
Proof.
  assert (0 ≤ 3 < 100000000000) as H1 by lia. assert (0 ≤ 1 < 100) as H2 by lia.
  assert (0 ≤ 2 < 100) as H3 by lia. assert (0 ≤ 3 < 100) as H4 by lia.
  split; [exact H1|]. split; [exact H2|]. split; [exact H3|]. split; [exact H4|].
  split; [vm_compute; reflexivity|].
  exact (proj2 (proj2 (parseElapsedTime_reads_ps_etime 3 1 2 3 H1 H2 H3 H4))).
Defined.

Section ScannerFacts.
Import OrphanProcessScanner.

Lemma js_split_nonempty c (s : string) : js_split c s ≠ [].
Proof.
  destruct s as [|c' s]; [done|]. cbn [js_split].
  case_decide; [done|]. by destruct (js_split c s).
Qed.

Lemma js_split_includes c (s : string) :
  js_includes c s = true → ∃ a b rest, js_split c s = a :: b :: rest.
Proof.
  induction s as [|c' s IH]; [done|]. cbn [js_includes js_split].
  destruct (decide (c' = c)) as [->|Hne].
  - intros _. destruct (js_split c s) as [|b rest] eqn:Hs.
    + by destruct (js_split_nonempty c s).
    + by exists EmptyString, b, rest.
  - rewrite bool_decide_eq_false_2 by done. intros Hin.
    destruct (IH Hin) as (a & b & rest & ->). by exists (String c' a), b, rest.
Qed.

End ScannerFacts.

(** X25.  Only the hours, minutes and seconds are guarded by [|| 0]:
    [parseElapsedTime] gives [NaN] exactly when the text contains [-] and the
    part before the first [-] does not start with an integer.  [NaN] is never
    below [maxAgeMs], so a line with such an elapsed time, three fields or
    more and a positive pid that is not tracked is reported as an orphan
    whatever [maxAgeMs] is. *)
Theorem parseElapsedTime_NaN_iff_bad_days :
  (∀ etime,
     OrphanProcessScanner.parseElapsedTime etime = NaN ↔
     js_includes "-" etime = true ∧
     js_parseInt (default EmptyString (head (js_split "-" etime))) = NaN) ∧
  (∀ (trackedPids : gset Z) (maxAge : Z) (line : string) (p : Z),
     let fields := js_split_whitespace (js_trim line) in
     (3 ≤ length fields)%nat →
     js_parseInt (default EmptyString (fields !! 0%nat)) = Some p →
     0 < p → p ∉ trackedPids →
     OrphanProcessScanner.parseElapsedTime (default EmptyString (fields !! 1%nat)) = NaN →
     OrphanProcessScanner.scan_line trackedPids maxAge line =
     Some (OrphanProcessScanner.mkOrphan p NaN (js_join " " (drop 2 fields)))).
Proof.
  split.
  - intros etime. unfold OrphanProcessScanner.parseElapsedTime, NaN.
    destruct (js_includes "-" etime) eqn:Hdash.
    + destruct (js_split_includes "-" etime Hdash) as (days & rest & more & ->).
      cbn [head default].
      set (parts := reverse (js_split ":" rest)).
      destruct (js_parseInt days) as [d|] eqn:Hd;
        destruct (parts !! 0%nat), (parts !! 1%nat), (parts !! 2%nat);
        simpl; split; try done; intros [_ Hnan]; congruence.
    + set (parts := reverse (js_split ":" etime)).
      destruct (parts !! 0%nat), (parts !! 1%nat), (parts !! 2%nat);
        simpl; split; try done; by intros [? _].
  - intros trackedPids maxAge line p fields Hlen Hpid Hpos Htracked Hage.
    unfold OrphanProcessScanner.scan_line. fold fields.
    rewrite decide_False by lia. rewrite Hpid.
    rewrite decide_False by lia. rewrite decide_False by done.
    by rewrite Hage.
Qed.

Section ScanFacts.
Import OrphanProcessScanner.

Lemma scan_line_Some trackedPids maxAge line o :
  scan_line trackedPids maxAge line = Some o →
  let fields := js_split_whitespace (js_trim line) in
  (3 ≤ length fields)%nat ∧
  js_parseInt (default EmptyString (fields !! 0%nat)) = Some (pid o) ∧
  0 < pid o ∧ (pid o ∉ trackedPids) ∧
  ageSeconds o = parseElapsedTime (default EmptyString (fields !! 1%nat)) ∧
  js_lt (js_mul (ageSeconds o) (Some 1000)) (Some maxAge) = false ∧
  command o = js_join " " (drop 2 fields).
Proof.
  intros Hline fields. unfold scan_line in Hline. fold fields in Hline.
  destruct (decide (length fields < 3)%nat) as [|Hlen]; [done|].
  destruct (js_parseInt (default EmptyString (fields !! 0%nat))) as [p|]; [|done].
  destruct (decide (p ≤ 0)); [done|].
  destruct (decide (p ∈ trackedPids)); [done|].
  destruct (js_lt _ _) eqn:Hlt; [done|].
  injection Hline as <-. simpl. split_and!; try done; lia.
Qed.

Lemma killOrphan_calls p a call : call ∈ (killOrphan p a).2 → call.1 = p.
Proof.
  unfold killOrphan.
  destruct (sigterm_throws a), (probe_throws a), (sigkill_throws a); simpl;
    rewrite ?elem_of_cons, elem_of_nil; intros H; by repeat destruct H as [->|H].
Qed.

Lemma kill_each_spec answers i orphans result sc calls :
  let r := kill_each answers i orphans result sc calls in
  killedCount r.1.1 + failedCount r.1.1 =
    killedCount result + failedCount result + Z.of_nat (length orphans) ∧
  killedCount result ≤ killedCount r.1.1 ∧ failedCount result ≤ failedCount r.1.1 ∧
  foundCount r.1.1 = foundCount result ∧ pids r.1.1 = pids result ∧
  totalKilled r.1.2 - totalKilled sc = killedCount r.1.1 - killedCount result ∧
  scanCount r.1.2 = scanCount sc ∧ maxAgeMs r.1.2 = maxAgeMs sc ∧
  intervalId r.1.2 = intervalId sc ∧
  (∀ call, call ∈ r.2 → (call ∈ calls) ∨ call.1 ∈ pid <$> orphans).
Proof.
  revert i result sc calls. induction orphans as [|o rest IH]; intros i result sc calls.
  - simpl. split_and!; try done; try lia. intros call Hc. by left.
  - cbn [kill_each]. pose proof (killOrphan_calls (pid o) (answers i)) as Hmade.
    destruct (killOrphan (pid o) (answers i)) as [killed made]. simpl in Hmade.
    destruct killed.
    + destruct (IH (S i)
        (mkResult (foundCount result) (killedCount result + 1) (failedCount result)
           (pids result))
        (mkScanner (intervalId sc) (maxAgeMs sc) (scanCount sc) (totalKilled sc + 1))
        (calls ++ made)) as (I1 & I2 & I3 & I4 & I5 & I6 & I7 & I8 & I9 & I10).
      cbv zeta in *. simpl in I1, I2, I3, I4, I5, I6, I7, I8, I9.
      split_and!; try done; try (simpl length; lia).
      intros call Hc. destruct (I10 call Hc) as [Hin|Hin].
      * apply elem_of_app in Hin as [Hin|Hin]; [by left|].
        right. rewrite fmap_cons, (Hmade call Hin). left.
      * right. rewrite fmap_cons. by right.
    + destruct (IH (S i)
        (mkResult (foundCount result) (killedCount result) (failedCount result + 1)
           (pids result))
        sc (calls ++ made)) as (I1 & I2 & I3 & I4 & I5 & I6 & I7 & I8 & I9 & I10).
      cbv zeta in *. simpl in I1, I2, I3, I4, I5, I6, I7, I8, I9.
      split_and!; try done; try (simpl length; lia).
      intros call Hc. destruct (I10 call Hc) as [Hin|Hin].
      * apply elem_of_app in Hin as [Hin|Hin]; [by left|].
        right. rewrite fmap_cons, (Hmade call Hin). left.
      * right. rewrite fmap_cons. by right.
Qed.

Lemma findOrphanedClaudeProcesses_sound
    (sc : OrphanProcessScanner.Scanner) (tracker : ProcessTracker.World)
    (exec : OrphanProcessScanner.ExecResult)
    (o : OrphanProcessScanner.OrphanProcessInfo) :
  o ∈ OrphanProcessScanner.findOrphanedClaudeProcesses sc tracker exec →
  0 < OrphanProcessScanner.pid o ∧
  (∀ t, t ∈ ProcessTracker.getAllTracked tracker →
        ProcessTracker.pid t ≠ OrphanProcessScanner.pid o) ∧
  (∀ age, OrphanProcessScanner.ageSeconds o = Some age →
          OrphanProcessScanner.maxAgeMs sc ≤ age * 1000) ∧
  ∃ stdout line,
    exec = inr stdout ∧
    line ∈ OrphanProcessScanner.listing_lines stdout ∧
    let fields := js_split_whitespace (js_trim line) in
    (3 ≤ length fields)%nat ∧
    js_parseInt (default EmptyString (fields !! 0%nat)) = Some (OrphanProcessScanner.pid o) ∧
    OrphanProcessScanner.ageSeconds o =
      OrphanProcessScanner.parseElapsedTime (default EmptyString (fields !! 1%nat)) ∧
    OrphanProcessScanner.command o = js_join " " (drop 2 fields).
Proof.
  unfold OrphanProcessScanner.findOrphanedClaudeProcesses,
    OrphanProcessScanner.findOrphansUnix.
  destruct exec as [[code message]|stdout].
  { case_decide; by intros ?%elem_of_nil. }
  intros Ho. apply list_elem_of_omap in Ho as (line & Hline & Hscan).
  apply scan_line_Some in Hscan as (Hlen & Hpid & Hpos & Htr & Hage & Hlt & Hcmd).
  split_and!; [done| | |].
  - intros t Ht Heq. apply Htr. apply elem_of_list_to_set.
    apply list_elem_of_fmap. by exists t.
  - intros age Hsome. rewrite Hsome in Hlt. simpl in Hlt.
    apply bool_decide_eq_false in Hlt. lia.
  - exists stdout, line. by split_and!.
Qed.

End ScanFacts.

(** X26.  What [findOrphanedClaudeProcesses] reports comes from a line of the
    listing with at least three fields, the first of which reads as the pid;
    the pid is positive and is not the pid of any record of the process
    tracker; the age, when it is a number, is at least [maxAgeMs].  If the
    listing cannot be had, nothing is reported. *)
Theorem findOrphanedClaudeProcesses_reports_untracked_old
    (sc : OrphanProcessScanner.Scanner) (tracker : ProcessTracker.World)
    (exec : OrphanProcessScanner.ExecResult)
    (o : OrphanProcessScanner.OrphanProcessInfo) :
  o ∈ OrphanProcessScanner.findOrphanedClaudeProcesses sc tracker exec →
  0 < OrphanProcessScanner.pid o ∧
  (∀ t, t ∈ ProcessTracker.getAllTracked tracker →
        ProcessTracker.pid t ≠ OrphanProcessScanner.pid o) ∧
  (∀ age, OrphanProcessScanner.ageSeconds o = Some age →
          OrphanProcessScanner.maxAgeMs sc ≤ age * 1000) ∧
  ∃ stdout line,
    exec = inr stdout ∧
    line ∈ OrphanProcessScanner.listing_lines stdout ∧
    let fields := js_split_whitespace (js_trim line) in
    (3 ≤ length fields)%nat ∧
    js_parseInt (default EmptyString (fields !! 0%nat)) = Some (OrphanProcessScanner.pid o) ∧
    OrphanProcessScanner.ageSeconds o =
      OrphanProcessScanner.parseElapsedTime (default EmptyString (fields !! 1%nat)) ∧
    OrphanProcessScanner.command o = js_join " " (drop 2 fields).
Proof. apply findOrphanedClaudeProcesses_sound. Qed.

(** Of the three processes listed, pid 4242 is tracked and pid 5001 is five
    minutes old: pid 5000 alone is reported. *)
Lemma findOrphanedClaudeProcesses_reports_untracked_old_witness :
  OrphanProcessScanner.findOrphanedClaudeProcesses (OrphanProcessScanner.new None)
    Scenario.two_children (inr Scenario.ps_listing) = [Scenario.old_orphan] ∧
  0 < OrphanProcessScanner.pid Scenario.old_orphan.
Proof.
  assert (OrphanProcessScanner.findOrphanedClaudeProcesses (OrphanProcessScanner.new None)
            Scenario.two_children (inr Scenario.ps_listing) = [Scenario.old_orphan]) as Hfound.
  { vm_compute. reflexivity. }
  split; [exact Hfound|].
  assert (Scenario.old_orphan ∈
            OrphanProcessScanner.findOrphanedClaudeProcesses (OrphanProcessScanner.new None)
              Scenario.two_children (inr Scenario.ps_listing)) as Hin.
  { rewrite Hfound. left. }
  exact (proj1 (findOrphanedClaudeProcesses_reports_untracked_old _ _ _ _ Hin)).
Defined.

(** X27.  A scan signals reported orphans only.  Every [process.kill] a scan
    makes goes to a pid of [result.pids]; these are positive and are not the
    pid of any record of the process tracker, so a scan never signals a
    tracked process.  [foundCount] is the number of pids reported and equals
    [killedCount + failedCount]; the scan is counted even when it finds
    nothing, and [totalKilled] grows by [killedCount].  If the listing cannot
    be had, the result is empty and nothing is signalled. *)
Theorem scan_signals_reported_orphans_only (tracker : ProcessTracker.World)
    (exec : OrphanProcessScanner.ExecResult)
    (answers : nat → OrphanProcessScanner.KillAnswers)
    (sc : OrphanProcessScanner.Scanner) :
  let r := OrphanProcessScanner.scan tracker exec answers sc in
  let result := r.1.1 in
  let sc' := r.1.2 in
  let calls := r.2 in
  (∀ call, call ∈ calls → call.1 ∈ OrphanProcessScanner.pids result) ∧
  (∀ p, p ∈ OrphanProcessScanner.pids result →
        0 < p ∧ ∀ t, t ∈ ProcessTracker.getAllTracked tracker → ProcessTracker.pid t ≠ p) ∧
  OrphanProcessScanner.foundCount result =
    Z.of_nat (length (OrphanProcessScanner.pids result)) ∧
  OrphanProcessScanner.foundCount result =
    OrphanProcessScanner.killedCount result + OrphanProcessScanner.failedCount result ∧
  0 ≤ OrphanProcessScanner.killedCount result ∧
  0 ≤ OrphanProcessScanner.failedCount result ∧
  OrphanProcessScanner.scanCount sc' = OrphanProcessScanner.scanCount sc + 1 ∧
  OrphanProcessScanner.totalKilled sc' =
    OrphanProcessScanner.totalKilled sc + OrphanProcessScanner.killedCount result ∧
  OrphanProcessScanner.maxAgeMs sc' = OrphanProcessScanner.maxAgeMs sc ∧
  OrphanProcessScanner.intervalId sc' = OrphanProcessScanner.intervalId sc ∧
  (∀ failure, exec = inl failure →
     result = OrphanProcessScanner.mkResult 0 0 0 [] ∧ calls = []).
Proof.
  intros r result sc' calls. subst result sc' calls r.
  unfold OrphanProcessScanner.scan.
  set (sc1 := OrphanProcessScanner.mkScanner _ _ _ _).
  set (orphans := OrphanProcessScanner.findOrphanedClaudeProcesses sc1 tracker exec).
  destruct (kill_each_spec answers 0 orphans
              (OrphanProcessScanner.mkResult (Z.of_nat (length orphans)) 0 0
                 (OrphanProcessScanner.pid <$> orphans)) sc1 [])
    as (I1 & I2 & I3 & I4 & I5 & I6 & I7 & I8 & I9 & I10).
  cbv zeta in *. set (r := OrphanProcessScanner.kill_each _ _ _ _ _ _) in *.
  simpl in I1, I2, I3, I4, I5, I6, I7, I8, I9.
  split_and!; try done; try lia.
  - intros call Hc. rewrite I5. destruct (I10 call Hc) as [Hin|Hin]; [|done].
    by apply elem_of_nil in Hin.
  - intros p Hp. rewrite I5 in Hp. apply list_elem_of_fmap in Hp as (o & -> & Ho).
    destruct (findOrphanedClaudeProcesses_sound sc1 tracker exec o Ho) as (? & ? & _).
    done.
  - rewrite I4, I5. by rewrite length_fmap.
  - intros failure ->. subst r orphans.
    unfold OrphanProcessScanner.findOrphanedClaudeProcesses,
      OrphanProcessScanner.findOrphansUnix.
    destruct failure as [code message]. by case_decide.
Qed.

(** The scan of the listing with pids 4242 (tracked), 5000 and 5001 (young)
    signals pid 5000 alone: SIGTERM, a probe, SIGKILL, a probe. *)
Lemma scan_signals_reported_orphans_only_witness :
  OrphanProcessScanner.scan Scenario.two_children (inr Scenario.ps_listing)
    (λ _, Scenario.killed_by_sigkill) (OrphanProcessScanner.new None)
  = (OrphanProcessScanner.mkResult 1 1 0 [5000],
     OrphanProcessScanner.mkScanner false 1800000 1 1,
     [(5000, Some ProcessTracker.SIGTERM); (5000, None);
      (5000, Some ProcessTracker.SIGKILL); (5000, None)]) ∧
  (∀ call,
     call ∈ (OrphanProcessScanner.scan Scenario.two_children (inr Scenario.ps_listing)
               (λ _, Scenario.killed_by_sigkill) (OrphanProcessScanner.new None)).2 →
     call.1 ∈ OrphanProcessScanner.pids
                (OrphanProcessScanner.scan Scenario.two_children (inr Scenario.ps_listing)
                   (λ _, Scenario.killed_by_sigkill) (OrphanProcessScanner.new None)).1.1).
Proof.
  split; [vm_compute; reflexivity|].
  exact (proj1 (scan_signals_reported_orphans_only Scenario.two_children
                  (inr Scenario.ps_listing) (λ _, Scenario.killed_by_sigkill)
                  (OrphanProcessScanner.new None))).
Defined.

(** ** One tick at a time *)

Section GuardFacts.

Lemma event_step_guard (w : RawEventSummarizer.Worker) (e : RawEventSummarizer.Event) :
  (RawEventSummarizer.isProcessing w = false → RawEventSummarizer.suspended w = []) →
  RawEventSummarizer.isProcessing (RawEventSummarizer.step w e) = false →
  RawEventSummarizer.suspended (RawEventSummarizer.step w e) = [].
Proof.
  intros Hinv. destruct e as [now sid csid data|now| |now|now a|];
    cbn [RawEventSummarizer.step]; try done.
  - unfold RawEventSummarizer.start. by destruct (RawEventSummarizer.interval w).
  - unfold RawEventSummarizer.processBatch.
    destruct (RawEventSummarizer.isProcessing w) eqn:Hp; [by rewrite Hp|].
    destruct (RawToolEventStore.claimBatchForSummarization _ _) as [batch s].
    by destruct batch.
  - unfold RawEventSummarizer.resume.
    destruct (RawEventSummarizer.suspended w) as [|[sessionDbId events] rest] eqn:Hs;
      [by rewrite Hs|].
    destruct rest as [|g rest]; [done|]. simpl.
    destruct (summarizeSessionEvents_settles now a sessionDbId events w)
      as (_ & _ & Hp & _).
    cbv zeta in Hp. rewrite Hp. intros Hfalse.
    by specialize (Hinv Hfalse).
Qed.

Lemma summary_step_guard (w : RawSummarySummarizer.Worker)
    (e : RawSummarySummarizer.Event) :
  (RawSummarySummarizer.isProcessing w = false → RawSummarySummarizer.suspended w = []) →
  RawSummarySummarizer.isProcessing (RawSummarySummarizer.step w e) = false →
  RawSummarySummarizer.suspended (RawSummarySummarizer.step w e) = [].
Proof.
  intros Hinv. destruct e as [now sid csid data|now sid csid data| | | |now a|];
    cbn [RawSummarySummarizer.step]; try done.
  - unfold RawSummarySummarizer.start. by destruct (RawSummarySummarizer.interval w).
  - unfold RawSummarySummarizer.processBatch.
    destruct (RawSummarySummarizer.isProcessing w) eqn:Hp; [by rewrite Hp|].
    destruct (RawSummaryRequestStore.claimBatchForSummarization _ _) as [batch s].
    by destruct batch.
  - unfold RawSummarySummarizer.resume.
    destruct (RawSummarySummarizer.suspended w) as [|request rest] eqn:Hs;
      [by rewrite Hs|].
    destruct rest as [|g rest]; [done|]. simpl.
    destruct (summarizeRequest_settles now a request w) as (_ & _ & Hp & _).
    cbv zeta in Hp. rewrite Hp. intros Hfalse.
    by specialize (Hinv Hfalse).
Qed.

End GuardFacts.

(** X28.  One tick at a time.  In every state a new worker reaches over an
    empty queue (either worker), nothing is in flight when the reentrancy
    guard is clear, so a tick that claims a batch starts with nothing in
    flight; and the ids in flight are distinct and name rows that are pending
    or summarizing.  No row is in the hands of two ticks. *)
Theorem one_tick_in_flight (maxRetries maxResponseLength : option Z)
    (batchSize : option nat) :
  (∀ es : list RawEventSummarizer.Event,
     let w := RawEventSummarizer.run
                (RawEventSummarizer.new
                   (RawToolEventStore.new Queue.empty maxRetries maxResponseLength)
                   batchSize) es in
     (RawEventSummarizer.isProcessing w = false → events_in_flight w = []) ∧
     NoDup (events_in_flight w) ∧
     leased (events_in_flight w) (RawToolEventStore.db (RawEventSummarizer.rawStore w))) ∧
  (∀ es : list RawSummarySummarizer.Event,
     let w := RawSummarySummarizer.run
                (RawSummarySummarizer.new
                   (RawSummaryRequestStore.new Queue.empty maxRetries) batchSize) es in
     (RawSummarySummarizer.isProcessing w = false → requests_in_flight w = []) ∧
     NoDup (requests_in_flight w) ∧
     leased (requests_in_flight w)
       (RawSummaryRequestStore.db (RawSummarySummarizer.rawStore w))).
Proof.
  split.
  - intros es w.
    assert (RawEventSummarizer.isProcessing w = false → RawEventSummarizer.suspended w = [])
      as Hguard.
    { subst w. unfold RawEventSummarizer.run. rewrite <- (reverse_involutive es).
      induction (reverse es) as [|e es' IH]; [done|].
      rewrite reverse_cons, foldl_app. cbn [foldl]. by apply event_step_guard. }
    destruct (event_run_holds maxRetries maxResponseLength batchSize es) as (_ & Hnd & Hl).
    split_and!; [|done..]. intros Hp. unfold events_in_flight. by rewrite Hguard.
  - intros es w.
    assert (RawSummarySummarizer.isProcessing w = false →
            RawSummarySummarizer.suspended w = []) as Hguard.
    { subst w. unfold RawSummarySummarizer.run. rewrite <- (reverse_involutive es).
      induction (reverse es) as [|e es' IH]; [done|].
      rewrite reverse_cons, foldl_app. cbn [foldl]. by apply summary_step_guard. }
    destruct (summary_run_holds maxRetries batchSize es) as (_ & Hnd & Hl).
    split_and!; [|done..]. intros Hp. unfold requests_in_flight. by rewrite Hguard.
Qed.
